(** * Banking lab: a shallow embedding of [bank.go]

    The development follows the three parts of the program:

    - Part 2, the channel based processor ([transactionProcessor]) working
      on a double-entry [Ledger];
    - Parts 1 and 3, the goroutines [withdrawRace], [withdrawMutex] and
      [deposit] that work on the package level variable [balance], as a
      pool of threads with an interleaving step relation;
    - the unbuffered channel [txChan] of [testChannelBased], as a
      rendezvous between producers and the single worker.

    Go's [int] is taken at its 64-bit width; every [+=] and [-=] of the
    source is written with its wrap-around. *)

From Stdlib Require Import ZArith List String Bool Lia Permutation.
Import ListNotations.

Open Scope string_scope.
Open Scope list_scope.
Open Scope Z_scope.

(** ** Machine integers *)

Module GoInt.

(** Half of the modulus: [2^63]. *)
Definition half : Z := 9223372036854775808.

(** The modulus of [int] arithmetic: [2^64]. *)
Definition modulus : Z := 18446744073709551616.

Definition int_min : Z := - half.
Definition int_max : Z := half - 1.

(** The values an [int] variable can hold. *)
Definition in_range (z : Z) : Prop := int_min <= z <= int_max.

(** Two's complement reduction of a mathematical integer. *)
Definition wrap (z : Z) : Z := (z + half) mod modulus - half.

(** [a + b] and [a - b] on [int]. *)
Definition add (a b : Z) : Z := wrap (a + b).
Definition sub (a b : Z) : Z := wrap (a - b).

End GoInt.

Import GoInt.

(** ** Data model (lines 13-25) *)

(** [Transaction]: a request from a customer account.  The field [Type]
    of the source is [Type_] here. *)
Record Transaction : Set := mkTransaction {
  Amount     : Z;
  Source     : string;
  CustomerID : string;
  Type_      : string   (* "withdrawal" or "deposit" *)
}.

(** [Ledger]: the balances of customer and bank. *)
Record Ledger : Set := mkLedger {
  CustomerBalance : Z;
  BankBalance     : Z
}.

(** ** Output

    Every [fmt.Printf] of the source that reports on a transaction is an
    event carrying the values the format string prints.  The line of the
    source is given with each constructor. *)
Inductive Msg : Set :=
  (* Part 1, withdrawRace *)
  | RaceWithdrawing (source : string) (amount : Z)                 (* 32 *)
  | RaceSuccessful (source : string) (amount newBalance : Z)       (* 35 *)
  | RaceFailed (source : string) (amount : Z)                      (* 37 *)
  (* Part 2, transactionProcessor *)
  | ProcessingDeposit (source : string) (amount : Z) (customer : string)    (* 66 *)
  | ProcessingWithdrawal (source : string) (amount : Z) (customer : string) (* 69 *)
  | WithdrawalComplete (customerBalance bankBalance : Z)           (* 80 *)
  | WithdrawalFailed (customer : string)                           (* 83 *)
  | DepositComplete (customerBalance bankBalance : Z)              (* 88 *)
  (* Part 3, withdrawMutex *)
  | MutexAttempting (source : string) (amount : Z)                 (* 175 *)
  | MutexAcquired (source : string)                                (* 178 *)
  | MutexWithdrawing (source : string) (amount : Z)                (* 182 *)
  | MutexSuccessful (source : string) (amount newBalance : Z)      (* 185 *)
  | MutexFailed (source : string) (amount : Z)                     (* 188 *)
  (* Part 3, deposit *)
  | DepositDepositing (source : string) (amount : Z)               (* 197 *)
  | DepositAcquired (source : string)                              (* 200 *)
  | DepositSuccessful (source : string) (amount newBalance : Z).   (* 205 *)

(** ** Lists of goroutines *)

(** [set_nth i x l]: [l] with its element number [i] replaced by [x]. *)
Fixpoint set_nth {A : Type} (i : nat) (x : A) (l : list A) : list A :=
  match l, i with
  | [], _ => []
  | _ :: l', O => x :: l'
  | y :: l', S i' => y :: set_nth i' x l'
  end.

(** ** Part 2: the channel based processor (lines 62-92) *)

Module Serial.

(** The body of the loop [for tx := range txChan], lines 64-90: the new
    ledger and the lines printed.  [time.Sleep] changes no state. *)
Definition process (ledger : Ledger) (tx : Transaction) : Ledger * list Msg :=
  let announce :=
    if String.eqb (Type_ tx) "deposit"
    then ProcessingDeposit (Source tx) (Amount tx) (CustomerID tx)
    else ProcessingWithdrawal (Source tx) (Amount tx) (CustomerID tx) in
  if String.eqb (Type_ tx) "withdrawal" then
    if CustomerBalance ledger >=? Amount tx then
      let ledger' :=
        {| CustomerBalance := sub (CustomerBalance ledger) (Amount tx);
           BankBalance     := add (BankBalance ledger) (Amount tx) |} in
      (ledger', [announce;
                 WithdrawalComplete (CustomerBalance ledger') (BankBalance ledger')])
    else
      (ledger, [announce; WithdrawalFailed (CustomerID tx)])
  else if String.eqb (Type_ tx) "deposit" then
    let ledger' :=
      {| CustomerBalance := add (CustomerBalance ledger) (Amount tx);
         BankBalance     := sub (BankBalance ledger) (Amount tx) |} in
    (ledger', [announce;
               DepositComplete (CustomerBalance ledger') (BankBalance ledger')])
  else
    (ledger, [announce]).

(** [transactionProcessor]: the loop over the transactions the channel
    delivers, in the order it delivers them, until it is closed.  The
    ledger is updated in place in the source; here it is threaded
    through, with the output produced so far. *)
Fixpoint transactionProcessor (ledger : Ledger) (txChan : list Transaction)
  : Ledger * list Msg :=
  match txChan with
  | [] => (ledger, [])
  | tx :: rest =>
      let '(ledger1, out1) := process ledger tx in
      let '(ledger2, out2) := transactionProcessor ledger1 rest in
      (ledger2, out1 ++ out2)
  end.

(** The total printed at line 165: [CustomerBalance + BankBalance]. *)
Definition total (ledger : Ledger) : Z :=
  add (CustomerBalance ledger) (BankBalance ledger).

(** The lines that report a committed transaction (80 and 88). *)
Definition is_complete (m : Msg) : bool :=
  match m with
  | WithdrawalComplete _ _ | DepositComplete _ _ => true
  | _ => false
  end.

(** The line that reports a rejected withdrawal (83). *)
Definition is_failed (m : Msg) : bool :=
  match m with
  | WithdrawalFailed _ => true
  | _ => false
  end.

(** How many transactions the output reports as committed, and how
    many as rejected. *)
Definition commits (printed : list Msg) : nat :=
  List.length (filter is_complete printed).
Definition rejections (printed : list Msg) : nat :=
  List.length (filter is_failed printed).

Definition is_deposit (tx : Transaction) : bool :=
  String.eqb (Type_ tx) "deposit".
Definition is_withdrawal (tx : Transaction) : bool :=
  String.eqb (Type_ tx) "withdrawal".

(** The sum of the amounts of the deposits of a sequence. *)
Fixpoint deposited (txs : list Transaction) : Z :=
  match txs with
  | [] => 0
  | tx :: rest => (if is_deposit tx then Amount tx else 0) + deposited rest
  end.

(** What a sequence adds to the customer's side when every transaction
    of it is committed: deposits count positive, withdrawals negative. *)
Fixpoint net (txs : list Transaction) : Z :=
  match txs with
  | [] => 0
  | tx :: rest =>
      (if is_withdrawal tx then - Amount tx
       else if is_deposit tx then Amount tx else 0) + net rest
  end.

(** The ledger after the whole sequence. *)
Definition final (ledger : Ledger) (txs : list Transaction) : Ledger :=
  fst (transactionProcessor ledger txs).

(** The four transactions of [testChannelBased], in the order of the
    source (lines 116-152), and the ledger of line 100. *)
Definition tx_phone : Transaction :=
  {| Amount := 700; Source := "Phone Transfer";
     CustomerID := "CUST1001"; Type_ := "withdrawal" |}.
Definition tx_atm : Transaction :=
  {| Amount := 500; Source := "ATM Withdrawal";
     CustomerID := "CUST1001"; Type_ := "withdrawal" |}.
Definition tx_online : Transaction :=
  {| Amount := 400; Source := "Online Purchase";
     CustomerID := "CUST1001"; Type_ := "withdrawal" |}.
Definition tx_salary : Transaction :=
  {| Amount := 1500; Source := "Salary Deposit";
     CustomerID := "CUST1001"; Type_ := "deposit" |}.

Definition submissions : list Transaction :=
  [tx_phone; tx_atm; tx_online; tx_salary].

Definition initial_ledger : Ledger :=
  {| CustomerBalance := 1000; BankBalance := 5000 |}.

(** *** Particular inputs *)

(** The salary first, then the three withdrawals. *)
Definition salary_first : list Transaction :=
  [tx_salary; tx_phone; tx_atm; tx_online].

(** A customer who holds the largest [int], and a deposit of 1. *)
Definition full_ledger : Ledger :=
  {| CustomerBalance := int_max; BankBalance := 0 |}.
Definition one_more : Transaction :=
  {| Amount := 1; Source := "Refund";
     CustomerID := "CUST1001"; Type_ := "deposit" |}.

(** A deposit of more than the bank holds. *)
Definition large_deposit : Transaction :=
  {| Amount := 6000; Source := "Salary Deposit";
     CustomerID := "CUST1001"; Type_ := "deposit" |}.

(** More than the customer holds. *)
Definition large_withdrawal : Transaction :=
  {| Amount := 1200; Source := "ATM Withdrawal";
     CustomerID := "CUST1001"; Type_ := "withdrawal" |}.

(** *** Shapes of the input and of the output *)

(** A transaction the processor acts on: its type is one of the two
    strings of lines 76 and 85. *)
Definition known (tx : Transaction) : bool :=
  is_withdrawal tx || is_deposit tx.

(** The lines that announce a transaction (66 and 69). *)
Definition is_announce (m : Msg) : bool :=
  match m with
  | ProcessingDeposit _ _ _ | ProcessingWithdrawal _ _ _ => true
  | _ => false
  end.

Definition announces (printed : list Msg) : nat :=
  List.length (filter is_announce printed).

(** The 24 orders of the four transactions of [testChannelBased]. *)
Fixpoint insert_everywhere (x : Transaction) (l : list Transaction)
  : list (list Transaction) :=
  match l with
  | [] => [[x]]
  | y :: l' => (x :: l) :: map (cons y) (insert_everywhere x l')
  end.

Fixpoint orders (l : list Transaction) : list (list Transaction) :=
  match l with
  | [] => [[]]
  | x :: l' => flat_map (insert_everywhere x) (orders l')
  end.

(** The ledgers [testChannelBased] can end with. *)
Definition final_ledgers : list Ledger :=
  [ {| CustomerBalance := 900;  BankBalance := 5100 |};
    {| CustomerBalance := 1300; BankBalance := 4700 |};
    {| CustomerBalance := 1400; BankBalance := 4600 |};
    {| CustomerBalance := 1600; BankBalance := 4400 |};
    {| CustomerBalance := 1800; BankBalance := 4200 |} ].

Definition ledger_eqb (l1 l2 : Ledger) : bool :=
  (CustomerBalance l1 =? CustomerBalance l2) &&
  (BankBalance l1 =? BankBalance l2).

(** The transaction [tx] with another amount and type. *)
Definition as_deposit (amount : Z) (tx : Transaction) : Transaction :=
  {| Amount := amount; Source := Source tx;
     CustomerID := CustomerID tx; Type_ := "deposit" |}.

(** A transaction whose type is written with a capital letter, a
    withdrawal of a negative amount and a deposit of a negative amount. *)
Definition capital_deposit : Transaction :=
  {| Amount := 1500; Source := "Salary Deposit";
     CustomerID := "CUST1001"; Type_ := "Deposit" |}.
Definition negative_withdrawal : Transaction :=
  {| Amount := -250; Source := "ATM Withdrawal";
     CustomerID := "CUST1001"; Type_ := "withdrawal" |}.
Definition negative_deposit : Transaction :=
  {| Amount := -2000; Source := "Salary Deposit";
     CustomerID := "CUST1001"; Type_ := "deposit" |}.

(** A withdrawal of the smallest [int], and a ledger whose customer has
    nothing. *)
Definition min_withdrawal : Transaction :=
  {| Amount := int_min; Source := "ATM Withdrawal";
     CustomerID := "CUST1001"; Type_ := "withdrawal" |}.
Definition penniless : Ledger :=
  {| CustomerBalance := 0; BankBalance := 5000 |}.

(** Another order in which all four transactions are committed. *)
Definition salary_then_atm : list Transaction :=
  [tx_salary; tx_atm; tx_phone; tx_online].

End Serial.

(** ** Parts 1 and 3: goroutines on the package level [balance] *)

Module Pool.

(** The package level variables of lines 10-11, the [sync.WaitGroup]
    handed to the goroutines of Part 3, and the standard output. *)
Record Global : Set := mkGlobal {
  balance : Z;          (* var balance int *)
  mu      : bool;       (* var mu sync.Mutex; true while it is locked *)
  wg      : Z;          (* counter of the WaitGroup *)
  out     : list Msg    (* lines printed so far, oldest first *)
}.

Definition set_balance (g : Global) (b : Z) : Global :=
  {| balance := b; mu := mu g; wg := wg g; out := out g |}.
Definition set_mu (g : Global) (m : bool) : Global :=
  {| balance := balance g; mu := m; wg := wg g; out := out g |}.
Definition set_wg (g : Global) (n : Z) : Global :=
  {| balance := balance g; mu := mu g; wg := n; out := out g |}.
Definition print (g : Global) (m : Msg) : Global :=
  {| balance := balance g; mu := mu g; wg := wg g; out := out g ++ [m] |}.

(** Control points of [withdrawRace] (lines 30-39): the statement the
    goroutine executes next.  [balance -= amount] is a read of the
    variable followed by a write; [RaceStore] holds the value read. *)
Inductive RacePC : Set :=
  | RaceCheck                (* 31: if balance >= amount *)
  | RaceAnnounce             (* 32 *)
  | RaceSleep                (* 33 *)
  | RaceLoad                 (* 34, read *)
  | RaceStore (tmp : Z)      (* 34, write *)
  | RaceReport               (* 35 *)
  | RaceFail                 (* 37 *)
  | RaceReturned.

(** Control points of [withdrawMutex] (lines 172-191).  The deferred
    calls run at return in the reverse order of their [defer]:
    [mu.Unlock()] first, [wg.Done()] second. *)
Inductive MutexPC : Set :=
  | MAttempt                 (* 175 *)
  | MLock                    (* 177: mu.Lock() *)
  | MAcquired                (* 178 *)
  | MCheck                   (* 181: if balance >= amount *)
  | MAnnounce                (* 182 *)
  | MSleep                   (* 183 *)
  | MLoad                    (* 184, read *)
  | MStore (tmp : Z)         (* 184, write *)
  | MReport                  (* 185 *)
  | MFail                    (* 188 *)
  | MUnlock                  (* deferred at 179 *)
  | MDone                    (* deferred at 173 *)
  | MReturned.

(** Control points of [deposit] (lines 194-207). *)
Inductive DepositPC : Set :=
  | DAnnounce                (* 197 *)
  | DLock                    (* 199: mu.Lock() *)
  | DAcquired                (* 200 *)
  | DSleep                   (* 203 *)
  | DLoad                    (* 204, read *)
  | DStore (tmp : Z)         (* 204, write *)
  | DReport                  (* 205 *)
  | DUnlock                  (* deferred at 201 *)
  | DDone                    (* deferred at 195 *)
  | DReturned.

(** A goroutine: the function it runs, its arguments and where it is. *)
Inductive Thread : Set :=
  | WithdrawRace (amount : Z) (source : string) (pc : RacePC)
  | WithdrawMutex (amount : Z) (source : string) (pc : MutexPC)
  | Deposit (amount : Z) (source : string) (pc : DepositPC).

(** [mu.Lock()]: blocks (no step) while the mutex is held. *)
Definition lock (g : Global) : option Global :=
  if mu g then None else Some (set_mu g true).

(** [mu.Unlock()]: unlocking a mutex that is not locked is a fatal error
    of the Go runtime; there is no step. *)
Definition unlock (g : Global) : option Global :=
  if mu g then Some (set_mu g false) else None.

(** [wg.Done()]: the counter may not become negative (the runtime
    panics); there is no step then. *)
Definition done (g : Global) : option Global :=
  if 0 <? wg g then Some (set_wg g (wg g - 1)) else None.

(** One statement of [withdrawRace]. *)
Definition step_race (amount : Z) (source : string) (g : Global) (pc : RacePC)
  : option (Global * RacePC) :=
  match pc with
  | RaceCheck =>
      if balance g >=? amount then Some (g, RaceAnnounce) else Some (g, RaceFail)
  | RaceAnnounce => Some (print g (RaceWithdrawing source amount), RaceSleep)
  | RaceSleep => Some (g, RaceLoad)
  | RaceLoad => Some (g, RaceStore (balance g))
  | RaceStore tmp => Some (set_balance g (sub tmp amount), RaceReport)
  | RaceReport =>
      Some (print g (RaceSuccessful source amount (balance g)), RaceReturned)
  | RaceFail => Some (print g (RaceFailed source amount), RaceReturned)
  | RaceReturned => None
  end.

(** One statement of [withdrawMutex]. *)
Definition step_mutex (amount : Z) (source : string) (g : Global) (pc : MutexPC)
  : option (Global * MutexPC) :=
  match pc with
  | MAttempt => Some (print g (MutexAttempting source amount), MLock)
  | MLock => option_map (fun g' => (g', MAcquired)) (lock g)
  | MAcquired => Some (print g (MutexAcquired source), MCheck)
  | MCheck =>
      if balance g >=? amount then Some (g, MAnnounce) else Some (g, MFail)
  | MAnnounce => Some (print g (MutexWithdrawing source amount), MSleep)
  | MSleep => Some (g, MLoad)
  | MLoad => Some (g, MStore (balance g))
  | MStore tmp => Some (set_balance g (sub tmp amount), MReport)
  | MReport =>
      Some (print g (MutexSuccessful source amount (balance g)), MUnlock)
  | MFail => Some (print g (MutexFailed source amount), MUnlock)
  | MUnlock => option_map (fun g' => (g', MDone)) (unlock g)
  | MDone => option_map (fun g' => (g', MReturned)) (done g)
  | MReturned => None
  end.

(** One statement of [deposit]. *)
Definition step_deposit (amount : Z) (source : string) (g : Global) (pc : DepositPC)
  : option (Global * DepositPC) :=
  match pc with
  | DAnnounce => Some (print g (DepositDepositing source amount), DLock)
  | DLock => option_map (fun g' => (g', DAcquired)) (lock g)
  | DAcquired => Some (print g (DepositAcquired source), DSleep)
  | DSleep => Some (g, DLoad)
  | DLoad => Some (g, DStore (balance g))
  | DStore tmp => Some (set_balance g (add tmp amount), DReport)
  | DReport =>
      Some (print g (DepositSuccessful source amount (balance g)), DUnlock)
  | DUnlock => option_map (fun g' => (g', DDone)) (unlock g)
  | DDone => option_map (fun g' => (g', DReturned)) (done g)
  | DReturned => None
  end.

(** One statement of a goroutine; [None] when it is blocked, has
    returned, or the runtime stops the program. *)
Definition tstep (g : Global) (t : Thread) : option (Global * Thread) :=
  match t with
  | WithdrawRace a src pc =>
      option_map (fun '(g', pc') => (g', WithdrawRace a src pc')) (step_race a src g pc)
  | WithdrawMutex a src pc =>
      option_map (fun '(g', pc') => (g', WithdrawMutex a src pc')) (step_mutex a src g pc)
  | Deposit a src pc =>
      option_map (fun '(g', pc') => (g', Deposit a src pc')) (step_deposit a src g pc)
  end.

(** The running program: the shared variables and the goroutines. *)
Definition State : Set := Global * list Thread.

(** The scheduler picks any goroutine that can take a step. *)
Inductive step : State -> State -> Prop :=
  | step_thread (g g' : Global) (before after : list Thread) (t t' : Thread) :
      tstep g t = Some (g', t') ->
      step (g, before ++ t :: after) (g', before ++ t' :: after).

(** Executions: any number of steps. *)
Inductive steps : State -> State -> Prop :=
  | steps_refl (s : State) : steps s s
  | steps_snoc (s1 s2 s3 : State) : steps s1 s2 -> step s2 s3 -> steps s1 s3.

(** A goroutine that has returned. *)
Definition returned (t : Thread) : bool :=
  match t with
  | WithdrawRace _ _ RaceReturned => true
  | WithdrawMutex _ _ MReturned => true
  | Deposit _ _ DReturned => true
  | _ => false
  end.

(** The goroutines of Part 3, which take the mutex. *)
Definition guarded (t : Thread) : bool :=
  match t with
  | WithdrawRace _ _ _ => false
  | _ => true
  end.

(** A goroutine that has not run yet. *)
Definition fresh (t : Thread) : bool :=
  match t with
  | WithdrawRace _ _ RaceCheck => true
  | WithdrawMutex _ _ MAttempt => true
  | Deposit _ _ DAnnounce => true
  | _ => false
  end.

Definition amount_of (t : Thread) : Z :=
  match t with
  | WithdrawRace a _ _ | WithdrawMutex a _ _ | Deposit a _ _ => a
  end.

(** *** Schedules *)

(** Goroutine number [i] executes its next statement. *)
Definition fire (i : nat) (s : State) : option State :=
  match nth_error (snd s) i with
  | Some t =>
      match tstep (fst s) t with
      | Some (g', t') => Some (g', set_nth i t' (snd s))
      | None => None
      end
  | None => None
  end.

(** A schedule: the numbers of the goroutines in the order they step. *)
Fixpoint run (schedule : list nat) (s : State) : option State :=
  match schedule with
  | [] => Some s
  | i :: rest =>
      match fire i s with
      | Some s' => run rest s'
      | None => None
      end
  end.

(** All states one step away. *)
Fixpoint successors_from (g : Global) (before after : list Thread) : list State :=
  match after with
  | [] => []
  | t :: after' =>
      match tstep g t with
      | Some (g', t') => [(g', before ++ t' :: after')]
      | None => []
      end ++ successors_from g (before ++ [t]) after'
  end.

Definition successors (s : State) : list State :=
  successors_from (fst s) [] (snd s).

(** A call that is not run as a goroutine: the statements of [t] one
    after the other, to the return.  No function of the source has a
    loop; the longest path, through [withdrawMutex], has 11 statements. *)
Fixpoint call_fuel (fuel : nat) (g : Global) (t : Thread) : option Global :=
  if returned t then Some g else
  match fuel with
  | O => None
  | S fuel' =>
      match tstep g t with
      | Some (g', t') => call_fuel fuel' g' t'
      | None => None
      end
  end.

Definition call (g : Global) (t : Thread) : option Global := call_fuel 11 g t.

(** *** Scenarios *)

(** The state after [balance = b0], [wg.Add(n)] and [n] [go]
    statements. *)
Definition start (b0 : Z) (ts : list Thread) : State :=
  ({| balance := b0; mu := false; wg := Z.of_nat (List.length ts); out := [] |}, ts).

(** [testRaceCondition], lines 45-49. *)
Definition testRaceCondition : State :=
  ({| balance := 1000; mu := false; wg := 0; out := [] |},
   [WithdrawRace 700 "phone transaction" RaceCheck;
    WithdrawRace 500 "atm transaction" RaceCheck]).

(** [testMutex], lines 213-221. *)
Definition testMutex : State :=
  start 1000 [WithdrawMutex 700 "phone transaction" MAttempt;
              WithdrawMutex 500 "atm transaction" MAttempt].

(** *** Quantities the invariants speak of *)

Definition sumZ (f : Thread -> Z) (ts : list Thread) : Z :=
  fold_right (fun t acc => f t + acc) 0 ts.

(** A goroutine between [mu.Lock()] and [mu.Unlock()]. *)
Definition holds (t : Thread) : bool :=
  match t with
  | WithdrawMutex _ _ pc =>
      match pc with
      | MAttempt | MLock | MDone | MReturned => false
      | _ => true
      end
  | Deposit _ _ pc =>
      match pc with
      | DAnnounce | DLock | DDone | DReturned => false
      | _ => true
      end
  | WithdrawRace _ _ _ => false
  end.

Definition holders (ts : list Thread) : Z :=
  sumZ (fun t => if holds t then 1 else 0) ts.

(** The goroutines of Part 3 that have not called [wg.Done()] yet. *)
Definition outstanding (ts : list Thread) : Z :=
  sumZ (fun t => if guarded t && negb (returned t) then 1 else 0) ts.

(** What a line of the output reports as committed: the amount of a
    deposit (line 205), of a withdrawal (line 185). *)
Definition deposit_reported (m : Msg) : Z :=
  match m with
  | DepositSuccessful _ a _ => a
  | _ => 0
  end.
Definition withdrawal_reported (m : Msg) : Z :=
  match m with
  | MutexSuccessful _ a _ => a
  | _ => 0
  end.

Fixpoint committed_deposits (printed : list Msg) : Z :=
  match printed with
  | [] => 0
  | m :: rest => deposit_reported m + committed_deposits rest
  end.
Fixpoint committed_withdrawals (printed : list Msg) : Z :=
  match printed with
  | [] => 0
  | m :: rest => withdrawal_reported m + committed_withdrawals rest
  end.

(** A goroutine that has written [balance] and not yet printed the
    line that reports it. *)
Definition unreported (t : Thread) : Z :=
  match t with
  | WithdrawMutex a _ MReport => - a
  | Deposit a _ DReport => a
  | _ => 0
  end.

(** The amount of a deposit that has not been written yet. *)
Definition undeposited (t : Thread) : Z :=
  match t with
  | Deposit a _ pc =>
      match pc with
      | DReport | DUnlock | DDone | DReturned => 0
      | _ => a
      end
  | _ => 0
  end.

(** What a goroutine inside the critical section knows of [balance]:
    the comparison of line 181 still holds, and the value read at line
    184 or 204 is still the value of the variable. *)
Definition data_ok (g : Global) (t : Thread) : Prop :=
  match t with
  | WithdrawMutex a _ (MAnnounce | MSleep | MLoad) => a <= balance g
  | WithdrawMutex a _ (MStore tmp) => tmp = balance g /\ a <= balance g
  | Deposit _ _ (DStore tmp) => tmp = balance g
  | _ => True
  end.

(** *** Exhaustive search of a finite scenario *)

Definition Msg_eq_dec (x y : Msg) : {x = y} + {x <> y}.
Proof. decide equality; solve [apply Z.eq_dec | apply string_dec]. Defined.

Definition Thread_eq_dec (x y : Thread) : {x = y} + {x <> y}.
Proof.
  decide equality;
    solve [apply Z.eq_dec | apply string_dec
          | decide equality; apply Z.eq_dec].
Defined.

Definition Global_eq_dec (x y : Global) : {x = y} + {x <> y}.
Proof.
  decide equality;
    solve [apply Z.eq_dec | apply Bool.bool_dec
          | apply list_eq_dec, Msg_eq_dec].
Defined.

Definition State_eq_dec (x y : State) : {x = y} + {x <> y}.
Proof.
  decide equality;
    solve [apply Global_eq_dec | apply list_eq_dec, Thread_eq_dec].
Defined.

Definition mem (s : State) (seen : list State) : bool :=
  existsb (fun s' => if State_eq_dec s s' then true else false) seen.

(** Depth first search from the states of [todo]. *)
Fixpoint explore (fuel : nat) (todo seen : list State) : list State :=
  match fuel with
  | O => seen
  | S fuel' =>
      match todo with
      | [] => seen
      | s :: todo' =>
          if mem s seen then explore fuel' todo' seen
          else explore fuel' (successors s ++ todo') (s :: seen)
      end
  end.

(** [seen] contains every successor of each of its states. *)
Definition closed_under (seen : list State) : bool :=
  forallb (fun s => forallb (fun s' => mem s' seen) (successors s)) seen.

(** *** Invariants of the lock guarded goroutines *)

(** The invariant of a pool of [withdrawMutex] and [deposit] goroutines
    started with balance [b0]: at most one goroutine is between Lock and
    Unlock, and exactly when the mutex is locked; what the goroutine in
    the critical section knows of [balance] is true; [balance] accounts
    for the lines printed and the writes not yet reported; the WaitGroup
    counts the goroutines that have not returned. *)
Definition inv (b0 : Z) (s : State) : Prop :=
  let (g, ts) := s in
  Forall (fun t => guarded t = true) ts /\
  holders ts = (if mu g then 1 else 0) /\
  Forall (data_ok g) ts /\
  balance g = wrap (b0 + committed_deposits (out g)
                       - committed_withdrawals (out g) + sumZ unreported ts) /\
  wg g = outstanding ts.

(** Positive amounts, a non-negative balance, and room for the deposits
    still to come. *)
Definition solvent (s : State) : Prop :=
  let (g, ts) := s in
  Forall (fun t => 0 < amount_of t) ts /\
  0 <= balance g /\
  balance g + sumZ undeposited ts <= int_max.

(** The amount a [deposit] goroutine adds. *)
Definition deposit_amount (t : Thread) : Z :=
  match t with
  | Deposit a _ _ => a
  | _ => 0
  end.

(** The goroutines a test of Part 3 starts: [withdrawMutex] and [deposit]
    calls that have not run yet. *)
Definition spawned (ts : list Thread) : Prop :=
  Forall (fun t => guarded t = true /\ fresh t = true) ts.

(** An upper bound of the number of statements a goroutine has still to
    execute. *)
Definition rank (t : Thread) : nat :=
  match t with
  | WithdrawRace _ _ pc =>
      match pc with
      | RaceCheck => 6 | RaceAnnounce => 5 | RaceSleep => 4 | RaceLoad => 3
      | RaceStore _ => 2 | RaceReport => 1 | RaceFail => 1 | RaceReturned => 0
      end
  | WithdrawMutex _ _ pc =>
      match pc with
      | MAttempt => 11 | MLock => 10 | MAcquired => 9 | MCheck => 8
      | MAnnounce => 7 | MSleep => 6 | MLoad => 5 | MStore _ => 4
      | MReport => 3 | MFail => 3 | MUnlock => 2 | MDone => 1 | MReturned => 0
      end
  | Deposit _ _ pc =>
      match pc with
      | DAnnounce => 9 | DLock => 8 | DAcquired => 7 | DSleep => 6
      | DLoad => 5 | DStore _ => 4 | DReport => 3 | DUnlock => 2
      | DDone => 1 | DReturned => 0
      end
  end%nat.

Definition total_rank (ts : list Thread) : nat :=
  fold_right (fun t acc => (rank t + acc)%nat) O ts.

(** The lines that report a successful and a failed [withdrawMutex]. *)
Definition is_success (m : Msg) : bool :=
  match m with
  | MutexSuccessful _ _ _ => true
  | _ => false
  end.
Definition is_failure (m : Msg) : bool :=
  match m with
  | MutexFailed _ _ => true
  | _ => false
  end.
Definition successes (printed : list Msg) : nat :=
  List.length (filter is_success printed).
Definition failures (printed : list Msg) : nat :=
  List.length (filter is_failure printed).

(** The states of [testMutex] found by the search. *)
Definition testMutex_states : list State := explore 2000 [testMutex] [].

(** What is checked on each of them: the balance is not negative, and
    once the counter of the WaitGroup is zero the balance is 300 or 500,
    one withdrawal is reported successful and one failed. *)
Definition contention_check (s : State) : bool :=
  (0 <=? balance (fst s)) &&
  (if wg (fst s) =? 0
   then ((balance (fst s) =? 300) || (balance (fst s) =? 500)) &&
        Nat.eqb (successes (out (fst s))) 1 &&
        Nat.eqb (failures (out (fst s))) 1
   else true).

(** *** Schedules of [testMutex] and what they lead to *)

(** The phone withdrawal first: 300 is left. *)
Definition phone_first : list nat :=
  [0; 0; 0; 0; 0; 0; 0; 0; 0; 0; 0; 1; 1; 1; 1; 1; 1; 1]%nat.

(** The ATM withdrawal first: 500 is left. *)
Definition atm_first : list nat :=
  [1; 1; 1; 1; 1; 1; 1; 1; 1; 1; 1; 0; 0; 0; 0; 0; 0; 0]%nat.

Definition after_phone_first : State :=
  ({| balance := 300; mu := false; wg := 0;
      out := [MutexAttempting "phone transaction" 700;
              MutexAcquired "phone transaction";
              MutexWithdrawing "phone transaction" 700;
              MutexSuccessful "phone transaction" 700 300;
              MutexAttempting "atm transaction" 500;
              MutexAcquired "atm transaction";
              MutexFailed "atm transaction" 500] |},
   [WithdrawMutex 700 "phone transaction" MReturned;
    WithdrawMutex 500 "atm transaction" MReturned]).

Definition after_atm_first : State :=
  ({| balance := 500; mu := false; wg := 0;
      out := [MutexAttempting "atm transaction" 500;
              MutexAcquired "atm transaction";
              MutexWithdrawing "atm transaction" 500;
              MutexSuccessful "atm transaction" 500 500;
              MutexAttempting "phone transaction" 700;
              MutexAcquired "phone transaction";
              MutexFailed "phone transaction" 700] |},
   [WithdrawMutex 700 "phone transaction" MReturned;
    WithdrawMutex 500 "atm transaction" MReturned]).

(** *** Scenarios entered after other scenarios *)

(** The output of an earlier part of the program in front of the output
    of [g]. *)
Definition with_out (earlier : list Msg) (g : Global) : Global :=
  {| balance := balance g; mu := mu g; wg := wg g; out := earlier ++ out g |}.

(** [testMutex] entered with the package level variables as the earlier
    scenarios left them: line 213 assigns [balance], line 216 declares a
    new WaitGroup and line 219 adds 2 to it. *)
Definition testMutex_after (prev : Global) : State :=
  ({| balance := 1000; mu := mu prev; wg := 2; out := out prev |},
   [WithdrawMutex 700 "phone transaction" MAttempt;
    WithdrawMutex 500 "atm transaction" MAttempt]).

(** *** The race of Part 1 *)

(** Both goroutines evaluate line 31 before either writes. *)
Definition both_pass : list nat :=
  [0; 1; 0; 0; 0; 0; 0; 1; 1; 1; 1; 1]%nat.

Definition after_both_pass : State :=
  ({| balance := -200; mu := false; wg := 0;
      out := [RaceWithdrawing "phone transaction" 700;
              RaceSuccessful "phone transaction" 700 300;
              RaceWithdrawing "atm transaction" 500;
              RaceSuccessful "atm transaction" 500 (-200)] |},
   [WithdrawRace 700 "phone transaction" RaceReturned;
    WithdrawRace 500 "atm transaction" RaceReturned]).

(** A [withdrawRace] running next to a [withdrawMutex]. *)
Definition mixed : State :=
  ({| balance := 1000; mu := false; wg := 1; out := [] |},
   [WithdrawRace 700 "phone" RaceCheck;
    WithdrawMutex 500 "atm" MAttempt]).

Definition race_then_mutex : list nat :=
  [0; 0; 0; 0; 0; 0; 1; 1; 1; 1; 1; 1; 1]%nat.

Definition after_race_then_mutex : State :=
  ({| balance := 300; mu := false; wg := 0;
      out := [RaceWithdrawing "phone" 700;
              RaceSuccessful "phone" 700 300;
              MutexAttempting "atm" 500;
              MutexAcquired "atm";
              MutexFailed "atm" 500] |},
   [WithdrawRace 700 "phone" RaceReturned;
    WithdrawMutex 500 "atm" MReturned]).

(** *** Particular inputs *)

(** The largest [int] in [balance], and one goroutine to wait for. *)
Definition full_account : Global :=
  {| balance := int_max; mu := false; wg := 1; out := [] |}.

(** The variables as [testMutex] finds them at line 213, with 1000 in
    [balance]. *)
Definition thousand : Global :=
  {| balance := 1000; mu := false; wg := 1; out := [] |}.

(** What the race of Part 1 can leave behind. *)
Definition overdrawn : Global := fst after_both_pass.

(** [withdrawMutex(500, "atm")] called on a balance of 1000 that nothing
    else touches. *)
Definition after_mutex_alone : Global :=
  {| balance := 500; mu := false; wg := 0;
     out := [MutexAttempting "atm" 500; MutexAcquired "atm";
             MutexWithdrawing "atm" 500; MutexSuccessful "atm" 500 500] |}.

(** [testMutex] entered after the race has overdrawn [balance], the
    phone withdrawal first. *)
Definition after_overdrawn_phone_first : State :=
  (with_out (out overdrawn) (fst after_phone_first), snd after_phone_first).

(** *** A rejected withdrawal among other goroutines *)

(** What holds of a [withdrawMutex] that has found less than its amount
    in [balance]: up to its [mu.Unlock()] the balance is still the value
    [found]; from line 188 on the failure has been printed; it never is
    at lines 182 to 185. *)
Definition rejected (found a : Z) (src : string) (g : Global) (pc : MutexPC) : Prop :=
  match pc with
  | MCheck | MFail => balance g = found
  | MUnlock => balance g = found /\ In (MutexFailed src a) (out g)
  | MDone | MReturned => In (MutexFailed src a) (out g)
  | _ => False
  end.

(** The ATM withdrawal has returned, the phone withdrawal holds the
    mutex and is at line 181. *)
Definition atm_then_phone_checks : list nat :=
  [1; 1; 1; 1; 1; 1; 1; 1; 1; 1; 1; 0; 0; 0]%nat.

Definition phone_at_check : State :=
  ({| balance := 500; mu := true; wg := 1;
      out := [MutexAttempting "atm transaction" 500;
              MutexAcquired "atm transaction";
              MutexWithdrawing "atm transaction" 500;
              MutexSuccessful "atm transaction" 500 500;
              MutexAttempting "phone transaction" 700;
              MutexAcquired "phone transaction"] |},
   [WithdrawMutex 700 "phone transaction" MCheck;
    WithdrawMutex 500 "atm transaction" MReturned]).

(** The ATM withdrawal holds the mutex and is about to write. *)
Definition atm_at_store : State :=
  ({| balance := 1000; mu := true; wg := 2;
      out := [MutexAttempting "atm transaction" 500;
              MutexAcquired "atm transaction";
              MutexWithdrawing "atm transaction" 500] |},
   [WithdrawMutex 700 "phone transaction" MAttempt;
    WithdrawMutex 500 "atm transaction" (MStore 1000)]).

(** *** All outcomes of the race of Part 1 *)

Definition testRaceCondition_states : list State :=
  explore 2000 [testRaceCondition] [].

(** Once both goroutines have returned the balance is 300, 500 or -200. *)
Definition race_check (s : State) : bool :=
  if forallb returned (snd s)
  then (balance (fst s) =? 300) || (balance (fst s) =? 500) ||
       (balance (fst s) =? -200)
  else true.

(** *** Search without the output and the labels *)

(** What a goroutine does next depends neither on its [source] argument
    nor on what has been printed: both only go to the output.  A state
    without them: *)
Definition erase_thread (t : Thread) : Thread :=
  match t with
  | WithdrawRace a _ pc => WithdrawRace a "" pc
  | WithdrawMutex a _ pc => WithdrawMutex a "" pc
  | Deposit a _ pc => Deposit a "" pc
  end.

Definition erase_global (g : Global) : Global :=
  {| balance := balance g; mu := mu g; wg := wg g; out := [] |}.

Definition erase (s : State) : State :=
  (erase_global (fst s), map erase_thread (snd s)).

Definition successors_erased (s : State) : list State :=
  map erase (successors s).

Fixpoint explore_erased (fuel : nat) (todo seen : list State) : list State :=
  match fuel with
  | O => seen
  | S fuel' =>
      match todo with
      | [] => seen
      | s :: todo' =>
          if mem s seen then explore_erased fuel' todo' seen
          else explore_erased fuel' (successors_erased s ++ todo') (s :: seen)
      end
  end.

Definition closed_erased (seen : list State) : bool :=
  forallb (fun s => forallb (fun s' => mem s' seen) (successors_erased s)) seen.

(** *** The second part of [testMutex] (lines 229-233) *)

(** The state after [wg.Add(3)] and the three [go] statements, entered
    with the variables as the first part left them: [balance] is not
    assigned again and the WaitGroup is the same. *)
Definition testMutex_bonus (g : Global) : State :=
  ({| balance := balance g; mu := mu g; wg := wg g + 3; out := out g |},
   [WithdrawMutex 400 "online purchase" MAttempt;
    Deposit 1000 "salary deposit" DAnnounce;
    Deposit 200 "refund" DAnnounce]).

(** The balances the first part of [testMutex] can leave. *)
Definition left_300 : Global := {| balance := 300; mu := false; wg := 0; out := [] |}.



(** *** Pairs of withdrawals of 700 and 500 with any labels *)




(** Two [withdrawRace] of 700 and 500 on 1000 (lines 48-49 and
    250-251). *)
Definition pair_race (src1 src2 : string) (earlier : list Msg) : State :=
  ({| balance := 1000; mu := false; wg := 0; out := earlier |},
   [WithdrawRace 700 src1 RaceCheck; WithdrawRace 500 src2 RaceCheck]).

Definition pair_race_states : list State :=
  explore_erased 2000 [erase (pair_race "" "" [])] [].

(** Checked on the states of the race: once both goroutines have
    returned the balance is 300, 500 or -200. *)
Definition returned_check (finals : list Z) (s : State) : bool :=
  if forallb returned (snd s)
  then existsb (Z.eqb (balance (fst s))) finals
  else true.

(** A goroutine at its [mu.Lock()] (lines 177 and 199). *)
Definition at_lock (t : Thread) : bool :=
  match t with
  | WithdrawMutex _ _ MLock => true
  | Deposit _ _ DLock => true
  | _ => false
  end.

(** Checked on the states of the race: the balance is one of
    [values]. *)
Definition balance_check (values : list Z) (s : State) : bool :=
  existsb (Z.eqb (balance (fst s))) values.

(** *** Deposits and withdrawals reported *)

(** A deposit written and not yet reported. *)
Definition deposit_unreported (t : Thread) : Z :=
  match t with
  | Deposit a _ DReport => a
  | _ => 0
  end.

(** The amount of a [withdrawMutex] that has neither been rejected nor
    reported yet. *)
Definition unwithdrawn (t : Thread) : Z :=
  match t with
  | WithdrawMutex a _ pc =>
      match pc with
      | MFail | MUnlock | MDone | MReturned => 0
      | _ => a
      end
  | _ => 0
  end.

(** The amount a [withdrawMutex] goroutine asks for. *)
Definition withdrawal_amount (t : Thread) : Z :=
  match t with
  | WithdrawMutex a _ _ => a
  | _ => 0
  end.

(** *** Particular executions of the second part and of the loop *)

(** The goroutines of lines 230-232. *)
Definition bonus_pool : list Thread := snd (testMutex_bonus left_300).

(** Both deposits first, then the withdrawal. *)
Definition deposits_first : list nat :=
  [1; 1; 1; 1; 1; 1; 1; 1; 1;
   2; 2; 2; 2; 2; 2; 2; 2; 2;
   0; 0; 0; 0; 0; 0; 0; 0; 0; 0; 0]%nat.

Definition after_deposits_first : State :=
  ({| balance := 1100; mu := false; wg := 0;
      out := [DepositDepositing "salary deposit" 1000;
              DepositAcquired "salary deposit";
              DepositSuccessful "salary deposit" 1000 1300;
              DepositDepositing "refund" 200;
              DepositAcquired "refund";
              DepositSuccessful "refund" 200 1500;
              MutexAttempting "online purchase" 400;
              MutexAcquired "online purchase";
              MutexWithdrawing "online purchase" 400;
              MutexSuccessful "online purchase" 400 1100] |},
   [WithdrawMutex 400 "online purchase" MReturned;
    Deposit 1000 "salary deposit" DReturned;
    Deposit 200 "refund" DReturned]).



(** *** Goroutines left over from an earlier scenario *)

(** [testMutex] entered while goroutines of earlier scenarios still
    exist: lines 48-51 and 250-252 start [withdrawRace] goroutines and
    sleep; nothing waits for them to return. *)
Definition testMutex_entered (prev : Global) (leftover : list Thread) : State :=
  ({| balance := 1000; mu := mu prev; wg := 2; out := out prev |},
   [WithdrawMutex 700 "phone transaction" MAttempt;
    WithdrawMutex 500 "atm transaction" MAttempt] ++ leftover).

(** The ATM withdrawal of [testRaceCondition], past line 31 and still in
    the sleep of line 33. *)
Definition straggler : list Thread :=
  [WithdrawRace 500 "atm transaction" RaceSleep].

(** The phone withdrawal of [testMutex], then the straggler, then the
    ATM withdrawal of [testMutex]. *)
Definition straggler_between : list nat :=
  [0; 0; 0; 0; 0; 0; 0; 0; 0; 0; 0; 2; 2; 2; 2; 1; 1; 1; 1; 1; 1; 1]%nat.

Definition after_straggler : State :=
  ({| balance := -200; mu := false; wg := 0;
      out := [MutexAttempting "phone transaction" 700;
              MutexAcquired "phone transaction";
              MutexWithdrawing "phone transaction" 700;
              MutexSuccessful "phone transaction" 700 300;
              RaceSuccessful "atm transaction" 500 (-200);
              MutexAttempting "atm transaction" 500;
              MutexAcquired "atm transaction";
              MutexFailed "atm transaction" 500] |},
   [WithdrawMutex 700 "phone transaction" MReturned;
    WithdrawMutex 500 "atm transaction" MReturned;
    WithdrawRace 500 "atm transaction" RaceReturned]).

(** [testMutex] entered after the race has overdrawn [balance] and both
    its goroutines have returned, the phone withdrawal first. *)
Definition after_entered_phone_first : State :=
  (fst after_overdrawn_phone_first,
   snd after_overdrawn_phone_first ++ snd after_both_pass).

(** *** The lost update of Part 1 *)

(** Both goroutines evaluate line 31 and both read [balance] at line 34
    before either writes it. *)
Definition lost_update : list nat :=
  [0; 1; 0; 0; 0; 1; 1; 1; 0; 1; 0; 1]%nat.

Definition after_lost_update : State :=
  ({| balance := 500; mu := false; wg := 0;
      out := [RaceWithdrawing "phone transaction" 700;
              RaceWithdrawing "atm transaction" 500;
              RaceSuccessful "phone transaction" 700 500;
              RaceSuccessful "atm transaction" 500 500] |},
   [WithdrawRace 700 "phone transaction" RaceReturned;
    WithdrawRace 500 "atm transaction" RaceReturned]).

End Pool.

(** ** Part 2: the channel of [testChannelBased] (lines 94-167)

    [make(chan Transaction)] makes a channel without buffer: a send
    completes only together with a receive.  The producers are the four
    goroutines of lines 115-153, the worker is the goroutine of line 112
    and the main goroutine closes the channel at line 159. *)

Module Channel.

(** A goroutine [func() { time.Sleep(..); txChan <- tx }()]. *)
Inductive Producer : Set :=
  | Sleeping (tx : Transaction)   (* in time.Sleep, before the send *)
  | Sending (tx : Transaction)    (* at [txChan <- tx] *)
  | Sent.                         (* returned *)

(** Control points of the loop body of [transactionProcessor] (lines
    64-90): the statement the worker executes next.  The worker is the
    only goroutine that writes the ledger, so [ledger.X -= a] is one
    step; the debit and the credit are two statements and two steps. *)
Inductive BodyPC : Set :=
  | BAnnounce          (* 65-71: one of the two announcing lines *)
  | BSleep             (* 73 *)
  | BType              (* 76 and 85: the comparisons of tx.Type *)
  | BCheck             (* 77: if ledger.CustomerBalance >= tx.Amount *)
  | BDebit             (* 78 *)
  | BCredit            (* 79 *)
  | BComplete          (* 80 *)
  | BFail              (* 83 *)
  | BDepositCredit     (* 86 *)
  | BDepositDebit      (* 87 *)
  | BDepositComplete.  (* 88 *)

(** The goroutine running [transactionProcessor]. *)
Inductive Worker : Set :=
  | Receiving                                   (* at [range txChan] *)
  | Processing (tx : Transaction) (pc : BodyPC) (* in the loop body *)
  | Exited.                                     (* the loop has ended *)

Record State : Set := mkState {
  ledger    : Ledger;             (* the local variable of line 100 *)
  closed    : bool;               (* close(txChan) has been executed *)
  worker    : Worker;
  producers : list Producer;
  out       : list Msg;           (* lines printed by the worker *)
  delivered : list Transaction;   (* history: values received, oldest first *)
  crashed   : bool                (* the runtime has stopped the program *)
}.

(** What can happen next. *)
Inductive Event : Set :=
  | Wake (i : nat)           (* producer [i] leaves time.Sleep *)
  | Send (i : nat)           (* the send of producer [i] meets the receive *)
  | Work                     (* the worker executes one statement of the body *)
  | Close                    (* line 159 *)
  | Exit                     (* the worker sees the closed channel *)
  | SendOnClosed (i : nat).  (* a send on the closed channel panics *)

Definition set_producer (s : State) (i : nat) (p : Producer) : State :=
  {| ledger := ledger s; closed := closed s; worker := worker s;
     producers := set_nth i p (producers s); out := out s;
     delivered := delivered s; crashed := crashed s |}.

(** The line of lines 65-71. *)
Definition announcement (tx : Transaction) : Msg :=
  if String.eqb (Type_ tx) "deposit"
  then ProcessingDeposit (Source tx) (Amount tx) (CustomerID tx)
  else ProcessingWithdrawal (Source tx) (Amount tx) (CustomerID tx).

(** One statement of the loop body: the ledger after it, what it prints
    and the statement that follows, [None] at the end of the body. *)
Definition step_body (l : Ledger) (tx : Transaction) (pc : BodyPC)
  : Ledger * list Msg * option BodyPC :=
  match pc with
  | BAnnounce => (l, [announcement tx], Some BSleep)
  | BSleep => (l, [], Some BType)
  | BType =>
      if String.eqb (Type_ tx) "withdrawal" then (l, [], Some BCheck)
      else if String.eqb (Type_ tx) "deposit" then (l, [], Some BDepositCredit)
      else (l, [], None)
  | BCheck =>
      if CustomerBalance l >=? Amount tx then (l, [], Some BDebit)
      else (l, [], Some BFail)
  | BDebit =>
      ({| CustomerBalance := sub (CustomerBalance l) (Amount tx);
          BankBalance := BankBalance l |}, [], Some BCredit)
  | BCredit =>
      ({| CustomerBalance := CustomerBalance l;
          BankBalance := add (BankBalance l) (Amount tx) |}, [], Some BComplete)
  | BComplete =>
      (l, [WithdrawalComplete (CustomerBalance l) (BankBalance l)], None)
  | BFail => (l, [WithdrawalFailed (CustomerID tx)], None)
  | BDepositCredit =>
      ({| CustomerBalance := add (CustomerBalance l) (Amount tx);
          BankBalance := BankBalance l |}, [], Some BDepositDebit)
  | BDepositDebit =>
      ({| CustomerBalance := CustomerBalance l;
          BankBalance := sub (BankBalance l) (Amount tx) |},
       [], Some BDepositComplete)
  | BDepositComplete =>
      (l, [DepositComplete (CustomerBalance l) (BankBalance l)], None)
  end.

(** Where the worker is after a statement. *)
Definition next_worker (tx : Transaction) (next : option BodyPC) : Worker :=
  match next with
  | Some pc => Processing tx pc
  | None => Receiving
  end.

(** The effect of an event, [None] when it cannot happen in [s]. *)
Definition fire (e : Event) (s : State) : option State :=
  if crashed s then None else
  match e with
  | Wake i =>
      match nth_error (producers s) i with
      | Some (Sleeping tx) => Some (set_producer s i (Sending tx))
      | _ => None
      end
  | Send i =>
      match nth_error (producers s) i, worker s, closed s with
      | Some (Sending tx), Receiving, false =>
          Some {| ledger := ledger s; closed := false;
                  worker := Processing tx BAnnounce;
                  producers := set_nth i Sent (producers s);
                  out := out s;
                  delivered := delivered s ++ [tx];
                  crashed := false |}
      | _, _, _ => None
      end
  | Work =>
      match worker s with
      | Processing tx pc =>
          let '(ledger', printed, next) := step_body (ledger s) tx pc in
          Some {| ledger := ledger'; closed := closed s;
                  worker := next_worker tx next;
                  producers := producers s;
                  out := out s ++ printed;
                  delivered := delivered s;
                  crashed := false |}
      | _ => None
      end
  | Close =>
      if closed s then None   (* close of a closed channel: not in the source *)
      else Some {| ledger := ledger s; closed := true; worker := worker s;
                   producers := producers s; out := out s;
                   delivered := delivered s; crashed := false |}
  | Exit =>
      match worker s, closed s with
      | Receiving, true =>
          Some {| ledger := ledger s; closed := true; worker := Exited;
                  producers := producers s; out := out s;
                  delivered := delivered s; crashed := false |}
      | _, _ => None
      end
  | SendOnClosed i =>
      match nth_error (producers s) i, closed s with
      | Some (Sending tx), true =>
          Some {| ledger := ledger s; closed := true; worker := worker s;
                  producers := producers s; out := out s;
                  delivered := delivered s; crashed := true |}
      | _, _ => None
      end
  end.

(** A schedule: the events in the order they happen. *)
Fixpoint run (es : list Event) (s : State) : option State :=
  match es with
  | [] => Some s
  | e :: es' =>
      match fire e s with
      | Some s' => run es' s'
      | None => None
      end
  end.

Definition reachable (s0 s : State) : Prop := exists es, run es s0 = Some s.

(** The state of [testChannelBased] after line 153: the ledger of line
    100, the open channel, the worker at its receive and the four
    producers, of which the last two sleep first (lines 135 and 146). *)
Definition testChannelBased : State :=
  {| ledger := Serial.initial_ledger;
     closed := false;
     worker := Receiving;
     producers := [Sending Serial.tx_phone; Sending Serial.tx_atm;
                   Sleeping Serial.tx_online; Sleeping Serial.tx_salary];
     out := [];
     delivered := [];
     crashed := false |}.

(** The transaction a producer has still to hand over. *)
Definition pending (p : Producer) : list Transaction :=
  match p with
  | Sleeping tx | Sending tx => [tx]
  | Sent => []
  end.

(** *** The loop body, statement by statement *)

(** The statements of the body from [pc] to its end. *)
Fixpoint body_from (fuel : nat) (l : Ledger) (tx : Transaction) (pc : BodyPC)
  : Ledger * list Msg :=
  match fuel with
  | O => (l, [])
  | S fuel' =>
      let '(l', printed, next) := step_body l tx pc in
      match next with
      | None => (l', printed)
      | Some pc' =>
          let '(l'', printed') := body_from fuel' l' tx pc' in
          (l'', printed ++ printed')
      end
  end.

(** The whole body: no path through it has more than seven
    statements. *)
Definition body (l : Ledger) (tx : Transaction) : Ledger * list Msg :=
  body_from 7 l tx BAnnounce.

(** When the worker can be at [pc], the body having started on the
    ledger [l]. *)
Definition in_body (l : Ledger) (tx : Transaction) (pc : BodyPC) : bool :=
  match pc with
  | BAnnounce | BSleep | BType => true
  | BCheck => String.eqb (Type_ tx) "withdrawal"
  | BDebit | BCredit | BComplete =>
      String.eqb (Type_ tx) "withdrawal" && (CustomerBalance l >=? Amount tx)
  | BFail =>
      String.eqb (Type_ tx) "withdrawal" && negb (CustomerBalance l >=? Amount tx)
  | BDepositCredit | BDepositDebit | BDepositComplete =>
      negb (String.eqb (Type_ tx) "withdrawal") && String.eqb (Type_ tx) "deposit"
  end.

(** The ledger when the worker is at [pc], the body having started on
    [l]: between lines 78 and 79, and between lines 86 and 87, one side
    has been updated and the other has not. *)
Definition ledger_at (l : Ledger) (tx : Transaction) (pc : BodyPC) : Ledger :=
  match pc with
  | BCredit =>
      {| CustomerBalance := sub (CustomerBalance l) (Amount tx);
         BankBalance := BankBalance l |}
  | BComplete =>
      {| CustomerBalance := sub (CustomerBalance l) (Amount tx);
         BankBalance := add (BankBalance l) (Amount tx) |}
  | BDepositDebit =>
      {| CustomerBalance := add (CustomerBalance l) (Amount tx);
         BankBalance := BankBalance l |}
  | BDepositComplete =>
      {| CustomerBalance := add (CustomerBalance l) (Amount tx);
         BankBalance := sub (BankBalance l) (Amount tx) |}
  | _ => l
  end.

(** The lines of the body printed when the worker is at [pc]. *)
Definition printed_at (tx : Transaction) (pc : BodyPC) : list Msg :=
  match pc with
  | BAnnounce => []
  | _ => [announcement tx]
  end.

(** *** Invariants *)

(** The ledger and the output are those of [transactionProcessor] on the
    transactions delivered; when the last one delivered is in work, they
    are those of the transactions before it, advanced by the statements
    of the body already executed. *)
Definition serial (l0 : Ledger) (s : State) : Prop :=
  match worker s with
  | Processing tx pc =>
      exists done,
        delivered s = done ++ [tx] /\
        in_body (Serial.final l0 done) tx pc = true /\
        ledger s = ledger_at (Serial.final l0 done) tx pc /\
        out s = snd (Serial.transactionProcessor l0 done) ++ printed_at tx pc
  | _ => Serial.transactionProcessor l0 (delivered s) = (ledger s, out s)
  end.

(** What has been taken from one side of the ledger and not yet given to
    the other: the amount of the withdrawal between lines 78 and 79,
    minus the amount of the deposit between lines 86 and 87. *)
Definition in_flight (s : State) : Z :=
  match worker s with
  | Processing tx BCredit => Amount tx
  | Processing tx BDepositDebit => - Amount tx
  | _ => 0
  end.

(** The transactions not handed over yet. *)
Definition waiting (s : State) : list Transaction :=
  flat_map pending (producers s).

(** *** Schedules of [testChannelBased] *)

(** [n] statements of the worker. *)
Definition works (n : nat) : list Event := repeat Work n.

(** The sends complete in the order of the source. *)
Definition source_order : list Event :=
  ([Send 0] ++ works 7 ++ [Send 1] ++ works 5 ++
   [Wake 2; Send 2] ++ works 5 ++ [Wake 3; Send 3] ++ works 6 ++
   [Close; Exit])%nat.

(** The salary is deposited before the withdrawals arrive. *)
Definition salary_first : list Event :=
  ([Wake 3; Send 3] ++ works 6 ++ [Send 0] ++ works 7 ++
   [Send 1] ++ works 7 ++ [Wake 2; Send 2] ++ works 7 ++
   [Close; Exit])%nat.

(** The phone transfer has been handed over and is in work; the ATM
    withdrawal is at its send. *)
Definition phone_in_work : State :=
  {| ledger := Serial.initial_ledger;
     closed := false;
     worker := Processing Serial.tx_phone BAnnounce;
     producers := [Sent; Sending Serial.tx_atm;
                   Sleeping Serial.tx_online; Sleeping Serial.tx_salary];
     out := [];
     delivered := [Serial.tx_phone];
     crashed := false |}.

(** The phone transfer announced and nothing else done: the worker
    sleeps at line 73. *)
Definition phone_announced : State :=
  {| ledger := Serial.initial_ledger;
     closed := false;
     worker := Processing Serial.tx_phone BSleep;
     producers := [Sent; Sending Serial.tx_atm;
                   Sleeping Serial.tx_online; Sleeping Serial.tx_salary];
     out := [ProcessingWithdrawal "Phone Transfer" 700 "CUST1001"];
     delivered := [Serial.tx_phone];
     crashed := false |}.

(** The phone transfer between lines 78 and 79: the customer has been
    debited, the bank has not been credited. *)
Definition phone_debited : State :=
  {| ledger := {| CustomerBalance := 300; BankBalance := 5000 |};
     closed := false;
     worker := Processing Serial.tx_phone BCredit;
     producers := [Sent; Sending Serial.tx_atm;
                   Sleeping Serial.tx_online; Sleeping Serial.tx_salary];
     out := [ProcessingWithdrawal "Phone Transfer" 700 "CUST1001"];
     delivered := [Serial.tx_phone];
     crashed := false |}.

Definition after_source_order : State :=
  {| ledger := {| CustomerBalance := 1800; BankBalance := 4200 |};
     closed := true;
     worker := Exited;
     producers := [Sent; Sent; Sent; Sent];
     out := [ProcessingWithdrawal "Phone Transfer" 700 "CUST1001";
             WithdrawalComplete 300 5700;
             ProcessingWithdrawal "ATM Withdrawal" 500 "CUST1001";
             WithdrawalFailed "CUST1001";
             ProcessingWithdrawal "Online Purchase" 400 "CUST1001";
             WithdrawalFailed "CUST1001";
             ProcessingDeposit "Salary Deposit" 1500 "CUST1001";
             DepositComplete 1800 4200];
     delivered := Serial.submissions;
     crashed := false |}.

Definition after_salary_first : State :=
  {| ledger := {| CustomerBalance := 900; BankBalance := 5100 |};
     closed := true;
     worker := Exited;
     producers := [Sent; Sent; Sent; Sent];
     out := [ProcessingDeposit "Salary Deposit" 1500 "CUST1001";
             DepositComplete 2500 3500;
             ProcessingWithdrawal "Phone Transfer" 700 "CUST1001";
             WithdrawalComplete 1800 4200;
             ProcessingWithdrawal "ATM Withdrawal" 500 "CUST1001";
             WithdrawalComplete 1300 4700;
             ProcessingWithdrawal "Online Purchase" 400 "CUST1001";
             WithdrawalComplete 900 5100];
     delivered := Serial.salary_first;
     crashed := false |}.

(** *** Closing the channel *)

Definition is_sent (p : Producer) : bool :=
  match p with
  | Sent => true
  | _ => false
  end.

(** Every producer has completed its send. *)
Definition all_sent (s : State) : bool := forallb is_sent (producers s).

(** A schedule in which [close(txChan)] (line 159) happens only when
    every producer has completed its send, which is what the sleep of
    line 156 waits for. *)
Fixpoint timely (es : list Event) (s : State) : bool :=
  match es with
  | [] => true
  | e :: es' =>
      match e with
      | Close => all_sent s
      | _ => true
      end &&
      match fire e s with
      | Some s' => timely es' s'
      | None => true
      end
  end.

(** The channel is closed at once; the phone transfer is then sent. *)
Definition early_close : list Event := [Close; SendOnClosed 0]%nat.

(** No crash so far, and the channel is closed only with every send
    completed. *)
Definition orderly (s : State) : Prop :=
  crashed s = false /\ (closed s = true -> all_sent s = true).

(** The program stopped by the send of the phone transfer. *)
Definition crashed_early : State :=
  {| ledger := Serial.initial_ledger;
     closed := true;
     worker := Receiving;
     producers := [Sending Serial.tx_phone; Sending Serial.tx_atm;
                   Sleeping Serial.tx_online; Sleeping Serial.tx_salary];
     out := [];
     delivered := [];
     crashed := true |}.

End Channel.

(** * Properties *)

(** ** Machine integers *)

Module GoIntFacts.

Lemma wrap_in_range (z : Z) : in_range (wrap z).
Proof.
  unfold in_range, wrap, int_min, int_max.
  assert (H : 0 <= (z + half) mod modulus < modulus)
    by (apply Z.mod_pos_bound; reflexivity).
  unfold modulus, half in *. lia.
Qed.

Lemma wrap_id (z : Z) : in_range z -> wrap z = z.
Proof.
  unfold in_range, wrap, int_min, int_max. intros H.
  rewrite Z.mod_small; unfold modulus, half in *; lia.
Qed.

(** [wrap] only depends on the residue modulo [2^64]. *)
Lemma wrap_congr (a b : Z) :
  a mod modulus = b mod modulus -> wrap a = wrap b.
Proof.
  intros H. unfold wrap.
  rewrite (Z.add_mod a), (Z.add_mod b), H by (unfold modulus; lia).
  reflexivity.
Qed.

Lemma wrap_mod (z : Z) : wrap z mod modulus = z mod modulus.
Proof.
  unfold wrap.
  rewrite Zminus_mod, Z.mod_mod by (unfold modulus; lia).
  rewrite <- Zminus_mod. f_equal. lia.
Qed.

Lemma wrap_wrap (z : Z) : wrap (wrap z) = wrap z.
Proof. apply wrap_id, wrap_in_range. Qed.

Lemma wrap_add_l (a b : Z) : wrap (wrap a + b) = wrap (a + b).
Proof.
  apply wrap_congr.
  rewrite Z.add_mod, wrap_mod, <- Z.add_mod by (unfold modulus; lia).
  reflexivity.
Qed.

Lemma wrap_add_r (a b : Z) : wrap (a + wrap b) = wrap (a + b).
Proof. rewrite Z.add_comm, wrap_add_l. f_equal; lia. Qed.

Lemma wrap_sub_l (a b : Z) : wrap (wrap a - b) = wrap (a - b).
Proof.
  replace (wrap a - b) with (wrap a + - b) by lia.
  rewrite wrap_add_l. f_equal; lia.
Qed.

Lemma wrap_sub_r (a b : Z) : wrap (a - wrap b) = wrap (a - b).
Proof.
  apply wrap_congr.
  rewrite Zminus_mod, wrap_mod, <- Zminus_mod. reflexivity.
Qed.

Lemma in_range_bounds (z : Z) :
  in_range z <-> -9223372036854775808 <= z <= 9223372036854775807.
Proof. unfold in_range, int_min, int_max, half. lia. Qed.

(** A debit and the matching credit cancel in the machine sum. *)
Lemma transfer_cancels (c b a : Z) : add (sub c a) (add b a) = add c b.
Proof.
  unfold add, sub. rewrite wrap_add_l, wrap_add_r. f_equal; lia.
Qed.

Lemma transfer_cancels' (c b a : Z) : add (add c a) (sub b a) = add c b.
Proof.
  unfold add, sub. rewrite wrap_add_l, wrap_add_r. f_equal; lia.
Qed.

End GoIntFacts.

Import GoIntFacts.

(** ** Lists *)

Module ListFacts.

Lemma set_nth_split {A : Type} (l : list A) :
  forall (i : nat) (x y : A),
    nth_error l i = Some x ->
    exists before after,
      l = before ++ x :: after /\ set_nth i y l = before ++ y :: after.
Proof.
  induction l as [|z l IH]; intros i x y H.
  - destruct i; discriminate.
  - destruct i as [|i]; simpl in H.
    + injection H as ->. exists [], l. split; reflexivity.
    + destruct (IH i x y H) as (before & after & E1 & E2).
      exists (z :: before), after. simpl. rewrite <- E1, E2. split; reflexivity.
Qed.

Lemma nth_error_set_nth_other {A : Type} (l : list A) :
  forall (i j : nat) (x : A), i <> j -> nth_error (set_nth j x l) i = nth_error l i.
Proof.
  induction l as [|y l IH]; intros i j x Hne.
  - destruct j; reflexivity.
  - destruct j as [|j], i as [|i]; simpl; try reflexivity; try congruence.
    apply IH. congruence.
Qed.

Lemma nth_error_set_nth_same {A : Type} (l : list A) :
  forall (i : nat) (x y : A),
    nth_error l i = Some x -> nth_error (set_nth i y l) i = Some y.
Proof.
  induction l as [|z l IH]; intros i x y H.
  - destruct i; discriminate.
  - destruct i as [|i]; simpl in *; [reflexivity | eapply IH; exact H].
Qed.

Lemma set_nth_middle {A : Type} (before after : list A) (x y : A) :
  nth_error (before ++ x :: after) (List.length before) = Some x /\
  set_nth (List.length before) y (before ++ x :: after) = before ++ y :: after.
Proof.
  induction before as [|z before [IH1 IH2]]; simpl.
  - split; reflexivity.
  - rewrite IH1, IH2. split; reflexivity.
Qed.

End ListFacts.

Import ListFacts.

(** ** The channel based processor *)

Module SerialFacts.
Import Serial.

Lemma process_total (ledger : Ledger) (tx : Transaction) :
  total (fst (process ledger tx)) = total ledger.
Proof.
  unfold process.
  destruct (String.eqb (Type_ tx) "withdrawal").
  - destruct (CustomerBalance ledger >=? Amount tx); simpl; trivial.
    apply transfer_cancels.
  - destruct (String.eqb (Type_ tx) "deposit"); simpl; trivial.
    apply transfer_cancels'.
Qed.

Lemma transactionProcessor_cons (ledger : Ledger) (tx : Transaction)
      (rest : list Transaction) :
  transactionProcessor ledger (tx :: rest) =
  (fst (transactionProcessor (fst (process ledger tx)) rest),
   snd (process ledger tx) ++ snd (transactionProcessor (fst (process ledger tx)) rest)).
Proof.
  simpl. destruct (process ledger tx) as [l1 o1]. simpl.
  destruct (transactionProcessor l1 rest) as [l2 o2]. reflexivity.
Qed.

Lemma final_cons (ledger : Ledger) (tx : Transaction) (rest : list Transaction) :
  final ledger (tx :: rest) = final (fst (process ledger tx)) rest.
Proof. unfold final. rewrite transactionProcessor_cons. reflexivity. Qed.

Lemma final_total (txs : list Transaction) :
  forall ledger, total (final ledger txs) = total ledger.
Proof.
  induction txs as [|tx rest IH]; intros ledger.
  - reflexivity.
  - rewrite final_cons, IH. apply process_total.
Qed.

(** When neither sum overflows the totals are equal as integers. *)
Lemma final_total_exact (ledger : Ledger) (txs : list Transaction) :
  in_range (CustomerBalance ledger + BankBalance ledger) ->
  in_range (CustomerBalance (final ledger txs) + BankBalance (final ledger txs)) ->
  CustomerBalance (final ledger txs) + BankBalance (final ledger txs) =
  CustomerBalance ledger + BankBalance ledger.
Proof.
  intros H0 H1. pose proof (final_total txs ledger) as H.
  unfold total, add in H. rewrite !wrap_id in H by assumption. exact H.
Qed.

(** A withdrawal of more than the customer has is rejected. *)
Lemma process_rejects (ledger : Ledger) (tx : Transaction) :
  Type_ tx = "withdrawal" ->
  CustomerBalance ledger < Amount tx ->
  process ledger tx =
  (ledger, [ProcessingWithdrawal (Source tx) (Amount tx) (CustomerID tx);
            WithdrawalFailed (CustomerID tx)]).
Proof.
  intros Hty Hlt. unfold process. rewrite Hty. simpl.
  destruct (CustomerBalance ledger >=? Amount tx) eqn:E; [lia | reflexivity].
Qed.

(** A deposit is applied whatever the balances are. *)
Lemma process_deposit (ledger : Ledger) (tx : Transaction) :
  Type_ tx = "deposit" ->
  process ledger tx =
  ({| CustomerBalance := add (CustomerBalance ledger) (Amount tx);
      BankBalance     := sub (BankBalance ledger) (Amount tx) |},
   [ProcessingDeposit (Source tx) (Amount tx) (CustomerID tx);
    DepositComplete (add (CustomerBalance ledger) (Amount tx))
                    (sub (BankBalance ledger) (Amount tx))]).
Proof. intros Hty. unfold process. rewrite Hty. reflexivity. Qed.

(** *** The customer's balance stays non-negative without overflow *)

Lemma deposited_nonneg (txs : list Transaction) :
  Forall (fun tx => 0 < Amount tx) txs -> 0 <= deposited txs.
Proof.
  induction 1 as [|tx rest Hpos _ IH]; simpl; [lia|].
  destruct (is_deposit tx); lia.
Qed.

Lemma process_customer_bounds (ledger : Ledger) (tx : Transaction) :
  0 <= CustomerBalance ledger ->
  0 < Amount tx ->
  CustomerBalance ledger + (if is_deposit tx then Amount tx else 0) <= int_max ->
  0 <= CustomerBalance (fst (process ledger tx)) <=
  CustomerBalance ledger + (if is_deposit tx then Amount tx else 0).
Proof.
  intros Hc Ha Hmax. unfold process, is_deposit in *.
  destruct (String.eqb (Type_ tx) "withdrawal") eqn:Ew.
  - apply String.eqb_eq in Ew.
    destruct (CustomerBalance ledger >=? Amount tx) eqn:E; simpl.
    + unfold sub. rewrite wrap_id.
      * destruct (String.eqb (Type_ tx) "deposit"); lia.
      * apply in_range_bounds. unfold int_max, half in Hmax.
        destruct (String.eqb (Type_ tx) "deposit"); lia.
    + destruct (String.eqb (Type_ tx) "deposit"); lia.
  - destruct (String.eqb (Type_ tx) "deposit"); simpl; [|lia].
    unfold add. rewrite wrap_id; [lia|].
    apply in_range_bounds. unfold int_max, half in Hmax. lia.
Qed.

Lemma final_customer_bounds (txs : list Transaction) :
  forall ledger,
    0 <= CustomerBalance ledger ->
    Forall (fun tx => 0 < Amount tx) txs ->
    CustomerBalance ledger + deposited txs <= int_max ->
    0 <= CustomerBalance (final ledger txs) <=
    CustomerBalance ledger + deposited txs.
Proof.
  induction txs as [|tx rest IH]; intros ledger Hc Hpos Hmax.
  - unfold final. simpl. lia.
  - inversion Hpos as [|? ? Ha Hrest]; subst. simpl in Hmax.
    pose proof (deposited_nonneg rest Hrest) as Hd.
    destruct (process_customer_bounds ledger tx Hc Ha) as [Hlo Hhi]; [lia|].
    rewrite final_cons.
    destruct (IH (fst (process ledger tx)) Hlo Hrest) as [Hlo' Hhi']; [lia|].
    simpl. lia.
Qed.

Lemma deposited_firstn (n : nat) (txs : list Transaction) :
  Forall (fun tx => 0 < Amount tx) txs ->
  deposited (firstn n txs) <= deposited txs.
Proof.
  revert n. induction txs as [|tx rest IH]; intros n Hpos.
  - destruct n; simpl; lia.
  - inversion Hpos as [|? ? Ha Hrest]; subst.
    destruct n; simpl.
    + pose proof (deposited_nonneg rest Hrest). destruct (is_deposit tx); lia.
    + specialize (IH n Hrest). lia.
Qed.

Lemma Forall_firstn {A : Type} (P : A -> Prop) (n : nat) (l : list A) :
  Forall P l -> Forall P (firstn n l).
Proof.
  revert n. induction l as [|x l IH]; intros n H.
  - destruct n; constructor.
  - inversion H; subst. destruct n; simpl; constructor; auto.
Qed.

(** *** Sequences of which every transaction is committed *)

Lemma commits_app (o1 o2 : list Msg) :
  commits (o1 ++ o2) = (commits o1 + commits o2)%nat.
Proof. unfold commits. rewrite filter_app, length_app. reflexivity. Qed.

Lemma rejections_app (o1 o2 : list Msg) :
  rejections (o1 ++ o2) = (rejections o1 + rejections o2)%nat.
Proof. unfold rejections. rewrite filter_app, length_app. reflexivity. Qed.

Lemma process_commits_le (ledger : Ledger) (tx : Transaction) :
  (commits (snd (process ledger tx)) <= 1)%nat.
Proof.
  unfold process.
  destruct (String.eqb (Type_ tx) "withdrawal");
    destruct (String.eqb (Type_ tx) "deposit");
    destruct (CustomerBalance ledger >=? Amount tx); simpl; auto.
Qed.

Lemma commits_le_length (txs : list Transaction) :
  forall ledger,
    (commits (snd (transactionProcessor ledger txs)) <= List.length txs)%nat.
Proof.
  induction txs as [|tx rest IH]; intros ledger.
  - simpl. auto.
  - rewrite transactionProcessor_cons. simpl snd. rewrite commits_app.
    pose proof (process_commits_le ledger tx).
    specialize (IH (fst (process ledger tx))). simpl. lia.
Qed.

(** A committed transaction moves its amount from one side to the
    other. *)
Lemma process_committed (ledger : Ledger) (tx : Transaction) :
  commits (snd (process ledger tx)) = 1%nat ->
  fst (process ledger tx) =
  {| CustomerBalance := wrap (CustomerBalance ledger + net [tx]);
     BankBalance     := wrap (BankBalance ledger - net [tx]) |}.
Proof.
  unfold process. simpl. unfold is_withdrawal, is_deposit.
  destruct (String.eqb (Type_ tx) "withdrawal") eqn:Ew.
  - destruct (CustomerBalance ledger >=? Amount tx); simpl.
    + intros _. unfold sub, add. f_equal; f_equal; lia.
    + destruct (String.eqb (Type_ tx) "deposit"); discriminate.
  - destruct (String.eqb (Type_ tx) "deposit"); simpl.
    + intros _. unfold sub, add. f_equal; f_equal; lia.
    + discriminate.
Qed.

Lemma process_in_range (ledger : Ledger) (tx : Transaction) :
  in_range (CustomerBalance ledger) -> in_range (BankBalance ledger) ->
  in_range (CustomerBalance (fst (process ledger tx))) /\
  in_range (BankBalance (fst (process ledger tx))).
Proof.
  intros Hc Hb. unfold process.
  destruct (String.eqb (Type_ tx) "withdrawal");
    destruct (String.eqb (Type_ tx) "deposit");
    destruct (CustomerBalance ledger >=? Amount tx); simpl;
      unfold add, sub; auto using wrap_in_range.
Qed.

Lemma all_committed (txs : list Transaction) :
  forall ledger,
    in_range (CustomerBalance ledger) -> in_range (BankBalance ledger) ->
    commits (snd (transactionProcessor ledger txs)) = List.length txs ->
    final ledger txs =
    {| CustomerBalance := wrap (CustomerBalance ledger + net txs);
       BankBalance     := wrap (BankBalance ledger - net txs) |}.
Proof.
  induction txs as [|tx rest IH]; intros ledger Hc Hb Hall.
  - unfold final. simpl. rewrite Z.add_0_r, Z.sub_0_r, !wrap_id by assumption.
    destruct ledger; reflexivity.
  - rewrite transactionProcessor_cons in Hall. simpl snd in Hall.
    rewrite commits_app in Hall. simpl List.length in Hall.
    pose proof (process_commits_le ledger tx) as H1.
    pose proof (commits_le_length rest (fst (process ledger tx))) as H2.
    assert (Htx : commits (snd (process ledger tx)) = 1%nat) by lia.
    assert (Hrest : commits (snd (transactionProcessor (fst (process ledger tx)) rest))
                    = List.length rest) by lia.
    destruct (process_in_range ledger tx Hc Hb) as [Hc' Hb'].
    rewrite final_cons, (IH _ Hc' Hb' Hrest), (process_committed _ _ Htx).
    cbn [CustomerBalance BankBalance].
    rewrite wrap_add_l, wrap_sub_l.
    assert (Hnet : net (tx :: rest) = net [tx] + net rest) by (simpl; lia).
    rewrite Hnet, Z.add_assoc, Z.sub_add_distr. reflexivity.
Qed.

Lemma net_permutation (xs ys : list Transaction) :
  Permutation xs ys -> net xs = net ys.
Proof. induction 1; simpl; lia. Qed.

(** *** Deposits *)

Lemma deposit_not_withdrawal (tx : Transaction) :
  is_deposit tx = true -> is_withdrawal tx = false.
Proof.
  unfold is_deposit, is_withdrawal. intros H.
  apply String.eqb_eq in H. rewrite H. reflexivity.
Qed.

Lemma deposits_net (txs : list Transaction) :
  Forall (fun tx => is_deposit tx = true) txs -> net txs = deposited txs.
Proof.
  induction 1 as [|tx rest Hd _ IH]; simpl; [reflexivity|].
  rewrite (deposit_not_withdrawal tx Hd), Hd, IH. reflexivity.
Qed.

Lemma deposits_commit (txs : list Transaction) :
  Forall (fun tx => is_deposit tx = true) txs ->
  forall ledger,
    commits (snd (transactionProcessor ledger txs)) = List.length txs.
Proof.
  induction 1 as [|tx rest Hd _ IH]; intros ledger; [reflexivity|].
  rewrite transactionProcessor_cons. cbn [snd]. rewrite commits_app, IH.
  rewrite process_deposit by (apply String.eqb_eq, Hd). reflexivity.
Qed.

(** Deposits of more than the bank has leave its balance negative. *)
Lemma deposits_overdraw_bank (ledger : Ledger) (txs : list Transaction) :
  Forall (fun tx => is_deposit tx = true) txs ->
  in_range (CustomerBalance ledger) -> in_range (BankBalance ledger) ->
  in_range (BankBalance ledger - deposited txs) ->
  BankBalance ledger < deposited txs ->
  BankBalance (final ledger txs) < 0.
Proof.
  intros Hd Hc Hb Hr Hlt.
  rewrite all_committed by (auto using deposits_commit).
  cbn [BankBalance]. rewrite (deposits_net txs Hd), wrap_id by assumption. lia.
Qed.

(** A withdrawal is committed only if the customer has the amount. *)
Lemma committed_withdrawal_covered (ledger : Ledger) (tx : Transaction) :
  Type_ tx = "withdrawal" ->
  commits (snd (process ledger tx)) = 1%nat ->
  Amount tx <= CustomerBalance ledger.
Proof.
  intros Hty. unfold process. rewrite Hty. simpl.
  destruct (CustomerBalance ledger >=? Amount tx) eqn:E; [lia | discriminate].
Qed.

(** *** The four transactions of [testChannelBased] in any order *)

Lemma submissions_any_order (txs : list Transaction) :
  Permutation txs submissions ->
  total (final initial_ledger txs) = 6000 /\
  (commits (snd (transactionProcessor initial_ledger txs)) = 4%nat ->
   final initial_ledger txs = {| CustomerBalance := 900; BankBalance := 5100 |}).
Proof.
  intros Hperm. split.
  - rewrite final_total. reflexivity.
  - intros Hc. rewrite all_committed.
    + rewrite (net_permutation _ _ Hperm). reflexivity.
    + apply in_range_bounds. simpl. lia.
    + apply in_range_bounds. simpl. lia.
    + rewrite Hc, (Permutation_length Hperm). reflexivity.
Qed.

(** *** Transactions of an unknown type *)

Lemma process_unknown (ledger : Ledger) (tx : Transaction) :
  known tx = false ->
  process ledger tx =
  (ledger, [ProcessingWithdrawal (Source tx) (Amount tx) (CustomerID tx)]).
Proof.
  unfold known, is_withdrawal, is_deposit, process. intros H.
  apply orb_false_iff in H. destruct H as [Hw Hd]. rewrite Hw, Hd. reflexivity.
Qed.

Lemma final_known (txs : list Transaction) :
  forall ledger, final ledger (filter known txs) = final ledger txs.
Proof.
  induction txs as [|tx txs IH]; intros ledger; [reflexivity|].
  cbn [filter]. destruct (known tx) eqn:E.
  - rewrite !final_cons. apply IH.
  - rewrite final_cons, process_unknown by assumption. apply IH.
Qed.

Lemma commits_known (txs : list Transaction) :
  forall ledger,
    commits (snd (transactionProcessor ledger (filter known txs))) =
    commits (snd (transactionProcessor ledger txs)) /\
    rejections (snd (transactionProcessor ledger (filter known txs))) =
    rejections (snd (transactionProcessor ledger txs)).
Proof.
  induction txs as [|tx txs IH]; intros ledger; [split; reflexivity|].
  cbn [filter]. destruct (known tx) eqn:E.
  - rewrite !transactionProcessor_cons. cbn [snd].
    rewrite !commits_app, !rejections_app.
    destruct (IH (fst (process ledger tx))) as [H1 H2]. rewrite H1, H2.
    split; reflexivity.
  - rewrite (transactionProcessor_cons ledger tx). cbn [snd].
    rewrite commits_app, rejections_app, process_unknown by assumption.
    cbn [fst snd]. destruct (IH ledger) as [H1 H2]. rewrite H1, H2.
    split; reflexivity.
Qed.

(** *** Lines of the output *)

Lemma announces_app (o1 o2 : list Msg) :
  announces (o1 ++ o2) = (announces o1 + announces o2)%nat.
Proof. unfold announces. rewrite filter_app, length_app. reflexivity. Qed.

Lemma process_lines (ledger : Ledger) (tx : Transaction) :
  announces (snd (process ledger tx)) = 1%nat /\
  (commits (snd (process ledger tx)) + rejections (snd (process ledger tx)))%nat =
  (if known tx then 1 else 0)%nat /\
  List.length (snd (process ledger tx)) =
  (if known tx then 2 else 1)%nat.
Proof.
  unfold known, is_withdrawal, is_deposit, process.
  destruct (String.eqb (Type_ tx) "withdrawal");
    destruct (String.eqb (Type_ tx) "deposit");
    destruct (CustomerBalance ledger >=? Amount tx); repeat split.
Qed.

Lemma output_lines (txs : list Transaction) :
  forall ledger,
    announces (snd (transactionProcessor ledger txs)) = List.length txs /\
    (commits (snd (transactionProcessor ledger txs)) +
     rejections (snd (transactionProcessor ledger txs)))%nat =
    List.length (filter known txs) /\
    List.length (snd (transactionProcessor ledger txs)) =
    (List.length txs + List.length (filter known txs))%nat.
Proof.
  induction txs as [|tx txs IH]; intros ledger; [repeat split|].
  rewrite transactionProcessor_cons. cbn [snd filter].
  rewrite announces_app, commits_app, rejections_app, length_app.
  destruct (process_lines ledger tx) as (H1 & H2 & H3).
  destruct (IH (fst (process ledger tx))) as (I1 & I2 & I3).
  rewrite H1, H3, I1, I3.
  destruct (known tx); cbn [List.length]; repeat split; lia.
Qed.

(** *** Amounts are not checked *)

Lemma negative_withdrawal_credits (ledger : Ledger) (tx : Transaction) :
  Type_ tx = "withdrawal" ->
  Amount tx < 0 ->
  0 <= CustomerBalance ledger ->
  CustomerBalance ledger - Amount tx <= int_max ->
  commits (snd (process ledger tx)) = 1%nat /\
  CustomerBalance (fst (process ledger tx)) = CustomerBalance ledger - Amount tx /\
  CustomerBalance ledger < CustomerBalance (fst (process ledger tx)) /\
  fst (process ledger tx) = fst (process ledger (as_deposit (- Amount tx) tx)).
Proof.
  intros Hty Ha Hc Hmax. unfold process, as_deposit. rewrite Hty.
  cbn [Type_ Amount String.eqb Ascii.eqb Bool.eqb].
  destruct (CustomerBalance ledger >=? Amount tx) eqn:E; [|lia].
  cbn [fst snd CustomerBalance BankBalance].
  assert (Hs : sub (CustomerBalance ledger) (Amount tx) =
               CustomerBalance ledger - Amount tx).
  { unfold sub. apply wrap_id, in_range_bounds.
    unfold int_max, half in Hmax. lia. }
  split; [reflexivity|]. split; [exact Hs|]. split; [lia|].
  unfold add, sub.
  replace (CustomerBalance ledger + - Amount tx)
    with (CustomerBalance ledger - Amount tx) by lia.
  replace (BankBalance ledger - - Amount tx)
    with (BankBalance ledger + Amount tx) by lia.
  reflexivity.
Qed.

Lemma negative_deposit_overdraws (ledger : Ledger) (tx : Transaction) :
  Type_ tx = "deposit" ->
  int_min <= CustomerBalance ledger + Amount tx ->
  CustomerBalance ledger + Amount tx < 0 ->
  commits (snd (process ledger tx)) = 1%nat /\
  CustomerBalance (fst (process ledger tx)) = CustomerBalance ledger + Amount tx /\
  CustomerBalance (fst (process ledger tx)) < 0.
Proof.
  intros Hty Hlo Hneg. rewrite process_deposit by assumption.
  cbn [fst snd CustomerBalance].
  assert (Hs : add (CustomerBalance ledger) (Amount tx) =
               CustomerBalance ledger + Amount tx).
  { unfold add. apply wrap_id, in_range_bounds.
    unfold int_min, half in Hlo. lia. }
  rewrite Hs. repeat split; lia.
Qed.

(** *** The order does not matter when everything is committed *)

Lemma committed_any_order (ledger : Ledger) (xs ys : list Transaction) :
  in_range (CustomerBalance ledger) -> in_range (BankBalance ledger) ->
  Permutation xs ys ->
  commits (snd (transactionProcessor ledger xs)) = List.length xs ->
  commits (snd (transactionProcessor ledger ys)) = List.length ys ->
  final ledger xs = final ledger ys.
Proof.
  intros Hc Hb Hp Hx Hy.
  rewrite !all_committed by assumption.
  rewrite (net_permutation _ _ Hp). reflexivity.
Qed.

(** *** All orders of the four transactions *)

Lemma insert_everywhere_in (x : Transaction) (l1 l2 : list Transaction) :
  In (l1 ++ x :: l2) (insert_everywhere x (l1 ++ l2)).
Proof.
  induction l1 as [|y l1 IH]; cbn [app insert_everywhere].
  - destruct l2; left; reflexivity.
  - right. apply in_map. exact IH.
Qed.

Lemma orders_complete (l : list Transaction) :
  forall l', Permutation l l' -> In l' (orders l).
Proof.
  induction l as [|x l IH]; intros l' Hp.
  - apply Permutation_nil in Hp. subst. left. reflexivity.
  - assert (Hin : In x l') by (apply (Permutation_in x Hp); left; reflexivity).
    destruct (in_split x l' Hin) as (l1 & l2 & ->).
    apply Permutation_cons_app_inv in Hp.
    cbn [orders]. apply in_flat_map. exists (l1 ++ l2). split.
    + apply IH, Hp.
    + apply insert_everywhere_in.
Qed.

Lemma insert_everywhere_sound (x : Transaction) (l l' : list Transaction) :
  In l' (insert_everywhere x l) -> Permutation (x :: l) l'.
Proof.
  revert l'. induction l as [|y l IH]; intros l' Hin; cbn [insert_everywhere] in Hin.
  - destruct Hin as [<-|[]]. apply Permutation_refl.
  - destruct Hin as [<-|Hin]; [apply Permutation_refl|].
    apply in_map_iff in Hin. destruct Hin as (l0 & <- & Hin).
    apply Permutation_trans with (y :: x :: l); [apply perm_swap|].
    apply perm_skip, IH, Hin.
Qed.

Lemma orders_sound (l : list Transaction) :
  forall l', In l' (orders l) -> Permutation l l'.
Proof.
  induction l as [|x l IH]; intros l' Hin; cbn [orders] in Hin.
  - destruct Hin as [<-|[]]. apply Permutation_refl.
  - apply in_flat_map in Hin. destruct Hin as (l0 & H0 & Hin).
    apply Permutation_trans with (x :: l0); [apply perm_skip, IH, H0|].
    apply insert_everywhere_sound, Hin.
Qed.

Lemma ledger_eqb_eq (l1 l2 : Ledger) : ledger_eqb l1 l2 = true -> l1 = l2.
Proof.
  unfold ledger_eqb. intros H. apply andb_true_iff in H.
  destruct H as [H1 H2]. apply Z.eqb_eq in H1, H2.
  destruct l1, l2. simpl in *. subst. reflexivity.
Qed.

Lemma submissions_final_ledgers :
  (forall txs, Permutation txs submissions ->
               In (final initial_ledger txs) final_ledgers) /\
  (forall ledger, In ledger final_ledgers ->
                  exists txs, Permutation txs submissions /\
                              final initial_ledger txs = ledger).
Proof.
  split.
  - intros txs Hp. apply Permutation_sym, orders_complete in Hp.
    assert (H : forallb (fun txs =>
                  existsb (ledger_eqb (final initial_ledger txs)) final_ledgers)
                  (orders submissions) = true) by (vm_compute; reflexivity).
    rewrite forallb_forall in H. specialize (H txs Hp).
    apply existsb_exists in H. destruct H as (l & Hin & Heq).
    apply ledger_eqb_eq in Heq. rewrite Heq. exact Hin.
  - intros ledger Hin.
    assert (H : forallb (fun l =>
                  existsb (fun txs => ledger_eqb (final initial_ledger txs) l)
                          (orders submissions))
                  final_ledgers = true) by (vm_compute; reflexivity).
    rewrite forallb_forall in H. specialize (H ledger Hin).
    apply existsb_exists in H. destruct H as (txs & Ht & Heq).
    exists txs. split.
    + apply Permutation_sym, orders_sound, Ht.
    + apply ledger_eqb_eq, Heq.
Qed.

(** The ledger ends as 900 and 5100 exactly when all four transactions
    are committed. *)
Lemma all_commit_iff (txs : list Transaction) :
  Permutation txs submissions ->
  (commits (snd (transactionProcessor initial_ledger txs)) = 4%nat <->
   final initial_ledger txs = {| CustomerBalance := 900; BankBalance := 5100 |}).
Proof.
  intros Hp. split.
  - apply (submissions_any_order txs Hp).
  - apply Permutation_sym, orders_complete in Hp.
    assert (H : forallb (fun txs =>
                  implb (ledger_eqb (final initial_ledger txs)
                           {| CustomerBalance := 900; BankBalance := 5100 |})
                        (Nat.eqb (commits (snd (transactionProcessor
                                                  initial_ledger txs))) 4))
                  (orders submissions) = true) by (vm_compute; reflexivity).
    rewrite forallb_forall in H. specialize (H txs Hp).
    intros E. rewrite E in H. cbn in H. apply Nat.eqb_eq, H.
Qed.

(** A withdrawal of a negative amount on a non-negative balance always
    passes the comparison of line 77. *)
Lemma negative_withdrawal_commits (ledger : Ledger) (tx : Transaction) :
  Type_ tx = "withdrawal" ->
  Amount tx < 0 ->
  0 <= CustomerBalance ledger ->
  commits (snd (process ledger tx)) = 1%nat /\
  fst (process ledger tx) =
  {| CustomerBalance := sub (CustomerBalance ledger) (Amount tx);
     BankBalance := add (BankBalance ledger) (Amount tx) |}.
Proof.
  intros Hty Ha Hc. unfold process. rewrite Hty.
  cbn [String.eqb Ascii.eqb Bool.eqb].
  destruct (CustomerBalance ledger >=? Amount tx) eqn:E; [|lia].
  split; reflexivity.
Qed.

End SerialFacts.

(** ** Goroutines on the package level [balance] *)

Module PoolFacts.
Import Pool.

(** *** Executions *)

Lemma steps_trans (s1 s2 s3 : State) :
  steps s1 s2 -> steps s2 s3 -> steps s1 s3.
Proof.
  intros H12 H23. induction H23 as [|s2 s3 s4 _ IH Hstep]; [assumption|].
  eapply steps_snoc; [apply IH; assumption | exact Hstep].
Qed.

Lemma steps_one (s1 s2 : State) : step s1 s2 -> steps s1 s2.
Proof. intros H. eapply steps_snoc; [apply steps_refl | exact H]. Qed.

Lemma fire_step (i : nat) (s s' : State) : fire i s = Some s' -> step s s'.
Proof.
  unfold fire. destruct s as [g ts]. simpl.
  destruct (nth_error ts i) as [t|] eqn:Hnth; [|discriminate].
  destruct (tstep g t) as [[g' t']|] eqn:Hstep; [|discriminate].
  intros H. inversion H; subst; clear H.
  destruct (set_nth_split ts i t t' Hnth) as (before & after & E1 & E2).
  rewrite E2. rewrite E1 at 1. constructor. exact Hstep.
Qed.

(** A schedule that runs is an execution. *)
Lemma run_steps (schedule : list nat) :
  forall s s', run schedule s = Some s' -> steps s s'.
Proof.
  induction schedule as [|i rest IH]; intros s s' H; simpl in H.
  - inversion H; subst. apply steps_refl.
  - destruct (fire i s) as [s1|] eqn:Hfire; [|discriminate].
    eapply steps_trans; [apply steps_one, (fire_step i); exact Hfire|].
    apply IH. exact H.
Qed.

(** *** Exhaustive search *)

Lemma successors_from_complete (g g' : Global) (t t' : Thread)
      (a1 a2 : list Thread) :
  tstep g t = Some (g', t') ->
  forall before,
    In (g', (before ++ a1) ++ t' :: a2)
       (successors_from g before (a1 ++ t :: a2)).
Proof.
  intros Hstep. induction a1 as [|x a1 IH]; intros before; simpl.
  - rewrite Hstep, app_nil_r. left. reflexivity.
  - apply in_or_app. right.
    replace ((before ++ x :: a1) ++ t' :: a2)
      with (((before ++ [x]) ++ a1) ++ t' :: a2)
      by (rewrite <- !app_assoc; reflexivity).
    apply IH.
Qed.

Lemma successors_complete (s s' : State) : step s s' -> In s' (successors s).
Proof.
  intros H. destruct H as [g g' before after t t' Hstep].
  unfold successors. simpl.
  apply (successors_from_complete g g' t t' before after Hstep []).
Qed.

Lemma mem_In (s : State) (seen : list State) : mem s seen = true -> In s seen.
Proof.
  unfold mem. rewrite existsb_exists. intros (s' & Hin & Heq).
  destruct (State_eq_dec s s'); [subst; assumption | discriminate].
Qed.

(** A set of states that is closed under the successors and holds the
    first state holds every state of every execution. *)
Lemma closed_under_reach (seen : list State) (s0 : State) :
  closed_under seen = true ->
  In s0 seen ->
  forall s, steps s0 s -> In s seen.
Proof.
  intros Hclosed H0 s Hsteps.
  induction Hsteps as [|s1 s2 s3 _ IH Hstep]; [assumption|].
  unfold closed_under in Hclosed. rewrite forallb_forall in Hclosed.
  specialize (Hclosed s2 (IH H0)). rewrite forallb_forall in Hclosed.
  apply mem_In, Hclosed, successors_complete, Hstep.
Qed.

Lemma checked_reach (check : State -> bool) (seen : list State) (s0 : State) :
  closed_under seen = true ->
  In s0 seen ->
  forallb check seen = true ->
  forall s, steps s0 s -> check s = true.
Proof.
  intros Hclosed H0 Hcheck s Hsteps.
  rewrite forallb_forall in Hcheck.
  apply Hcheck, (closed_under_reach seen s0); assumption.
Qed.

(** *** Sums *)

Lemma sumZ_app (f : Thread -> Z) (xs ys : list Thread) :
  sumZ f (xs ++ ys) = sumZ f xs + sumZ f ys.
Proof. induction xs as [|x xs IH]; simpl; [reflexivity | rewrite IH; lia]. Qed.

Lemma sumZ_cons (f : Thread -> Z) (x : Thread) (xs : list Thread) :
  sumZ f (x :: xs) = f x + sumZ f xs.
Proof. reflexivity. Qed.

Lemma committed_deposits_app (o1 o2 : list Msg) :
  committed_deposits (o1 ++ o2) = committed_deposits o1 + committed_deposits o2.
Proof. induction o1 as [|m o1 IH]; simpl; [reflexivity | rewrite IH; lia]. Qed.

Lemma committed_withdrawals_app (o1 o2 : list Msg) :
  committed_withdrawals (o1 ++ o2) =
  committed_withdrawals o1 + committed_withdrawals o2.
Proof. induction o1 as [|m o1 IH]; simpl; [reflexivity | rewrite IH; lia]. Qed.

Lemma holders_nonneg (ts : list Thread) : 0 <= holders ts.
Proof.
  unfold holders. induction ts as [|t ts IH]; simpl; [lia|].
  destruct (holds t); lia.
Qed.

Lemma holders_zero (ts : list Thread) :
  holders ts = 0 -> Forall (fun t => holds t = false) ts.
Proof.
  unfold holders. induction ts as [|t ts IH]; simpl; intros H; [constructor|].
  pose proof (holders_nonneg ts) as Hn. unfold holders in Hn.
  destruct (holds t) eqn:E; [lia|]. constructor; [assumption | apply IH; lia].
Qed.

(** *** The invariant is kept by every step *)

Lemma data_ok_balance (g g' : Global) (t : Thread) :
  balance g' = balance g -> data_ok g t -> data_ok g' t.
Proof.
  intros E. destruct t as [a src pc|a src pc|a src pc]; destruct pc; simpl;
    rewrite ?E; trivial.
Qed.

Lemma data_ok_outside (g : Global) (t : Thread) :
  holds t = false -> data_ok g t.
Proof.
  destruct t as [a src pc|a src pc|a src pc]; destruct pc; simpl;
    trivial; discriminate.
Qed.

Lemma data_ok_others (g g' : Global) (ts : list Thread) :
  balance g' = balance g \/ holders ts = 0 ->
  Forall (data_ok g) ts -> Forall (data_ok g') ts.
Proof.
  intros [E|Hz] H.
  - eapply Forall_impl; [|exact H]. intros t. apply data_ok_balance, E.
  - eapply Forall_impl; [|apply holders_zero, Hz].
    intros t. apply data_ok_outside.
Qed.

Lemma sub_wrap (x y a : Z) : x - a = y -> sub (wrap x) a = wrap y.
Proof. intros <-. apply wrap_sub_l. Qed.

Lemma add_wrap (x y a : Z) : x + a = y -> add (wrap x) a = wrap y.
Proof. intros <-. apply wrap_add_l. Qed.


(** The cases of a step [H : tstep g t = Some (g', t')] once the control
    point of [t] is known. *)
Ltac step_cases H :=
  cbn [tstep step_race step_mutex step_deposit option_map] in H;
  unfold lock, unlock, done in H;
  repeat match type of H with
         | context [if ?c then _ else _] =>
             destruct c eqn:?; cbn [option_map] in H
         end;
  try discriminate H;
  injection H as <- <-.

Ltac unfold_state :=
  cbn [balance mu wg out print set_mu set_balance set_wg holds guarded
       returned unreported undeposited amount_of data_ok negb andb] in *.

(** The goroutines that do not step: either [balance] is as before, or
    the one that steps holds the mutex and they do not. *)
Ltac others_ok :=
  match goal with
  | H : Forall (data_ok ?g0) ?ts |- Forall (data_ok _) ?ts =>
      apply (data_ok_others g0);
      [unfold holders; unfold_state; destruct (mu g0); lia | exact H]
  end.

(** The equation of [balance] after a step. *)
Ltac account Hb :=
  first [ rewrite Hb; f_equal; lia
        | rewrite Hb; apply sub_wrap; lia
        | rewrite Hb; apply add_wrap; lia ].

Ltac inv_cases Hstep Hb :=
  step_cases Hstep; unfold_state;
  repeat match goal with
         | H : mu _ = _ |- _ => rewrite H in *
         | H : _ /\ _ |- _ => destruct H
         | H : ?tmp = balance _ |- _ => subst tmp
         end;
  rewrite ?committed_deposits_app, ?committed_withdrawals_app;
  cbn [committed_deposits committed_withdrawals
       deposit_reported withdrawal_reported];
  repeat match goal with |- _ /\ _ => split end;
  try assumption;
  try (constructor; [reflexivity | assumption]);
  try lia;
  try others_ok;
  try (constructor; [unfold_state; intuition lia | others_ok]);
  try account Hb.

Lemma inv_step (b0 : Z) (s s' : State) : inv b0 s -> step s s' -> inv b0 s'.
Proof.
  intros Hinv Hstep.
  destruct Hstep as [g g' before after t t' Hstep].
  destruct Hinv as (Hg & Hh & Hd & Hb & Hw).
  apply Forall_app in Hg. destruct Hg as [Hg1 Hg2].
  inversion Hg2 as [|? ? Hgt Hg3]; subst.
  apply Forall_app in Hd. destruct Hd as [Hd1 Hd2].
  inversion Hd2 as [|? ? Hdt Hd3]; subst.
  clear Hg2 Hd2.
  unfold holders, outstanding in *.
  rewrite sumZ_app, sumZ_cons in Hh, Hb, Hw.
  pose proof (holders_nonneg before) as Hn1.
  pose proof (holders_nonneg after) as Hn2.
  unfold holders in Hn1, Hn2.
  unfold inv, holders, outstanding.
  rewrite !Forall_app, !sumZ_app, !sumZ_cons.
  destruct t as [a src pc|a src pc|a src pc]; [discriminate| |].
  - destruct pc; inv_cases Hstep Hb.
  - destruct pc; inv_cases Hstep Hb.
Qed.

Lemma undeposited_nonneg (ts : list Thread) :
  Forall (fun t => 0 < amount_of t) ts -> 0 <= sumZ undeposited ts.
Proof.
  induction 1 as [|t ts Ht _ IH]; simpl; [lia|].
  destruct t as [a src pc|a src pc|a src pc]; simpl in *; try lia.
  destruct pc; lia.
Qed.

Lemma sub_exact (x a : Z) : 0 <= x - a <= int_max -> sub x a = x - a.
Proof.
  intros H. unfold sub. apply wrap_id, in_range_bounds.
  unfold int_max, half in H. lia.
Qed.

Lemma add_exact (x a : Z) : 0 <= x + a <= int_max -> add x a = x + a.
Proof.
  intros H. unfold add. apply wrap_id, in_range_bounds.
  unfold int_max, half in H. lia.
Qed.

Ltac solvent_cases Hstep :=
  step_cases Hstep; unfold_state;
  repeat match goal with
         | H : _ /\ _ |- _ => destruct H
         | H : ?tmp = balance _ |- _ => subst tmp
         end;
  rewrite ?sub_exact, ?add_exact by lia;
  repeat match goal with |- _ /\ _ => split end;
  try assumption;
  try (constructor; [unfold_state; assumption | assumption]);
  try lia.

Lemma solvent_step (b0 : Z) (s s' : State) :
  inv b0 s -> solvent s -> step s s' -> solvent s'.
Proof.
  intros Hinv Hsol Hstep.
  destruct Hstep as [g g' before after t t' Hstep].
  destruct Hinv as (Hg & _ & Hd & _ & _).
  destruct Hsol as (Hpos & Hlo & Hhi).
  apply Forall_app in Hg. destruct Hg as [_ Hg2].
  inversion Hg2 as [|? ? Hgt _]; subst. clear Hg2.
  apply Forall_app in Hd. destruct Hd as [_ Hd2].
  inversion Hd2 as [|? ? Hdt _]; subst. clear Hd2.
  pose proof (undeposited_nonneg _ Hpos) as Hnn.
  apply Forall_app in Hpos. destruct Hpos as [Hp1 Hp2].
  inversion Hp2 as [|? ? Hpt Hp3]; subst. clear Hp2.
  rewrite sumZ_app, sumZ_cons in Hhi, Hnn.
  pose proof (undeposited_nonneg _ Hp1) as Hn1.
  pose proof (undeposited_nonneg _ Hp3) as Hn3.
  unfold solvent.
  rewrite !Forall_app, !sumZ_app, !sumZ_cons.
  destruct t as [a src pc|a src pc|a src pc]; [discriminate| |].
  - destruct pc; solvent_cases Hstep.
  - destruct pc; solvent_cases Hstep.
Qed.

Lemma inv_steps (b0 : Z) (s s' : State) : inv b0 s -> steps s s' -> inv b0 s'.
Proof.
  intros Hinv Hsteps. induction Hsteps as [|s1 s2 s3 _ IH Hstep]; [assumption|].
  eapply inv_step; [apply IH; assumption | exact Hstep].
Qed.

Lemma solvent_steps (b0 : Z) (s s' : State) :
  inv b0 s -> solvent s -> steps s s' -> solvent s'.
Proof.
  intros Hinv Hsol Hsteps.
  induction Hsteps as [|s1 s2 s3 H12 IH Hstep]; [assumption|].
  eapply solvent_step; [eapply inv_steps; eassumption | apply IH; assumption | exact Hstep].
Qed.

(** *** The first state *)

Lemma spawned_sums (ts : list Thread) :
  spawned ts ->
  holders ts = 0 /\ sumZ unreported ts = 0 /\
  outstanding ts = Z.of_nat (List.length ts) /\
  sumZ undeposited ts = sumZ deposit_amount ts.
Proof.
  unfold holders, outstanding.
  induction 1 as [|t ts [Hg Hf] _ (IH1 & IH2 & IH3 & IH4)].
  - repeat split.
  - rewrite !sumZ_cons, IH1, IH2, IH3, IH4.
    change (List.length (t :: ts)) with (S (List.length ts)).
    rewrite Nat2Z.inj_succ.
    destruct t as [a src pc|a src pc|a src pc]; destruct pc;
      try discriminate;
      cbn [holds guarded returned unreported undeposited deposit_amount negb andb];
      repeat split; lia.
Qed.

Lemma inv_start (b0 : Z) (ts : list Thread) :
  in_range b0 -> spawned ts -> inv b0 (start b0 ts).
Proof.
  intros Hr Hsp. destruct (spawned_sums ts Hsp) as (H1 & H2 & H3 & _).
  unfold inv, start. cbn [balance mu wg out committed_deposits committed_withdrawals].
  repeat split.
  - eapply Forall_impl; [|exact Hsp]. intros t [Hg _]. exact Hg.
  - exact H1.
  - apply (data_ok_others (mkGlobal b0 false 0 [])).
    + right. exact H1.
    + eapply Forall_impl; [|apply holders_zero, H1].
      intros t. apply data_ok_outside.
  - rewrite H2. replace (b0 + 0 - 0 + 0) with b0 by lia.
    symmetry. apply wrap_id. assumption.
  - symmetry. exact H3.
Qed.

Lemma solvent_start (b0 : Z) (ts : list Thread) :
  spawned ts ->
  Forall (fun t => 0 < amount_of t) ts ->
  0 <= b0 ->
  b0 + sumZ deposit_amount ts <= int_max ->
  solvent (start b0 ts).
Proof.
  intros Hsp Hpos Hlo Hhi.
  destruct (spawned_sums ts Hsp) as (_ & _ & _ & H4).
  unfold solvent, start. cbn [balance]. rewrite H4. auto.
Qed.

(** *** The last state *)

(** When the counter of the WaitGroup is zero every goroutine has
    returned, and nothing written is left unreported. *)
Lemma outstanding_nonneg (ts : list Thread) : 0 <= outstanding ts.
Proof.
  unfold outstanding. induction ts as [|t ts IH]; simpl; [lia|].
  destruct (guarded t && negb (returned t)); lia.
Qed.

Lemma all_returned (ts : list Thread) :
  Forall (fun t => guarded t = true) ts ->
  outstanding ts = 0 ->
  Forall (fun t => returned t = true) ts.
Proof.
  induction 1 as [|t ts Hg _ IH]; intros Hz; [constructor|].
  pose proof (outstanding_nonneg ts) as Hn.
  unfold outstanding in *. rewrite sumZ_cons, Hg in Hz.
  destruct (returned t) eqn:E; cbn [andb negb] in Hz; [|lia].
  constructor; [exact E | apply IH; lia].
Qed.

Lemma returned_unreported (ts : list Thread) :
  Forall (fun t => returned t = true) ts -> sumZ unreported ts = 0.
Proof.
  induction 1 as [|t ts Hr _ IH]; [reflexivity|].
  rewrite sumZ_cons, IH.
  destruct t as [a src pc|a src pc|a src pc]; destruct pc;
    try discriminate; reflexivity.
Qed.

(** The balance when [wg.Wait()] returns. *)
Lemma final_balance (b0 : Z) (ts : list Thread) (s : State) :
  in_range b0 -> spawned ts ->
  steps (start b0 ts) s ->
  wg (fst s) = 0 ->
  Forall (fun t => returned t = true) (snd s) /\
  balance (fst s) =
  wrap (b0 + committed_deposits (out (fst s))
           - committed_withdrawals (out (fst s))).
Proof.
  intros Hr Hsp Hsteps Hwg.
  pose proof (inv_steps b0 _ _ (inv_start b0 ts Hr Hsp) Hsteps) as Hinv.
  destruct s as [g ts']. destruct Hinv as (Hg & _ & _ & Hb & Hw).
  simpl in *.
  assert (Hret : Forall (fun t => returned t = true) ts')
    by (apply all_returned; [assumption | lia]).
  split; [exact Hret|].
  rewrite Hb, (returned_unreported ts' Hret). f_equal; lia.
Qed.

(** The balance is never negative when the deposits cannot overflow. *)
Lemma balance_nonneg (b0 : Z) (ts : list Thread) (s : State) :
  spawned ts ->
  Forall (fun t => 0 < amount_of t) ts ->
  0 <= b0 ->
  b0 + sumZ deposit_amount ts <= int_max ->
  steps (start b0 ts) s ->
  0 <= balance (fst s).
Proof.
  intros Hsp Hpos Hlo Hhi Hsteps.
  assert (Hr : in_range b0).
  { apply in_range_bounds. unfold int_max, half in Hhi.
    destruct (spawned_sums ts Hsp) as (_ & _ & _ & H4).
    pose proof (undeposited_nonneg ts Hpos). lia. }
  pose proof (solvent_steps b0 _ _ (inv_start b0 ts Hr Hsp)
                (solvent_start b0 ts Hsp Hpos Hlo Hhi) Hsteps) as Hsol.
  destruct s as [g ts']. destruct Hsol as (_ & H & _). exact H.
Qed.

(** *** No deadlock, and every execution ends *)

Lemma tstep_rank (g g' : Global) (t t' : Thread) :
  tstep g t = Some (g', t') -> (rank t' < rank t)%nat.
Proof.
  intros H.
  destruct t as [a src pc|a src pc|a src pc]; destruct pc; step_cases H;
    cbn [rank]; lia.
Qed.

Lemma total_rank_app (xs ys : list Thread) :
  total_rank (xs ++ ys) = (total_rank xs + total_rank ys)%nat.
Proof. induction xs as [|x xs IH]; simpl; [reflexivity | rewrite IH; lia]. Qed.

Lemma step_rank (s s' : State) :
  step s s' -> (total_rank (snd s') < total_rank (snd s))%nat.
Proof.
  intros [g g' before after t t' H]. simpl.
  rewrite !total_rank_app. simpl. apply tstep_rank in H. lia.
Qed.

Lemma sumZ_positive (f : Thread -> bool) (ts : list Thread) :
  0 < sumZ (fun t => if f t then 1 else 0) ts ->
  exists before t after, ts = before ++ t :: after /\ f t = true.
Proof.
  induction ts as [|t ts IH]; simpl; intros H; [lia|].
  destruct (f t) eqn:E.
  - exists [], t, ts. split; [reflexivity | exact E].
  - destruct IH as (before & t0 & after & -> & Ht0); [lia|].
    exists (t :: before), t0, after. split; [reflexivity | exact Ht0].
Qed.

Lemma holder_steps (g : Global) (t : Thread) :
  mu g = true -> holds t = true -> exists g' t', tstep g t = Some (g', t').
Proof.
  intros Hmu Hh.
  destruct t as [a src pc|a src pc|a src pc]; destruct pc; try discriminate Hh;
    cbn [tstep step_mutex step_deposit option_map]; unfold unlock;
    rewrite ?Hmu; cbn [option_map];
    try (destruct (balance g >=? a)); cbn [option_map]; eauto.
Qed.

Lemma outsider_steps (g : Global) (t : Thread) :
  mu g = false -> 0 < wg g ->
  guarded t = true -> returned t = false -> holds t = false ->
  exists g' t', tstep g t = Some (g', t').
Proof.
  intros Hmu Hwg Hg Hr Hh. apply Z.ltb_lt in Hwg.
  destruct t as [a src pc|a src pc|a src pc]; destruct pc;
    try discriminate;
    cbn [tstep step_mutex step_deposit option_map]; unfold lock, done;
    rewrite ?Hmu, ?Hwg; cbn [option_map]; eauto.
Qed.

(** No deadlock: while the WaitGroup counts a goroutine, some goroutine
    can execute its next statement. *)
Lemma progress (b0 : Z) (s : State) :
  inv b0 s -> wg (fst s) <> 0 -> exists s', step s s'.
Proof.
  destruct s as [g ts]. intros (Hg & Hh & _ & _ & Hw) Hwg. simpl in Hwg.
  pose proof (outstanding_nonneg ts) as Hn.
  destruct (mu g) eqn:Hmu.
  - destruct (sumZ_positive holds ts) as (before & t & after & -> & Ht).
    { unfold holders in Hh. lia. }
    destruct (holder_steps g t Hmu Ht) as (g' & t' & Hstep).
    eexists. constructor. exact Hstep.
  - destruct (sumZ_positive (fun t => guarded t && negb (returned t)) ts)
      as (before & t & after & -> & Ht).
    { unfold outstanding in *. lia. }
    apply andb_true_iff in Ht. destruct Ht as [Hgt Hrt].
    apply negb_true_iff in Hrt.
    assert (Hht : holds t = false).
    { unfold holders in Hh. rewrite sumZ_app, sumZ_cons in Hh.
      pose proof (holders_nonneg before) as H1.
      pose proof (holders_nonneg after) as H2.
      unfold holders in H1, H2. destruct (holds t); [lia | reflexivity]. }
    destruct (outsider_steps g t Hmu) as (g' & t' & Hstep); try assumption; [lia|].
    eexists. constructor. exact Hstep.
Qed.

(** Every execution can be continued to the point where [wg.Wait()]
    returns. *)
Lemma completes (b0 : Z) (n : nat) :
  forall s, (total_rank (snd s) <= n)%nat -> inv b0 s ->
            exists s', steps s s' /\ wg (fst s') = 0.
Proof.
  induction n as [|n IH]; intros s Hrank Hinv.
  - destruct (Z.eq_dec (wg (fst s)) 0) as [E|E].
    + exists s. split; [apply steps_refl | exact E].
    + destruct (progress b0 s Hinv E) as (s' & Hstep).
      apply step_rank in Hstep. lia.
  - destruct (Z.eq_dec (wg (fst s)) 0) as [E|E].
    + exists s. split; [apply steps_refl | exact E].
    + destruct (progress b0 s Hinv E) as (s' & Hstep).
      destruct (IH s') as (s'' & Hsteps & Hz).
      * apply step_rank in Hstep. lia.
      * eapply inv_step; eassumption.
      * exists s''. split; [|exact Hz].
        eapply steps_trans; [apply steps_one; exact Hstep | exact Hsteps].
Qed.

Lemma can_finish (b0 : Z) (ts : list Thread) :
  in_range b0 -> spawned ts ->
  exists s, steps (start b0 ts) s /\ wg (fst s) = 0.
Proof.
  intros Hr Hsp.
  apply (completes b0 (total_rank ts) (start b0 ts)); [simpl; lia|].
  apply inv_start; assumption.
Qed.

(** *** The two withdrawals of [testMutex] *)

Lemma testMutex_checked (s : State) :
  steps testMutex s -> contention_check s = true.
Proof.
  apply (checked_reach contention_check testMutex_states).
  - vm_compute. reflexivity.
  - apply mem_In. vm_compute. reflexivity.
  - vm_compute. reflexivity.
Qed.

Lemma testMutex_contention (s : State) :
  steps testMutex s ->
  0 <= balance (fst s) /\
  (wg (fst s) = 0 ->
   (balance (fst s) = 300 \/ balance (fst s) = 500) /\
   successes (out (fst s)) = 1%nat /\ failures (out (fst s)) = 1%nat).
Proof.
  intros Hsteps. pose proof (testMutex_checked s Hsteps) as H.
  unfold contention_check in H.
  apply andb_true_iff in H. destruct H as [Hnn H].
  split; [apply Z.leb_le, Hnn|].
  intros Hwg. rewrite Hwg in H. simpl in H.
  apply andb_true_iff in H. destruct H as [H Hf].
  apply andb_true_iff in H. destruct H as [Hb Hs].
  apply orb_true_iff in Hb. rewrite !Z.eqb_eq in Hb.
  apply Nat.eqb_eq in Hs, Hf. auto.
Qed.

Lemma run_phone_first : run phone_first testMutex = Some after_phone_first.
Proof. reflexivity. Qed.

Lemma run_atm_first : run atm_first testMutex = Some after_atm_first.
Proof. reflexivity. Qed.

(** *** The race of Part 1 *)

Lemma run_both_pass : run both_pass testRaceCondition = Some after_both_pass.
Proof. reflexivity. Qed.

(** Without the mutex both withdrawals can pass line 31: the balance
    ends at -200 with two withdrawals reported successful.  The other
    outcomes are 300 and 500. *)
Lemma testRaceCondition_outcomes :
  (forall s, steps testRaceCondition s ->
             forallb returned (snd s) = true ->
             balance (fst s) = 300 \/ balance (fst s) = 500 \/
             balance (fst s) = -200) /\
  steps testRaceCondition after_both_pass /\
  balance (fst after_both_pass) = -200.
Proof.
  split; [|split].
  - intros s Hsteps Hret.
    assert (H : race_check s = true).
    { apply (checked_reach race_check testRaceCondition_states testRaceCondition).
      - vm_compute. reflexivity.
      - apply mem_In. vm_compute. reflexivity.
      - vm_compute. reflexivity.
      - exact Hsteps. }
    unfold race_check in H. rewrite Hret in H.
    apply orb_true_iff in H. destruct H as [H|H].
    + apply orb_true_iff in H. rewrite !Z.eqb_eq in H. tauto.
    + apply Z.eqb_eq in H. tauto.
  - apply (run_steps both_pass). reflexivity.
  - reflexivity.
Qed.

Lemma run_race_then_mutex : run race_then_mutex mixed = Some after_race_then_mutex.
Proof. reflexivity. Qed.

(** *** Calls *)

Lemma app3 {A : Type} (l : list A) (x y z : A) :
  ((l ++ [x]) ++ [y]) ++ [z] = l ++ [x; y; z].
Proof. rewrite <- !app_assoc. reflexivity. Qed.

Lemma call_fuel_S (n : nat) (g g' : Global) (t t' : Thread) :
  returned t = false ->
  tstep g t = Some (g', t') ->
  call_fuel (S n) g t = call_fuel n g' t'.
Proof. intros Hr Hs. simpl. rewrite Hr, Hs. reflexivity. Qed.

Ltac call_step :=
  erewrite call_fuel_S;
  [ | reflexivity
    | cbn [tstep step_mutex step_deposit step_race option_map];
      unfold lock, unlock, done;
      cbn [balance mu wg out print set_mu set_balance set_wg];
      repeat match goal with
             | H : _ = _ |- _ => rewrite H
             end;
      reflexivity ].

(** [withdrawMutex] called with more than the balance. *)
Lemma call_withdrawMutex_rejected (g : Global) (a : Z) (src : string) :
  mu g = false -> 0 < wg g -> balance g < a ->
  call g (WithdrawMutex a src MAttempt) =
  Some {| balance := balance g; mu := false; wg := wg g - 1;
          out := out g ++ [MutexAttempting src a; MutexAcquired src;
                           MutexFailed src a] |}.
Proof.
  intros Hmu Hwg Hlt. apply Z.ltb_lt in Hwg.
  assert (Hge : (balance g >=? a) = false) by lia. clear Hlt.
  unfold call. do 7 call_step.
  unfold call_fuel, returned, set_wg, set_mu, print.
  cbn [balance mu wg out]. rewrite app3. reflexivity.
Qed.

(** *** Scenarios entered after other scenarios *)

Lemma print_with_out (o : list Msg) (g : Global) (m : Msg) :
  print (with_out o g) m = with_out o (print g m).
Proof. unfold print, with_out. cbn [balance mu wg out]. rewrite app_assoc. reflexivity. Qed.

(** A goroutine does not read the output: what it does after an earlier
    output is what it does without. *)
Lemma tstep_with_out (o : list Msg) (g : Global) (t : Thread) :
  tstep (with_out o g) t =
  option_map (fun '(g', t') => (with_out o g', t')) (tstep g t).
Proof.
  destruct t as [a src pc|a src pc|a src pc]; destruct pc;
    cbn [tstep step_race step_mutex step_deposit option_map];
    unfold lock, unlock, done; cbn [balance mu wg with_out];
    rewrite ?print_with_out;
    repeat match goal with
           | |- context [if ?c then _ else _] => destruct c
           end;
    reflexivity.
Qed.

Lemma steps_with_out (o : list Msg) (g0 : Global) (ts0 : list Thread) (s : State) :
  steps (with_out o g0, ts0) s ->
  exists g, fst s = with_out o g /\ steps (g0, ts0) (g, snd s).
Proof.
  intros H. remember (with_out o g0, ts0) as s0 eqn:E.
  induction H as [|s1 s2 s3 _ IH Hstep]; subst.
  - exists g0. split; [reflexivity | apply steps_refl].
  - destruct (IH eq_refl) as (g2 & E2 & Hsteps).
    destruct Hstep as [g g' before after t t' Ht]. simpl in *. subst g.
    rewrite tstep_with_out in Ht.
    destruct (tstep g2 t) as [[g3 t3]|] eqn:E3; [|discriminate].
    simpl in Ht. injection Ht as <- <-.
    exists g3. split; [reflexivity|].
    eapply steps_snoc; [exact Hsteps|]. constructor. exact E3.
Qed.

(** Whatever the earlier scenarios left in [balance], and whatever they
    printed, the two withdrawals of [testMutex] end with 300 or 500. *)
Lemma testMutex_after_any (prev : Global) (s : State) :
  mu prev = false ->
  steps (testMutex_after prev) s ->
  wg (fst s) = 0 ->
  balance (fst s) = 300 \/ balance (fst s) = 500.
Proof.
  intros Hmu Hsteps Hwg.
  assert (E : testMutex_after prev = (with_out (out prev) (fst testMutex), snd testMutex)).
  { unfold testMutex_after, with_out, testMutex, start. cbn. rewrite Hmu, app_nil_r. reflexivity. }
  rewrite E in Hsteps.
  destruct (steps_with_out _ _ _ _ Hsteps) as (g & Eg & Hsteps').
  destruct (testMutex_contention (g, snd s)) as [_ H].
  { exact Hsteps'. }
  rewrite Eg in *. cbn [with_out wg balance fst] in *.
  destruct (H Hwg) as [Hb _]. exact Hb.
Qed.

Lemma run_after_overdrawn :
  run phone_first (testMutex_after overdrawn) = Some after_overdrawn_phone_first.
Proof. reflexivity. Qed.

Lemma call_mutex_alone :
  call thousand (WithdrawMutex 500 "atm" MAttempt) = Some after_mutex_alone.
Proof. reflexivity. Qed.

(** *** Mutual exclusion *)

Lemma sumZ_nth_le (f : Thread -> Z) (ts : list Thread) (i : nat) (t : Thread) :
  (forall t', 0 <= f t') ->
  nth_error ts i = Some t ->
  f t <= sumZ f ts.
Proof.
  intros Hf. revert i. induction ts as [|x ts IH]; intros i H.
  - destruct i; discriminate.
  - rewrite sumZ_cons. destruct i as [|i]; simpl in H.
    + injection H as ->.
      assert (0 <= sumZ f ts).
      { clear IH. induction ts as [|y ts IH']; simpl; [lia|].
        specialize (Hf y). lia. }
      lia.
    + specialize (IH i H). specialize (Hf x). lia.
Qed.

Lemma sumZ_two_le (f : Thread -> Z) (ts : list Thread) :
  (forall t', 0 <= f t') ->
  forall (i j : nat) (ti tj : Thread),
    i <> j ->
    nth_error ts i = Some ti -> nth_error ts j = Some tj ->
    f ti + f tj <= sumZ f ts.
Proof.
  intros Hf. induction ts as [|x ts IH]; intros i j ti tj Hne Hi Hj.
  - destruct i; discriminate.
  - rewrite sumZ_cons.
    destruct i as [|i], j as [|j]; simpl in Hi, Hj.
    + congruence.
    + injection Hi as ->. pose proof (sumZ_nth_le f ts j tj Hf Hj). lia.
    + injection Hj as ->. pose proof (sumZ_nth_le f ts i ti Hf Hi). lia.
    + assert (i <> j) by congruence.
      specialize (IH i j ti tj H Hi Hj). specialize (Hf x). lia.
Qed.

(** Two goroutines are never both between Lock and Unlock. *)
Lemma mutual_exclusion (b0 : Z) (g : Global) (ts : list Thread)
      (i j : nat) (ti tj : Thread) :
  inv b0 (g, ts) ->
  i <> j ->
  nth_error ts i = Some ti -> nth_error ts j = Some tj ->
  holds ti = true -> holds tj = false.
Proof.
  intros (_ & Hh & _) Hne Hi Hj Hti.
  assert (Hf : forall t, 0 <= (if holds t then 1 else 0))
    by (intros t; destruct (holds t); lia).
  pose proof (sumZ_two_le (fun t => if holds t then 1 else 0) ts Hf
                          i j ti tj Hne Hi Hj) as H.
  cbv beta in H. unfold holders in Hh. rewrite Hti in H.
  destruct (holds tj); [|reflexivity]. destruct (mu g); lia.
Qed.

(** Outside the critical section [withdrawMutex] and [deposit] do not
    write [balance]. *)
Lemma outsider_keeps_balance (g g' : Global) (t t' : Thread) :
  guarded t = true -> holds t = false ->
  tstep g t = Some (g', t') -> balance g' = balance g.
Proof.
  intros Hg Hh H.
  destruct t as [a src pc|a src pc|a src pc]; destruct pc;
    try discriminate; step_cases H; reflexivity.
Qed.

Lemma tstep_out_grows (g g' : Global) (t t' : Thread) (m : Msg) :
  tstep g t = Some (g', t') -> In m (out g) -> In m (out g').
Proof.
  intros H Hin.
  destruct t as [a src pc|a src pc|a src pc]; destruct pc;
    step_cases H; cbn [out print set_mu set_balance set_wg];
    try assumption; apply in_or_app; left; assumption.
Qed.

Lemma In_nth_guarded (ts : list Thread) (i : nat) (t : Thread) :
  Forall (fun t => guarded t = true) ts ->
  nth_error ts i = Some t -> guarded t = true.
Proof.
  intros H Hn. rewrite Forall_forall in H. apply H.
  eapply nth_error_In. exact Hn.
Qed.

(** One step of any goroutine keeps [rejected] of goroutine [i]. *)
Lemma rejected_fire (b0 b a : Z) (src : string) (i j : nat) (s s' : State)
      (pc : MutexPC) :
  inv b0 s ->
  b < a ->
  nth_error (snd s) i = Some (WithdrawMutex a src pc) ->
  rejected b a src (fst s) pc ->
  fire j s = Some s' ->
  exists pc',
    nth_error (snd s') i = Some (WithdrawMutex a src pc') /\
    rejected b a src (fst s') pc'.
Proof.
  destruct s as [g ts]. intros Hinv Hlt Hi Hrej. unfold fire. cbn [fst snd] in *.
  destruct (nth_error ts j) as [tj|] eqn:Hj; [|discriminate].
  destruct (tstep g tj) as [[g1 tj']|] eqn:Hstep; [|discriminate].
  intros H. injection H as <-. cbn [fst snd].
  destruct (Nat.eq_dec i j) as [->|Hne].
  - rewrite Hi in Hj. injection Hj as <-.
    rewrite (nth_error_set_nth_same ts j _ tj' Hi).
    destruct pc; try contradiction; cbn [rejected] in Hrej.
    + step_cases Hstep; [lia|]. exists MFail. split; [reflexivity | exact Hrej].
    + step_cases Hstep. exists MUnlock. split; [reflexivity|].
      cbn [rejected balance out print]. split; [exact Hrej|].
      apply in_or_app. right. left. reflexivity.
    + step_cases Hstep. exists MDone. split; [reflexivity|].
      cbn [rejected out set_mu]. apply Hrej.
    + step_cases Hstep. exists MReturned. split; [reflexivity|].
      cbn [rejected out set_wg]. exact Hrej.
    + step_cases Hstep.
  - rewrite (nth_error_set_nth_other ts i j tj' Hne), Hi.
    exists pc. split; [reflexivity|].
    assert (Hout : forall m, In m (out g) -> In m (out g1))
      by (intros m; apply (tstep_out_grows g g1 tj tj' m Hstep)).
    assert (Hbal : holds (WithdrawMutex a src pc) = true -> balance g1 = balance g).
    { intros Hh. destruct Hinv as (Hg & Hinv').
      apply (outsider_keeps_balance g g1 tj tj'); [| |exact Hstep].
      - apply (In_nth_guarded ts j tj Hg Hj).
      - apply (mutual_exclusion b0 g ts i j (WithdrawMutex a src pc) tj);
          [split; assumption | assumption | assumption | assumption | assumption]. }
    destruct pc; try contradiction; cbn [rejected] in *.
    + rewrite Hbal by reflexivity. exact Hrej.
    + rewrite Hbal by reflexivity. exact Hrej.
    + rewrite Hbal by reflexivity. destruct Hrej as [Hb Hin]. auto.
    + auto.
    + auto.
Qed.

(** A [withdrawMutex] that finds less than its amount in [balance]
    leaves the balance as it is up to its Unlock and prints the failure,
    whatever the other goroutines do and in whatever order. *)
Lemma rejected_run (b0 b a : Z) (src : string) (i : nat) (schedule : list nat) :
  forall (s s' : State) (pc : MutexPC),
    inv b0 s ->
    b < a ->
    nth_error (snd s) i = Some (WithdrawMutex a src pc) ->
    rejected b a src (fst s) pc ->
    run schedule s = Some s' ->
    exists pc',
      nth_error (snd s') i = Some (WithdrawMutex a src pc') /\
      rejected b a src (fst s') pc'.
Proof.
  induction schedule as [|j rest IH]; intros s s' pc Hinv Hlt Hi Hrej Hrun;
    simpl in Hrun.
  - injection Hrun as <-. exists pc. split; assumption.
  - destruct (fire j s) as [s1|] eqn:Hfire; [|discriminate].
    destruct (rejected_fire b0 b a src i j s s1 pc Hinv Hlt Hi Hrej Hfire)
      as (pc1 & Hi1 & Hrej1).
    apply (IH s1 s' pc1); try assumption.
    eapply inv_step; [exact Hinv | apply (fire_step j); exact Hfire].
Qed.

(** *** Schedules and executions are the same *)

Lemma step_fire (s s' : State) : step s s' -> exists i, fire i s = Some s'.
Proof.
  intros [g g' before after t t' H]. exists (List.length before).
  unfold fire. cbn [fst snd].
  destruct (set_nth_middle before after t t') as [E1 E2].
  rewrite E1, H, E2. reflexivity.
Qed.

Lemma run_app (xs ys : list nat) :
  forall s s1 s2, run xs s = Some s1 -> run ys s1 = Some s2 ->
                  run (xs ++ ys) s = Some s2.
Proof.
  induction xs as [|i xs IH]; intros s s1 s2 H1 H2; simpl in *.
  - injection H1 as ->. exact H2.
  - destruct (fire i s) as [s0|]; [|discriminate]. eapply IH; eassumption.
Qed.

Lemma steps_run (s s' : State) :
  steps s s' -> exists schedule, run schedule s = Some s'.
Proof.
  induction 1 as [s|s1 s2 s3 _ [schedule IH] Hstep].
  - exists []. reflexivity.
  - destruct (step_fire s2 s3 Hstep) as [i Hi].
    exists (schedule ++ [i]). apply (run_app _ _ _ s2); [exact IH|].
    simpl. rewrite Hi. reflexivity.
Qed.

(** The write of a withdrawal happens while the comparison of line 181
    still holds. *)
Lemma commit_covered (b0 : Z) (ts : list Thread) (s : State)
      (a tmp : Z) (src : string) :
  in_range b0 -> spawned ts ->
  steps (start b0 ts) s ->
  In (WithdrawMutex a src (MStore tmp)) (snd s) ->
  tmp = balance (fst s) /\ a <= balance (fst s).
Proof.
  intros Hr Hsp Hsteps Hin.
  pose proof (inv_steps b0 _ _ (inv_start b0 ts Hr Hsp) Hsteps) as Hinv.
  destruct s as [g ts']. destruct Hinv as (_ & _ & Hd & _).
  rewrite Forall_forall in Hd. apply (Hd _ Hin).
Qed.

(** A rejected withdrawal in a test of Part 3. *)
Lemma rejected_in_pool (b0 : Z) (ts : list Thread) (before after : list nat)
      (s s' : State) (i : nat) (a : Z) (src : string) :
  in_range b0 -> spawned ts ->
  run before (start b0 ts) = Some s ->
  nth_error (snd s) i = Some (WithdrawMutex a src MCheck) ->
  balance (fst s) < a ->
  run after s = Some s' ->
  exists pc,
    nth_error (snd s') i = Some (WithdrawMutex a src pc) /\
    rejected (balance (fst s)) a src (fst s') pc.
Proof.
  intros Hr Hsp Hrun Hi Hlt Hrun'.
  apply (rejected_run b0 (balance (fst s)) a src i after s s' MCheck);
    try assumption.
  - apply (inv_steps b0 (start b0 ts)); [apply inv_start; assumption|].
    apply (run_steps before). exact Hrun.
  - reflexivity.
Qed.

(** *** Calls that return *)

Lemma app4 {A : Type} (l : list A) (x y z w : A) :
  (((l ++ [x]) ++ [y]) ++ [z]) ++ [w] = l ++ [x; y; z; w].
Proof. rewrite <- !app_assoc. reflexivity. Qed.

Lemma app2 {A : Type} (l : list A) (x y : A) :
  (l ++ [x]) ++ [y] = l ++ [x; y].
Proof. rewrite <- !app_assoc. reflexivity. Qed.

(** [withdrawMutex] called with no more than the balance. *)
Lemma call_withdrawMutex_committed (g : Global) (a : Z) (src : string) :
  mu g = false -> 0 < wg g -> a <= balance g ->
  call g (WithdrawMutex a src MAttempt) =
  Some {| balance := sub (balance g) a; mu := false; wg := wg g - 1;
          out := out g ++ [MutexAttempting src a; MutexAcquired src;
                           MutexWithdrawing src a;
                           MutexSuccessful src a (sub (balance g) a)] |}.
Proof.
  intros Hmu Hwg Hle. apply Z.ltb_lt in Hwg.
  assert (Hge : (balance g >=? a) = true) by lia. clear Hle.
  unfold call. do 11 call_step.
  unfold call_fuel, returned, set_wg, set_mu, set_balance, print.
  cbn [balance mu wg out]. rewrite app4. reflexivity.
Qed.

(** [deposit] called with the mutex free. *)
Lemma call_deposit (g : Global) (a : Z) (src : string) :
  mu g = false -> 0 < wg g ->
  call g (Deposit a src DAnnounce) =
  Some {| balance := add (balance g) a; mu := false; wg := wg g - 1;
          out := out g ++ [DepositDepositing src a; DepositAcquired src;
                           DepositSuccessful src a (add (balance g) a)] |}.
Proof.
  intros Hmu Hwg. apply Z.ltb_lt in Hwg.
  unfold call. do 9 call_step.
  unfold call_fuel, returned, set_wg, set_mu, set_balance, print.
  cbn [balance mu wg out]. rewrite app3. reflexivity.
Qed.

(** [withdrawRace] called with nothing running beside it. *)
Lemma call_withdrawRace (g : Global) (a : Z) (src : string) :
  call g (WithdrawRace a src RaceCheck) =
  Some (if balance g >=? a
        then {| balance := sub (balance g) a; mu := mu g; wg := wg g;
                out := out g ++ [RaceWithdrawing src a;
                                 RaceSuccessful src a (sub (balance g) a)] |}
        else {| balance := balance g; mu := mu g; wg := wg g;
                out := out g ++ [RaceFailed src a] |}).
Proof.
  destruct (balance g >=? a) eqn:Hge; unfold call.
  - do 6 call_step.
    unfold call_fuel, returned, set_balance, print.
    cbn [balance mu wg out]. rewrite app2. reflexivity.
  - do 2 call_step. reflexivity.
Qed.

(** A goroutine at [mu.Lock()] with the mutex held does not move. *)
Lemma call_blocked (fuel : nat) (g : Global) (a : Z) (src : string) :
  mu g = true ->
  call_fuel fuel g (WithdrawMutex a src MAttempt) = None /\
  call_fuel fuel g (Deposit a src DAnnounce) = None.
Proof.
  intros Hmu.
  destruct fuel as [|[|fuel]]; split; try reflexivity;
    cbn [call_fuel returned tstep step_mutex step_deposit option_map];
    unfold lock; cbn [mu print]; rewrite Hmu; reflexivity.
Qed.

(** *** What holds in every state of a test of Part 3 *)

Lemma reachable_inv (b0 : Z) (ts : list Thread) (s : State) :
  in_range b0 -> spawned ts -> steps (start b0 ts) s -> inv b0 s.
Proof.
  intros Hr Hsp Hsteps.
  apply (inv_steps b0 (start b0 ts)); [apply inv_start; assumption | exact Hsteps].
Qed.

Lemma holder_counted (ts : list Thread) (t : Thread) :
  In t ts -> holds t = true -> 1 <= holders ts.
Proof.
  intros Hin Hh. destruct (In_nth_error ts t Hin) as [i Hi].
  assert (Hf : forall t, 0 <= (if holds t then 1 else 0))
    by (intros t0; destruct (holds t0); lia).
  pose proof (sumZ_nth_le (fun t => if holds t then 1 else 0) ts i t Hf Hi) as H.
  cbv beta in H. rewrite Hh in H. exact H.
Qed.

Lemma locked_iff_held (b0 : Z) (s : State) :
  inv b0 s ->
  (mu (fst s) = true <-> exists t, In t (snd s) /\ holds t = true).
Proof.
  destruct s as [g ts]. intros (_ & Hh & _). cbn [fst snd]. split.
  - intros Hmu. rewrite Hmu in Hh.
    destruct (sumZ_positive holds ts) as (before & t & after & -> & Ht).
    { unfold holders in Hh. lia. }
    exists t. split; [apply in_elt | exact Ht].
  - intros (t & Hin & Ht). pose proof (holder_counted ts t Hin Ht).
    destruct (mu g); [reflexivity | lia].
Qed.

Lemma returned_outstanding (ts : list Thread) :
  Forall (fun t => returned t = true) ts -> outstanding ts = 0.
Proof.
  unfold outstanding. induction 1 as [|t ts Hr _ IH]; [reflexivity|].
  rewrite sumZ_cons, IH, Hr, andb_false_r. reflexivity.
Qed.

Lemma returned_holders (ts : list Thread) :
  Forall (fun t => returned t = true) ts -> holders ts = 0.
Proof.
  unfold holders. induction 1 as [|t ts Hr _ IH]; [reflexivity|].
  rewrite sumZ_cons, IH.
  destruct t as [a src pc|a src pc|a src pc]; destruct pc;
    try discriminate; reflexivity.
Qed.

(** The counter of the WaitGroup is zero exactly when every goroutine
    has returned, and then the mutex is free. *)
Lemma join (b0 : Z) (s : State) :
  inv b0 s ->
  (wg (fst s) = 0 <-> Forall (fun t => returned t = true) (snd s)) /\
  (wg (fst s) = 0 -> mu (fst s) = false) /\
  0 <= wg (fst s).
Proof.
  destruct s as [g ts]. intros (Hg & Hh & _ & _ & Hw). cbn [fst snd].
  assert (Hret : wg g = 0 -> Forall (fun t => returned t = true) ts)
    by (intros Hz; apply all_returned; [assumption | lia]).
  split; [split|split].
  - exact Hret.
  - intros H. rewrite Hw. apply returned_outstanding, H.
  - intros Hz. pose proof (returned_holders ts (Hret Hz)) as H0.
    rewrite H0 in Hh. destruct (mu g); [lia | reflexivity].
  - rewrite Hw. apply outstanding_nonneg.
Qed.

(** No goroutine is stopped by the runtime: one that has not returned
    can execute its next statement, unless it is at [mu.Lock()] while
    another holds the mutex. *)
Lemma no_fault (b0 : Z) (s : State) (t : Thread) :
  inv b0 s ->
  In t (snd s) ->
  returned t = false ->
  (exists g' t', tstep (fst s) t = Some (g', t')) \/
  (at_lock t = true /\ mu (fst s) = true).
Proof.
  destruct s as [g ts]. intros (Hg & Hh & _ & _ & Hw) Hin Hr.
  cbn [fst snd] in *.
  destruct (In_nth_error ts t Hin) as [i Hi].
  rewrite Forall_forall in Hg. specialize (Hg t Hin).
  destruct (holds t) eqn:Hht.
  - left. apply holder_steps; [|exact Hht].
    assert (H : (if holds t then 1 else 0) <= holders ts).
    { apply (sumZ_nth_le (fun t => if holds t then 1 else 0) ts i t);
        [intros t'; destruct (holds t'); lia | exact Hi]. }
    rewrite Hht, Hh in H. destruct (mu g); [reflexivity | lia].
  - assert (Hwg : 0 < wg g).
    { assert (H : (if guarded t && negb (returned t) then 1 else 0)
                  <= outstanding ts).
      { apply (sumZ_nth_le
                 (fun t => if guarded t && negb (returned t) then 1 else 0)
                 ts i t);
          [intros t'; destruct (guarded t' && negb (returned t')); lia
          | exact Hi]. }
      rewrite Hg, Hr in H. cbn in H. lia. }
    destruct (mu g) eqn:Hmu.
    + apply Z.ltb_lt in Hwg.
      destruct t as [a src pc|a src pc|a src pc]; destruct pc;
        try discriminate;
        cbn [tstep step_mutex step_deposit option_map at_lock];
        unfold lock, done; rewrite ?Hmu, ?Hwg; cbn [option_map];
        eauto.
    + left. apply outsider_steps; assumption.
Qed.

(** *** The length of an execution *)

Lemma fire_rank (i : nat) (s s' : State) :
  fire i s = Some s' -> (total_rank (snd s') < total_rank (snd s))%nat.
Proof. intros H. apply step_rank, (fire_step i), H. Qed.

Lemma run_rank (schedule : list nat) :
  forall s s',
    run schedule s = Some s' ->
    (List.length schedule + total_rank (snd s') <= total_rank (snd s))%nat.
Proof.
  induction schedule as [|i rest IH]; intros s s' H; simpl in H.
  - injection H as <-. simpl. lia.
  - destruct (fire i s) as [s1|] eqn:E; [|discriminate].
    apply fire_rank in E. specialize (IH s1 s' H). simpl. lia.
Qed.

Lemma total_rank_bound (ts : list Thread) :
  (total_rank ts <= 11 * List.length ts)%nat.
Proof.
  induction ts as [|t ts IH]; [simpl; lia|].
  cbn [total_rank fold_right List.length]. fold (total_rank ts).
  assert (rank t <= 11)%nat.
  { destruct t as [a src pc|a src pc|a src pc]; destruct pc; cbn [rank]; lia. }
  lia.
Qed.

(** *** Every deposit is written and reported *)

(** One statement of any goroutine keeps the sum of the deposits
    reported, written and still to come. *)
Lemma tstep_deposits (g g' : Global) (t t' : Thread) :
  tstep g t = Some (g', t') ->
  committed_deposits (out g') + deposit_unreported t' + undeposited t' =
  committed_deposits (out g) + deposit_unreported t + undeposited t.
Proof.
  intros H.
  destruct t as [a src pc|a src pc|a src pc]; destruct pc; step_cases H;
    cbn [out print set_mu set_balance set_wg deposit_unreported undeposited];
    rewrite ?committed_deposits_app;
    cbn [committed_deposits deposit_reported]; lia.
Qed.

Lemma step_deposits (s s' : State) :
  step s s' ->
  committed_deposits (out (fst s')) + sumZ deposit_unreported (snd s')
    + sumZ undeposited (snd s') =
  committed_deposits (out (fst s)) + sumZ deposit_unreported (snd s)
    + sumZ undeposited (snd s).
Proof.
  intros [g g' before after t t' H]. cbn [fst snd].
  rewrite !sumZ_app, !sumZ_cons. apply tstep_deposits in H. lia.
Qed.

Lemma steps_deposits (s s' : State) :
  steps s s' ->
  committed_deposits (out (fst s')) + sumZ deposit_unreported (snd s')
    + sumZ undeposited (snd s') =
  committed_deposits (out (fst s)) + sumZ deposit_unreported (snd s)
    + sumZ undeposited (snd s).
Proof.
  induction 1 as [|s1 s2 s3 _ IH Hstep]; [reflexivity|].
  rewrite (step_deposits _ _ Hstep). exact IH.
Qed.

Lemma returned_no_deposit_left (ts : list Thread) :
  Forall (fun t => returned t = true) ts ->
  sumZ deposit_unreported ts = 0 /\ sumZ undeposited ts = 0.
Proof.
  induction 1 as [|t ts Hr _ [IH1 IH2]]; [split; reflexivity|].
  rewrite !sumZ_cons, IH1, IH2.
  destruct t as [a src pc|a src pc|a src pc]; destruct pc;
    try discriminate; split; reflexivity.
Qed.

Lemma fresh_deposits (ts : list Thread) :
  Forall (fun t => fresh t = true) ts ->
  sumZ deposit_unreported ts = 0 /\
  sumZ undeposited ts = sumZ deposit_amount ts.
Proof.
  induction 1 as [|t ts Hf _ [IH1 IH2]]; [split; reflexivity|].
  rewrite !sumZ_cons, IH1, IH2.
  destruct t as [a src pc|a src pc|a src pc]; destruct pc;
    try discriminate; split; reflexivity.
Qed.

(** When every goroutine has returned, the deposits reported are the
    deposits started. *)
Lemma deposits_all_reported (g0 : Global) (ts : list Thread) (s : State) :
  Forall (fun t => fresh t = true) ts ->
  steps (g0, ts) s ->
  Forall (fun t => returned t = true) (snd s) ->
  committed_deposits (out (fst s)) =
  committed_deposits (out g0) + sumZ deposit_amount ts.
Proof.
  intros Hf Hsteps Hret. pose proof (steps_deposits _ _ Hsteps) as H.
  cbn [fst snd] in H.
  destruct (returned_no_deposit_left _ Hret) as [H1 H2].
  destruct (fresh_deposits ts Hf) as [H3 H4]. lia.
Qed.

(** *** Withdrawals reported *)

Lemma committed_withdrawals_nonneg_step (g g' : Global) (t t' : Thread) :
  0 < amount_of t ->
  tstep g t = Some (g', t') ->
  committed_withdrawals (out g) <= committed_withdrawals (out g') /\
  committed_withdrawals (out g') + unwithdrawn t' <=
  committed_withdrawals (out g) + unwithdrawn t /\
  amount_of t' = amount_of t.
Proof.
  intros Hpos H.
  destruct t as [a src pc|a src pc|a src pc]; destruct pc; step_cases H;
    cbn [out print set_mu set_balance set_wg unwithdrawn amount_of] in *;
    rewrite ?committed_withdrawals_app;
    cbn [committed_withdrawals withdrawal_reported]; lia.
Qed.

Lemma steps_withdrawals (s s' : State) :
  Forall (fun t => 0 < amount_of t) (snd s) ->
  steps s s' ->
  Forall (fun t => 0 < amount_of t) (snd s') /\
  committed_withdrawals (out (fst s)) <= committed_withdrawals (out (fst s')) /\
  committed_withdrawals (out (fst s')) + sumZ unwithdrawn (snd s') <=
  committed_withdrawals (out (fst s)) + sumZ unwithdrawn (snd s).
Proof.
  intros Hpos Hsteps.
  induction Hsteps as [|s1 s2 s3 _ IH Hstep]; [repeat split; [assumption|lia|lia]|].
  destruct (IH Hpos) as (Hp2 & H1 & H2). clear IH.
  destruct Hstep as [g g' before after t t' H]. cbn [fst snd] in *.
  apply Forall_app in Hp2. destruct Hp2 as [Hpb Hpa].
  inversion Hpa as [|? ? Hpt Hpa']; subst.
  destruct (committed_withdrawals_nonneg_step g g' t t' Hpt H) as (K1 & K2 & K3).
  rewrite !sumZ_app, !sumZ_cons in *.
  split; [|split; lia].
  apply Forall_app. split; [exact Hpb|]. constructor; [lia | exact Hpa'].
Qed.

Lemma unwithdrawn_bounds (ts : list Thread) :
  Forall (fun t => 0 < amount_of t) ts ->
  0 <= sumZ unwithdrawn ts <= sumZ withdrawal_amount ts.
Proof.
  induction 1 as [|t ts Ht _ IH]; [simpl; lia|].
  rewrite !sumZ_cons.
  destruct t as [a src pc|a src pc|a src pc];
    cbn [unwithdrawn withdrawal_amount amount_of] in *; try lia.
  destruct pc; lia.
Qed.

Lemma fresh_unwithdrawn (ts : list Thread) :
  Forall (fun t => fresh t = true) ts ->
  sumZ unwithdrawn ts = sumZ withdrawal_amount ts.
Proof.
  induction 1 as [|t ts Hf _ IH]; [reflexivity|].
  rewrite !sumZ_cons, IH.
  destruct t as [a src pc|a src pc|a src pc]; destruct pc;
    try discriminate; reflexivity.
Qed.

(** Without overflow the accounting of [inv] is exact. *)
Lemma exact_step (b0 : Z) (s s' : State) :
  inv b0 s -> solvent s ->
  balance (fst s) =
    b0 + committed_deposits (out (fst s))
       - committed_withdrawals (out (fst s)) + sumZ unreported (snd s) ->
  step s s' ->
  balance (fst s') =
    b0 + committed_deposits (out (fst s'))
       - committed_withdrawals (out (fst s')) + sumZ unreported (snd s').
Proof.
  intros Hinv Hsol Hb Hstep.
  destruct Hstep as [g g' before after t t' Hstep].
  destruct Hinv as (Hg & _ & Hd & _ & _).
  destruct Hsol as (Hpos & Hlo & Hhi).
  apply Forall_app in Hg. destruct Hg as [_ Hg2].
  inversion Hg2 as [|? ? Hgt _]; subst. clear Hg2.
  apply Forall_app in Hd. destruct Hd as [_ Hd2].
  inversion Hd2 as [|? ? Hdt _]; subst. clear Hd2.
  apply Forall_app in Hpos. destruct Hpos as [Hp1 Hp2].
  inversion Hp2 as [|? ? Hpt Hp3]; subst. clear Hp2.
  pose proof (undeposited_nonneg _ Hp1) as Hn1.
  pose proof (undeposited_nonneg _ Hp3) as Hn3.
  cbn [fst snd] in *.
  rewrite !sumZ_app, !sumZ_cons in *.
  destruct t as [a src pc|a src pc|a src pc]; [discriminate| |];
    destruct pc; step_cases Hstep; unfold_state;
    repeat match goal with
           | H : _ /\ _ |- _ => destruct H
           | H : ?tmp = balance _ |- _ => subst tmp
           end;
    rewrite ?sub_exact, ?add_exact by lia;
    rewrite ?committed_deposits_app, ?committed_withdrawals_app;
    cbn [committed_deposits committed_withdrawals
         deposit_reported withdrawal_reported];
    lia.
Qed.

Lemma exact_steps (b0 : Z) (s s' : State) :
  inv b0 s -> solvent s ->
  balance (fst s) =
    b0 + committed_deposits (out (fst s))
       - committed_withdrawals (out (fst s)) + sumZ unreported (snd s) ->
  steps s s' ->
  balance (fst s') =
    b0 + committed_deposits (out (fst s'))
       - committed_withdrawals (out (fst s')) + sumZ unreported (snd s').
Proof.
  intros Hinv Hsol Hb Hsteps.
  induction Hsteps as [|s1 s2 s3 H12 IH Hstep]; [assumption|].
  apply (exact_step b0 s2 s3).
  - apply (inv_steps b0 s1); assumption.
  - apply (solvent_steps b0 s1); assumption.
  - apply IH; assumption.
  - exact Hstep.
Qed.

(** The balance at the end of a test of Part 3: every deposit is in it,
    and at most every withdrawal is taken from it. *)
Lemma final_balance_bounds (b0 : Z) (ts : list Thread) (s : State) :
  spawned ts ->
  Forall (fun t => 0 < amount_of t) ts ->
  0 <= b0 ->
  b0 + sumZ deposit_amount ts <= int_max ->
  steps (start b0 ts) s ->
  wg (fst s) = 0 ->
  committed_deposits (out (fst s)) = sumZ deposit_amount ts /\
  0 <= committed_withdrawals (out (fst s)) <= sumZ withdrawal_amount ts /\
  balance (fst s) =
  b0 + sumZ deposit_amount ts - committed_withdrawals (out (fst s)).
Proof.
  intros Hsp Hpos Hlo Hhi Hsteps Hwg.
  assert (Hfresh : Forall (fun t => fresh t = true) ts)
    by (eapply Forall_impl; [|exact Hsp]; intros t [_ H]; exact H).
  destruct (spawned_sums ts Hsp) as (_ & Hun & _ & H4).
  assert (Hr : in_range b0).
  { apply in_range_bounds. unfold int_max, half in Hhi.
    pose proof (undeposited_nonneg ts Hpos). lia. }
  destruct (final_balance b0 ts s Hr Hsp Hsteps Hwg) as [Hret _].
  pose proof (deposits_all_reported _ ts s Hfresh Hsteps Hret) as Hd.
  cbn [out start fst committed_deposits] in Hd.
  destruct (steps_withdrawals (start b0 ts) s Hpos Hsteps) as (Hp' & Hw1 & Hw2).
  cbn [out start fst snd committed_withdrawals] in Hw1, Hw2.
  rewrite (fresh_unwithdrawn ts Hfresh) in Hw2.
  pose proof (unwithdrawn_bounds (snd s) Hp') as [Hu _].
  pose proof (exact_steps b0 (start b0 ts) s (inv_start b0 ts Hr Hsp)
                (solvent_start b0 ts Hsp Hpos Hlo Hhi)) as Hex.
  cbn [start fst snd balance out committed_deposits committed_withdrawals] in Hex.
  rewrite Hun in Hex. specialize (Hex ltac:(lia) Hsteps).
  rewrite (returned_unreported _ Hret) in Hex.
  split; [lia|]. split; [lia|]. lia.
Qed.

(** *** Search without the output and the labels *)

Lemma returned_erase (t : Thread) : returned (erase_thread t) = returned t.
Proof. destruct t as [a src pc|a src pc|a src pc]; reflexivity. Qed.

Lemma forallb_returned_erase (ts : list Thread) :
  forallb returned (map erase_thread ts) = forallb returned ts.
Proof.
  induction ts as [|t ts IH]; [reflexivity|].
  cbn [map forallb]. rewrite returned_erase, IH. reflexivity.
Qed.

Lemma erase_thread_idem (t : Thread) :
  erase_thread (erase_thread t) = erase_thread t.
Proof. destruct t as [a src pc|a src pc|a src pc]; reflexivity. Qed.

(** The erased goroutine takes the same step on the erased variables. *)
Lemma tstep_erase (g g' : Global) (t t' : Thread) :
  tstep g t = Some (g', t') ->
  exists g'',
    tstep (erase_global g) (erase_thread t) = Some (g'', erase_thread t') /\
    erase_global g'' = erase_global g'.
Proof.
  intros H.
  destruct t as [a src pc|a src pc|a src pc]; destruct pc; step_cases H;
    eexists;
    (split;
     [ cbn [erase_thread tstep step_race step_mutex step_deposit option_map];
       unfold lock, unlock, done;
       cbn [balance mu wg erase_global];
       repeat match goal with
              | E : _ = _ |- _ => rewrite E
              end;
       reflexivity
     | reflexivity ]).
Qed.

Lemma erase_same (g1 g2 : Global) (ts : list Thread) :
  erase_global g1 = erase_global g2 ->
  erase (g1, map erase_thread ts) = erase (g2, ts).
Proof.
  intros E. unfold erase. cbn [fst snd]. rewrite E, map_map.
  f_equal. apply map_ext. intros t. apply erase_thread_idem.
Qed.

Lemma step_erase (s s' : State) :
  step s s' -> In (erase s') (successors_erased (erase s)).
Proof.
  intros [g g' before after t t' H].
  destruct (tstep_erase g g' t t' H) as (g'' & Hstep & Eg).
  unfold successors_erased. apply in_map_iff.
  exists (g'', map erase_thread (before ++ t' :: after)). split.
  - apply erase_same, Eg.
  - apply successors_complete. unfold erase. cbn [fst snd].
    rewrite !map_app. cbn [map]. constructor. exact Hstep.
Qed.

Lemma closed_erased_reach (seen : list State) (s0 : State) :
  closed_erased seen = true ->
  In (erase s0) seen ->
  forall s, steps s0 s -> In (erase s) seen.
Proof.
  intros Hclosed H0 s Hsteps.
  induction Hsteps as [|s1 s2 s3 _ IH Hstep]; [assumption|].
  unfold closed_erased in Hclosed. rewrite forallb_forall in Hclosed.
  specialize (Hclosed (erase s2) (IH H0)). rewrite forallb_forall in Hclosed.
  apply mem_In, Hclosed, step_erase, Hstep.
Qed.

Lemma checked_erased (check : State -> bool) (seen : list State) (s0 : State) :
  closed_erased seen = true ->
  In (erase s0) seen ->
  forallb check seen = true ->
  forall s, steps s0 s -> check (erase s) = true.
Proof.
  intros Hclosed H0 Hcheck s Hsteps.
  rewrite forallb_forall in Hcheck.
  apply Hcheck, (closed_erased_reach seen s0); assumption.
Qed.


(** *** Pairs of withdrawals of 700 and 500 with any labels *)


Lemma pair_race_outcomes (src1 src2 : string) (earlier : list Msg) (s : State) :
  steps (pair_race src1 src2 earlier) s ->
  forallb returned (snd s) = true ->
  balance (fst s) = 300 \/ balance (fst s) = 500 \/ balance (fst s) = -200.
Proof.
  intros Hsteps Hret.
  assert (H : returned_check [300; 500; -200] (erase s) = true).
  { apply (checked_erased (returned_check [300; 500; -200]) pair_race_states
                          (pair_race src1 src2 earlier)).
    - vm_compute. reflexivity.
    - apply mem_In. vm_compute. reflexivity.
    - vm_compute. reflexivity.
    - exact Hsteps. }
  unfold returned_check, erase in H. cbn [fst snd] in H.
  rewrite forallb_returned_erase, Hret in H.
  apply existsb_exists in H. destruct H as (b & Hin & Heq).
  apply Z.eqb_eq in Heq. cbn [balance erase_global] in Heq. rewrite Heq.
  simpl in Hin. lia.
Qed.

(** What line 53 or line 253 can read, whenever the sleep ends. *)
Lemma pair_race_balances (src1 src2 : string) (earlier : list Msg) (s : State) :
  steps (pair_race src1 src2 earlier) s ->
  In (balance (fst s)) [1000; 300; 500; -200].
Proof.
  intros Hsteps.
  assert (H : balance_check [1000; 300; 500; -200] (erase s) = true).
  { apply (checked_erased (balance_check [1000; 300; 500; -200]) pair_race_states
                          (pair_race src1 src2 earlier)).
    - vm_compute. reflexivity.
    - apply mem_In. vm_compute. reflexivity.
    - vm_compute. reflexivity.
    - exact Hsteps. }
  unfold balance_check, erase in H. cbn [fst balance erase_global] in H.
  apply existsb_exists in H. destruct H as (b & Hin & Heq).
  apply Z.eqb_eq in Heq. rewrite Heq. exact Hin.
Qed.



(** *** Scenarios that can be completed *)




(** *** The second part of [testMutex] *)





(** *** Goroutines left over from an earlier scenario *)

Lemma tstep_returned (g : Global) (t : Thread) :
  returned t = true -> tstep g t = None.
Proof.
  destruct t as [a src pc|a src pc|a src pc]; destruct pc;
    try discriminate; reflexivity.
Qed.

Lemma app_split_middle {A : Type} (t : A) (after done : list A) :
  forall before ts : list A,
    before ++ t :: after = ts ++ done ->
    (exists after', ts = before ++ t :: after' /\ after = after' ++ done) \/
    In t done.
Proof.
  intros before ts. revert before.
  induction ts as [|x ts IH]; intros before H.
  - right. cbn [app] in H. rewrite <- H. apply in_elt.
  - destruct before as [|y before]; cbn [app] in H.
    + injection H as -> ->. left. exists ts. split; reflexivity.
    + injection H as -> H. destruct (IH before H) as [(a' & -> & ->)|Hin].
      * left. exists a'. split; reflexivity.
      * right. exact Hin.
Qed.

(** Goroutines that have returned take no part in an execution. *)
Lemma steps_ignore_returned (g : Global) (ts done : list Thread) (s : State) :
  Forall (fun t => returned t = true) done ->
  steps (g, ts ++ done) s ->
  exists ts', snd s = ts' ++ done /\ steps (g, ts) (fst s, ts').
Proof.
  intros Hdone H. remember (g, ts ++ done) as s0 eqn:E.
  induction H as [|s1 s2 s3 _ IH Hstep]; subst.
  - exists ts. split; [reflexivity | apply steps_refl].
  - destruct (IH eq_refl) as (ts2 & E2 & Hsteps).
    destruct Hstep as [g2 g3 before after t t' Ht]. cbn [fst snd] in *.
    destruct (app_split_middle t after done before ts2 E2)
      as [(after' & -> & ->)|Hin].
    + exists (before ++ t' :: after'). split.
      * rewrite <- app_assoc. reflexivity.
      * eapply steps_snoc; [exact Hsteps|]. constructor. exact Ht.
    + rewrite Forall_forall in Hdone.
      rewrite (tstep_returned g2 t (Hdone t Hin)) in Ht. discriminate.
Qed.

Lemma testMutex_entered_any (prev : Global) (leftover : list Thread) (s : State) :
  mu prev = false ->
  Forall (fun t => returned t = true) leftover ->
  steps (testMutex_entered prev leftover) s ->
  wg (fst s) = 0 ->
  balance (fst s) = 300 \/ balance (fst s) = 500.
Proof.
  intros Hmu Hleft Hsteps Hwg.
  destruct (steps_ignore_returned _ _ _ _ Hleft Hsteps) as (ts' & _ & Hsteps').
  apply (testMutex_after_any prev (fst s, ts') Hmu Hsteps' Hwg).
Qed.

Lemma run_straggler :
  run straggler_between (testMutex_entered thousand straggler) =
  Some after_straggler.
Proof. reflexivity. Qed.

Lemma run_lost_update : run lost_update testRaceCondition = Some after_lost_update.
Proof. reflexivity. Qed.

End PoolFacts.

(** ** The channel of [testChannelBased] *)

Module ChannelFacts.
Import Serial SerialFacts Channel.

(** *** The send *)

(** What a completed send does: it needs the worker at its receive and
    the channel open, and it hands the transaction to the worker. *)
Lemma send_inversion (i : nat) (s s' : State) :
  fire (Send i) s = Some s' ->
  exists tx,
    nth_error (producers s) i = Some (Sending tx) /\
    worker s = Receiving /\ closed s = false /\
    worker s' = Processing tx BAnnounce /\
    delivered s' = delivered s ++ [tx] /\
    producers s' = set_nth i Sent (producers s) /\
    ledger s' = ledger s /\ out s' = out s.
Proof.
  unfold fire. destruct (crashed s); [discriminate|].
  destruct (nth_error (producers s) i) as [[tx|tx|]|]; try discriminate.
  destruct (worker s); try discriminate.
  destruct (closed s); try discriminate.
  intros H. injection H as <-. exists tx. cbn. repeat split.
Qed.

Lemma send_enabled (i : nat) (tx : Transaction) (s : State) :
  crashed s = false ->
  nth_error (producers s) i = Some (Sending tx) ->
  worker s = Receiving -> closed s = false ->
  exists s', fire (Send i) s = Some s'.
Proof.
  intros Hc Hp Hw Hcl. unfold fire. rewrite Hc, Hp, Hw, Hcl. eauto.
Qed.

(** While the worker is in the loop body a producer at its send stays
    there, whatever else happens. *)
Lemma send_blocked (i : nat) (tx tx' : Transaction) (pc : BodyPC)
      (e : Event) (s s' : State) :
  worker s = Processing tx' pc ->
  nth_error (producers s) i = Some (Sending tx) ->
  fire e s = Some s' ->
  nth_error (producers s') i = Some (Sending tx).
Proof.
  intros Hw Hp. unfold fire.
  destruct (crashed s); [discriminate|].
  destruct e as [j|j| | | |j].
  - destruct (nth_error (producers s) j) as [[tx1|tx1|]|] eqn:En; try discriminate.
    intros H. injection H as <-. cbn.
    destruct (Nat.eq_dec i j) as [->|Hne]; [congruence|].
    rewrite nth_error_set_nth_other by assumption. exact Hp.
  - rewrite Hw. destruct (nth_error (producers s) j) as [[tx1|tx1|]|]; discriminate.
  - rewrite Hw. destruct (step_body (ledger s) tx' pc) as [[l1 printed] next].
    intros H. injection H as <-. exact Hp.
  - destruct (closed s); try discriminate.
    intros H. injection H as <-. exact Hp.
  - rewrite Hw. discriminate.
  - destruct (nth_error (producers s) j) as [[tx1|tx1|]|]; try discriminate.
    destruct (closed s); try discriminate.
    intros H. injection H as <-. exact Hp.
Qed.

Lemma send_needs_receiver (i : nat) (s : State) :
  worker s <> Receiving -> fire (Send i) s = None.
Proof.
  intros Hw. destruct (fire (Send i) s) as [s'|] eqn:E; [|reflexivity].
  destruct (send_inversion i s s' E) as (tx & _ & Hr & _). contradiction.
Qed.

Lemma run_phone_in_work : run [Send 0%nat] testChannelBased = Some phone_in_work.
Proof. reflexivity. Qed.

Lemma run_events_app (es1 es2 : list Event) :
  forall s, run (es1 ++ es2) s =
            match run es1 s with
            | Some s1 => run es2 s1
            | None => None
            end.
Proof.
  induction es1 as [|e es1 IH]; intros s; [reflexivity|].
  cbn [app run]. destruct (fire e s) as [s1|]; [apply IH | reflexivity].
Qed.

(** *** The loop body *)

(** The statements of the body, one after the other, are the loop body
    of [transactionProcessor]. *)
Lemma body_process (l : Ledger) (tx : Transaction) :
  body l tx = process l tx.
Proof.
  unfold body, process. cbn [body_from step_body].
  unfold announcement.
  destruct (String.eqb (Type_ tx) "withdrawal").
  - cbn [body_from step_body].
    destruct (CustomerBalance l >=? Amount tx); reflexivity.
  - destruct (String.eqb (Type_ tx) "deposit"); reflexivity.
Qed.

(** One statement takes the worker from one control point of the body
    to the next, and the last one completes [process]. *)
Lemma step_body_at (l : Ledger) (tx : Transaction) (pc : BodyPC) :
  in_body l tx pc = true ->
  match step_body (ledger_at l tx pc) tx pc with
  | (l', printed, Some pc') =>
      in_body l tx pc' = true /\
      l' = ledger_at l tx pc' /\
      printed_at tx pc ++ printed = printed_at tx pc'
  | (l', printed, None) =>
      (l', printed_at tx pc ++ printed) = process l tx
  end.
Proof.
  unfold process, in_body.
  destruct pc; cbn [step_body ledger_at printed_at app];
    fold (announcement tx);
    destruct (String.eqb (Type_ tx) "withdrawal") eqn:Ew;
    destruct (String.eqb (Type_ tx) "deposit") eqn:Ed;
    destruct (CustomerBalance l >=? Amount tx) eqn:Ec;
    cbn [andb negb CustomerBalance BankBalance];
    try discriminate; intros _; repeat split; reflexivity.
Qed.

(** *** The worker processes what was delivered, in that order *)

Lemma transactionProcessor_snoc (txs : list Transaction) (tx : Transaction) :
  forall l0,
    transactionProcessor l0 (txs ++ [tx]) =
    (fst (process (fst (transactionProcessor l0 txs)) tx),
     snd (transactionProcessor l0 txs) ++
     snd (process (fst (transactionProcessor l0 txs)) tx)).
Proof.
  induction txs as [|x txs IH]; intros l0.
  - cbn [app]. rewrite transactionProcessor_cons. cbn.
    rewrite app_nil_r. reflexivity.
  - cbn [app]. rewrite !transactionProcessor_cons, IH. cbn [fst snd].
    rewrite app_assoc. reflexivity.
Qed.

Lemma serial_fire (l0 : Ledger) (e : Event) (s s' : State) :
  serial l0 s -> fire e s = Some s' -> serial l0 s'.
Proof.
  unfold serial, fire. intros Hinv.
  destruct (crashed s); [discriminate|].
  destruct e as [i|i| | | |i].
  - destruct (nth_error (producers s) i) as [[tx|tx|]|]; try discriminate.
    intros H. injection H as <-. exact Hinv.
  - destruct (nth_error (producers s) i) as [[tx|tx|]|]; try discriminate.
    destruct (worker s); try discriminate.
    destruct (closed s); try discriminate.
    intros H. injection H as <-. cbn [worker delivered ledger out].
    exists (delivered s). unfold final. rewrite Hinv. cbn [fst snd].
    rewrite app_nil_r. repeat split.
  - destruct (worker s) as [|tx pc|]; try discriminate.
    destruct Hinv as (done & Hd & Hin & Hl & Ho).
    pose proof (step_body_at (final l0 done) tx pc Hin) as Hstep.
    rewrite <- Hl in Hstep.
    destruct (step_body (ledger s) tx pc) as [[l1 printed] next].
    intros H. injection H as <-. cbn [worker delivered ledger out].
    destruct next as [pc'|]; cbn [next_worker].
    + destruct Hstep as (Hin' & Hl' & Ho').
      exists done. rewrite Ho, <- app_assoc, Ho'. repeat split; assumption.
    + rewrite Hd, transactionProcessor_snoc. fold (final l0 done).
      rewrite <- Hstep, Ho, <- app_assoc. reflexivity.
  - destruct (closed s); try discriminate.
    intros H. injection H as <-. exact Hinv.
  - destruct (worker s); try discriminate.
    destruct (closed s); try discriminate.
    intros H. injection H as <-. exact Hinv.
  - destruct (nth_error (producers s) i) as [[tx|tx|]|]; try discriminate.
    destruct (closed s); try discriminate.
    intros H. injection H as <-. exact Hinv.
Qed.

Lemma serial_run (l0 : Ledger) (es : list Event) :
  forall s s', serial l0 s -> run es s = Some s' -> serial l0 s'.
Proof.
  induction es as [|e es IH]; intros s s' Hinv H; simpl in H.
  - injection H as <-. exact Hinv.
  - destruct (fire e s) as [s1|] eqn:E; [|discriminate].
    eapply IH; [eapply serial_fire; eassumption | exact H].
Qed.

(** *** Every transaction is delivered at most once *)

Lemma accounted_fire (e : Event) (s s' : State) :
  fire e s = Some s' ->
  Permutation (delivered s' ++ waiting s') (delivered s ++ waiting s).
Proof.
  unfold fire, waiting.
  destruct (crashed s); [discriminate|].
  destruct e as [i|i| | | |i].
  - destruct (nth_error (producers s) i) as [[tx|tx|]|] eqn:En; try discriminate.
    intros H. injection H as <-. cbn.
    destruct (set_nth_split _ _ _ (Sending tx) En) as (b & a & E1 & E2).
    rewrite E2, E1, !flat_map_app. cbn. apply Permutation_refl.
  - destruct (nth_error (producers s) i) as [[tx|tx|]|] eqn:En; try discriminate.
    destruct (worker s); try discriminate.
    destruct (closed s); try discriminate.
    intros H. injection H as <-. cbn.
    destruct (set_nth_split _ _ _ Sent En) as (b & a & E1 & E2).
    rewrite E2, E1, !flat_map_app. cbn.
    rewrite <- app_assoc. apply Permutation_app_head. cbn.
    apply Permutation_middle.
  - destruct (worker s) as [|tx pc|]; try discriminate.
    destruct (step_body (ledger s) tx pc) as [[l1 printed] next].
    intros H. injection H as <-. apply Permutation_refl.
  - destruct (closed s); try discriminate.
    intros H. injection H as <-. apply Permutation_refl.
  - destruct (worker s); try discriminate.
    destruct (closed s); try discriminate.
    intros H. injection H as <-. apply Permutation_refl.
  - destruct (nth_error (producers s) i) as [[tx|tx|]|]; try discriminate.
    destruct (closed s); try discriminate.
    intros H. injection H as <-. apply Permutation_refl.
Qed.

Lemma accounted_run (es : list Event) :
  forall s s', run es s = Some s' ->
               Permutation (delivered s' ++ waiting s') (delivered s ++ waiting s).
Proof.
  induction es as [|e es IH]; intros s s' H; simpl in H.
  - injection H as <-. apply Permutation_refl.
  - destruct (fire e s) as [s1|] eqn:E; [|discriminate].
    eapply Permutation_trans; [apply IH; exact H | apply accounted_fire with e; exact E].
Qed.

(** *** The ledger of [testChannelBased] *)

Lemma testChannelBased_serial : serial initial_ledger testChannelBased.
Proof. reflexivity. Qed.

(** The transactions are processed in the order in which their sends
    completed; at most the last one delivered is still in work, and the
    ledger and the output are then those of the transactions before it
    and of the statements of the body already executed on it. *)
Lemma processed_in_order (l0 : Ledger) (s : State) :
  serial l0 s ->
  exists done rest,
    delivered s = done ++ rest /\
    ((rest = [] /\
      (worker s = Receiving \/ worker s = Exited) /\
      transactionProcessor l0 done = (ledger s, out s)) \/
     (exists tx pc,
         rest = [tx] /\ worker s = Processing tx pc /\
         in_body (final l0 done) tx pc = true /\
         ledger s = ledger_at (final l0 done) tx pc /\
         out s = snd (transactionProcessor l0 done) ++ printed_at tx pc)).
Proof.
  unfold serial. destruct (worker s) as [|tx pc|] eqn:Ew.
  - intros H. exists (delivered s), []. rewrite app_nil_r.
    split; [reflexivity | left; auto].
  - intros (done & Hd & H). exists done, [tx].
    split; [exact Hd | right; exists tx, pc; auto].
  - intros H. exists (delivered s), []. rewrite app_nil_r.
    split; [reflexivity | left; auto].
Qed.

(** Between the debit and the credit the total is short of the amount
    in flight; everywhere else it is the total of the first ledger. *)
Lemma ledger_at_total (l : Ledger) (tx : Transaction) (pc : BodyPC) :
  total (ledger_at l tx pc) =
  match pc with
  | BCredit => sub (total l) (Amount tx)
  | BDepositDebit => add (total l) (Amount tx)
  | _ => total l
  end.
Proof.
  unfold total.
  destruct pc; cbn [ledger_at CustomerBalance BankBalance]; try reflexivity.
  - unfold add, sub. rewrite wrap_add_l, wrap_sub_l. f_equal. lia.
  - apply transfer_cancels.
  - unfold add. rewrite !wrap_add_l. f_equal. lia.
  - apply transfer_cancels'.
Qed.

Lemma delivered_submitted (s : State) (tx : Transaction) :
  reachable testChannelBased s -> In tx (delivered s) -> In tx submissions.
Proof.
  intros [es Hrun] Hin.
  pose proof (accounted_run es _ _ Hrun) as Hacc.
  change (delivered testChannelBased ++ waiting testChannelBased)
    with submissions in Hacc.
  apply (Permutation_in tx Hacc), in_or_app. left. exact Hin.
Qed.

(** In every state [testChannelBased] can reach, whatever the order in
    which the sends complete and wherever the worker is: the total of
    the ledger is 6000 less what is in flight. *)
Lemma testChannelBased_total (s : State) :
  reachable testChannelBased s ->
  total (ledger s) = 6000 - in_flight s.
Proof.
  intros Hreach. pose proof Hreach as [es Hrun].
  pose proof (serial_run initial_ledger es _ _ testChannelBased_serial Hrun) as Hser.
  unfold serial, in_flight in *.
  destruct (worker s) as [|tx pc|] eqn:Ew.
  - replace (ledger s) with (final initial_ledger (delivered s))
      by (unfold final; rewrite Hser; reflexivity).
    rewrite final_total. reflexivity.
  - destruct Hser as (done & Hd & _ & Hl & _).
    assert (Hin : In tx submissions).
    { apply (delivered_submitted s tx Hreach). rewrite Hd.
      apply in_or_app. right. left. reflexivity. }
    rewrite Hl, ledger_at_total, final_total.
    change (total initial_ledger) with 6000.
    destruct pc; try (rewrite Z.sub_0_r; reflexivity);
      simpl in Hin;
      destruct Hin as [<-|[<-|[<-|[<-|[]]]]]; reflexivity.
  - replace (ledger s) with (final initial_ledger (delivered s))
      by (unfold final; rewrite Hser; reflexivity).
    rewrite final_total. reflexivity.
Qed.

Lemma commits_printed_at (tx : Transaction) (pc : BodyPC) :
  commits (printed_at tx pc) = 0%nat.
Proof.
  destruct pc; cbn [printed_at]; try reflexivity;
    unfold announcement; destruct (String.eqb (Type_ tx) "deposit"); reflexivity.
Qed.

(** If four transactions have been reported complete the ledger is 900
    and 5100. *)
Lemma testChannelBased_ledger (s : State) :
  reachable testChannelBased s ->
  commits (out s) = 4%nat ->
  ledger s = {| CustomerBalance := 900; BankBalance := 5100 |}.
Proof.
  intros [es Hrun] Hc.
  pose proof (serial_run initial_ledger es _ _ testChannelBased_serial Hrun) as Hser.
  pose proof (accounted_run es _ _ Hrun) as Hacc.
  change (delivered testChannelBased ++ waiting testChannelBased)
    with submissions in Hacc.
  pose proof (Permutation_length Hacc) as Hn.
  rewrite length_app in Hn. cbn [submissions List.length] in Hn.
  assert (Hdone : transactionProcessor initial_ledger (delivered s) =
                  (ledger s, out s)).
  { unfold serial in Hser. destruct (worker s) as [|tx pc|]; try exact Hser.
    exfalso. destruct Hser as (done & Hd & _ & _ & Ho).
    pose proof (commits_le_length done initial_ledger) as Hle.
    rewrite Ho, commits_app, commits_printed_at, Nat.add_0_r in Hc.
    rewrite Hd, length_app in Hn. cbn [List.length] in Hn. lia. }
  assert (Hl : ledger s = final initial_ledger (delivered s))
    by (unfold final; rewrite Hdone; reflexivity).
  assert (Ho : out s = snd (transactionProcessor initial_ledger (delivered s)))
    by (rewrite Hdone; reflexivity).
  pose proof (commits_le_length (delivered s) initial_ledger) as Hle.
  rewrite <- Ho, Hc in Hle.
  assert (Hw : waiting s = []).
  { destruct (waiting s); [reflexivity | cbn [List.length] in Hn; lia]. }
  rewrite Hw, app_nil_r in Hacc.
  rewrite Hl. apply (submissions_any_order (delivered s) Hacc).
  rewrite <- Ho. exact Hc.
Qed.

Lemma run_source_order : run source_order testChannelBased = Some after_source_order.
Proof. reflexivity. Qed.

Lemma run_salary_first : run salary_first testChannelBased = Some after_salary_first.
Proof. reflexivity. Qed.

Lemma run_phone_announced :
  run [Send 0%nat; Work] testChannelBased = Some phone_announced.
Proof. reflexivity. Qed.

Lemma run_phone_debited :
  run ([Send 0%nat] ++ works 5) testChannelBased = Some phone_debited.
Proof. reflexivity. Qed.

(** *** The body runs to its end *)

Lemma fire_work (s : State) (tx : Transaction) (pc : BodyPC) :
  crashed s = false ->
  worker s = Processing tx pc ->
  fire Work s =
  Some {| ledger := fst (fst (step_body (ledger s) tx pc));
          closed := closed s;
          worker := next_worker tx (snd (step_body (ledger s) tx pc));
          producers := producers s;
          out := out s ++ snd (fst (step_body (ledger s) tx pc));
          delivered := delivered s;
          crashed := false |}.
Proof.
  intros Hc Hw. unfold fire. rewrite Hc, Hw.
  destruct (step_body (ledger s) tx pc) as [[l1 printed] next]. reflexivity.
Qed.

(** The number of statements from [pc] to the end of the body is at most
    the fuel [body_from] is given: from any point of the body the worker
    comes back to its receive, leaving everything but the ledger and the
    output as it is. *)
Lemma body_completes (fuel : nat) :
  forall (s : State) (tx : Transaction) (pc : BodyPC),
    crashed s = false ->
    worker s = Processing tx pc ->
    (match pc with
     | BAnnounce => 7 | BSleep => 6 | BType => 5 | BCheck => 4
     | BDebit | BDepositCredit => 3
     | BCredit | BDepositDebit => 2
     | BComplete | BFail | BDepositComplete => 1
     end <= fuel)%nat ->
    exists n s',
      (n <= fuel)%nat /\
      run (works n) s = Some s' /\
      worker s' = Receiving /\
      (ledger s', out s') =
      (fst (body_from fuel (ledger s) tx pc),
       out s ++ snd (body_from fuel (ledger s) tx pc)) /\
      closed s' = closed s /\ producers s' = producers s /\
      delivered s' = delivered s /\ crashed s' = false.
Proof.
  induction fuel as [|fuel IH]; intros s tx pc Hc Hw Hfuel.
  - destruct pc; lia.
  - pose proof (fire_work s tx pc Hc Hw) as Hfire.
    cbn [body_from].
    destruct (step_body (ledger s) tx pc) as [[l1 printed] next] eqn:Ep.
    cbn [fst snd] in Hfire.
    destruct next as [pc'|].
    + match type of Hfire with
      | _ = Some ?s1 =>
          destruct (IH s1 tx pc' eq_refl eq_refl)
            as (n & s' & Hn & Hrun & Hws & Hlo & H)
      end.
      { destruct pc; cbn [step_body] in Ep;
          repeat match type of Ep with
                 | context [if ?c then _ else _] => destruct c
                 end; try discriminate Ep; injection Ep as _ _ <-; lia. }
      cbn [ledger out closed producers delivered] in Hlo, H.
      exists (S n), s'. split; [lia|].
      split; [cbn [works repeat run]; rewrite Hfire; exact Hrun|].
      split; [exact Hws|]. split; [|exact H].
      rewrite Hlo. destruct (body_from fuel l1 tx pc') as [l2 printed2].
      cbn [fst snd]. rewrite app_assoc. reflexivity.
    + exists 1%nat. eexists. split; [lia|].
      split; [cbn [works repeat run]; rewrite Hfire; reflexivity|].
      cbn. repeat split.
Qed.

(** From any point of the body the worker is back at its receive after
    at most seven statements. *)
Lemma body_ends (s : State) (tx : Transaction) (pc : BodyPC) :
  crashed s = false ->
  worker s = Processing tx pc ->
  exists n s',
    (n <= 7)%nat /\
    run (works n) s = Some s' /\
    worker s' = Receiving /\
    closed s' = closed s /\ producers s' = producers s /\
    delivered s' = delivered s /\ crashed s' = false.
Proof.
  intros Hc Hw.
  destruct (body_completes 7 s tx pc Hc Hw) as (n & s' & Hn & Hrun & Hws & _ & H).
  { destruct pc; lia. }
  exists n, s'. auto.
Qed.

(** The transaction in work is completed as [transactionProcessor]
    completes it. *)
Lemma work_completes (l0 : Ledger) (s : State) (tx : Transaction) (pc : BodyPC) :
  serial l0 s ->
  crashed s = false ->
  worker s = Processing tx pc ->
  exists n s',
    (n <= 7)%nat /\
    run (works n) s = Some s' /\
    worker s' = Receiving /\
    transactionProcessor l0 (delivered s) = (ledger s', out s') /\
    producers s' = producers s.
Proof.
  intros Hser Hc Hw.
  destruct (body_ends s tx pc Hc Hw) as (n & s' & Hn & Hrun & Hws & _ & Hp & Hd & _).
  exists n, s'. repeat split; try assumption.
  pose proof (serial_run l0 _ _ _ Hser Hrun) as Hser'.
  unfold serial in Hser'. rewrite Hws, Hd in Hser'. exact Hser'.
Qed.

(** *** Nothing is lost and nothing is delivered twice *)

Lemma all_sent_waiting (s : State) : all_sent s = true -> waiting s = [].
Proof.
  unfold all_sent, waiting. induction (producers s) as [|p ps IH]; [reflexivity|].
  cbn [forallb flat_map]. intros H. apply andb_true_iff in H.
  destruct H as [Hp Hps]. destruct p; try discriminate. apply IH, Hps.
Qed.

Lemma delivered_once (s0 s : State) :
  reachable s0 s ->
  Permutation (delivered s ++ waiting s) (delivered s0 ++ waiting s0) /\
  (all_sent s = true -> Permutation (delivered s) (delivered s0 ++ waiting s0)).
Proof.
  intros [es Hrun]. pose proof (accounted_run es _ _ Hrun) as H.
  split; [exact H|]. intros Hall.
  rewrite (all_sent_waiting s Hall), app_nil_r in H. exact H.
Qed.

(** *** After the loop has ended *)

Lemma exited_closed_fire (e : Event) (s s' : State) :
  (worker s = Exited -> closed s = true) ->
  fire e s = Some s' ->
  (worker s' = Exited -> closed s' = true).
Proof.
  unfold fire. intros Hinv.
  destruct (crashed s); [discriminate|].
  destruct e as [i|i| | | |i].
  - destruct (nth_error (producers s) i) as [[tx|tx|]|]; try discriminate.
    intros H. injection H as <-. exact Hinv.
  - destruct (nth_error (producers s) i) as [[tx|tx|]|]; try discriminate.
    destruct (worker s); try discriminate.
    destruct (closed s); try discriminate.
    intros H. injection H as <-. cbn. discriminate.
  - destruct (worker s) as [|tx pc|]; try discriminate.
    destruct (step_body (ledger s) tx pc) as [[l1 printed] next].
    intros H. injection H as <-. cbn. destruct next; discriminate.
  - destruct (closed s); try discriminate.
    intros H. injection H as <-. reflexivity.
  - destruct (worker s); try discriminate.
    destruct (closed s); try discriminate.
    intros H. injection H as <-. reflexivity.
  - destruct (nth_error (producers s) i) as [[tx|tx|]|]; try discriminate.
    destruct (closed s); try discriminate.
    intros H. injection H as <-. reflexivity.
Qed.

Lemma exited_closed_run (es : list Event) :
  forall s s',
    (worker s = Exited -> closed s = true) ->
    run es s = Some s' ->
    (worker s' = Exited -> closed s' = true).
Proof.
  induction es as [|e es IH]; intros s s' Hinv H; simpl in H.
  - injection H as <-. exact Hinv.
  - destruct (fire e s) as [s1|] eqn:E; [|discriminate].
    apply (IH s1 s'); [|exact H]. apply (exited_closed_fire e s s1 Hinv E).
Qed.

(** Once the worker has left the loop nothing changes the ledger, the
    output or the transactions delivered. *)
Lemma exited_frozen (e : Event) (s s' : State) :
  worker s = Exited ->
  fire e s = Some s' ->
  worker s' = Exited /\ ledger s' = ledger s /\ out s' = out s /\
  delivered s' = delivered s.
Proof.
  unfold fire. intros Hw. rewrite Hw.
  destruct (crashed s); [discriminate|].
  destruct e as [i|i| | | |i].
  - destruct (nth_error (producers s) i) as [[tx|tx|]|]; try discriminate.
    intros H. injection H as <-. cbn. auto.
  - destruct (nth_error (producers s) i) as [[tx|tx|]|]; discriminate.
  - discriminate.
  - destruct (closed s); try discriminate.
    intros H. injection H as <-. cbn. auto.
  - discriminate.
  - destruct (nth_error (producers s) i) as [[tx|tx|]|]; try discriminate.
    destruct (closed s); try discriminate.
    intros H. injection H as <-. cbn. auto.
Qed.

Lemma exit_means_drained (s : State) :
  reachable testChannelBased s ->
  worker s = Exited ->
  closed s = true /\
  transactionProcessor initial_ledger (delivered s) = (ledger s, out s) /\
  (forall i, fire (Send i) s = None).
Proof.
  intros [es Hrun] Hw. split; [|split].
  - apply (exited_closed_run es testChannelBased s); [discriminate | exact Hrun | exact Hw].
  - pose proof (serial_run initial_ledger es _ _ testChannelBased_serial Hrun) as H.
    unfold serial in H. rewrite Hw in H. exact H.
  - intros i. apply send_needs_receiver. rewrite Hw. discriminate.
Qed.

(** *** Closing in time *)

Lemma forallb_nth_error {A : Type} (f : A -> bool) (l : list A) (i : nat) (x : A) :
  forallb f l = true -> nth_error l i = Some x -> f x = true.
Proof.
  intros H Hn. rewrite forallb_forall in H. apply H.
  eapply nth_error_In. exact Hn.
Qed.

Lemma orderly_fire (e : Event) (s s' : State) :
  orderly s ->
  match e with Close => all_sent s = true | _ => True end ->
  fire e s = Some s' ->
  orderly s'.
Proof.
  unfold orderly, fire, all_sent. intros [Hc Hinv] Htimely. rewrite Hc.
  destruct e as [i|i| | | |i].
  - destruct (nth_error (producers s) i) as [[tx|tx|]|] eqn:En; try discriminate.
    intros H. injection H as <-. cbn. split; [exact Hc|].
    intros Hcl. specialize (Hinv Hcl).
    pose proof (forallb_nth_error _ _ _ _ Hinv En). discriminate.
  - destruct (nth_error (producers s) i) as [[tx|tx|]|]; try discriminate.
    destruct (worker s); try discriminate.
    destruct (closed s); try discriminate.
    intros H. injection H as <-. cbn. split; [reflexivity | discriminate].
  - destruct (worker s) as [|tx pc|]; try discriminate.
    destruct (step_body (ledger s) tx pc) as [[l1 printed] next].
    intros H. injection H as <-. cbn. split; [reflexivity | exact Hinv].
  - destruct (closed s); try discriminate.
    intros H. injection H as <-. cbn. split; [reflexivity|]. intros _. exact Htimely.
  - destruct (worker s); try discriminate.
    destruct (closed s) eqn:Ecl; try discriminate.
    intros H. injection H as <-. cbn. split; [reflexivity|]. intros _. apply Hinv. reflexivity.
  - destruct (nth_error (producers s) i) as [[tx|tx|]|] eqn:En; try discriminate.
    destruct (closed s); try discriminate.
    specialize (Hinv eq_refl).
    pose proof (forallb_nth_error _ _ _ _ Hinv En). discriminate.
Qed.

Lemma timely_run (es : list Event) :
  forall s s',
    orderly s -> timely es s = true -> run es s = Some s' -> orderly s'.
Proof.
  induction es as [|e es IH]; intros s s' Ho Ht Hrun; simpl in Hrun.
  - injection Hrun as <-. exact Ho.
  - cbn [timely] in Ht. destruct (fire e s) as [s1|] eqn:E; [|discriminate].
    apply andb_true_iff in Ht. destruct Ht as [Ht1 Ht2].
    apply (IH s1 s'); [|exact Ht2|exact Hrun].
    apply (orderly_fire e s s1 Ho); [|exact E].
    destruct e; trivial.
Qed.

(** With the channel closed the worker ends its loop after the
    statements left of the transaction in work, at most seven, and the
    exit. *)
Lemma drains (s : State) :
  crashed s = false -> closed s = true ->
  exists es s',
    run es s = Some s' /\ worker s' = Exited /\ (List.length es <= 8)%nat /\
    crashed s' = false /\ producers s' = producers s.
Proof.
  intros Hc Hcl. destruct (worker s) as [|tx pc|] eqn:Hw.
  - exists [Exit]. eexists. split; [|split; [|split; [|split]]].
    + simpl. unfold fire. rewrite Hc, Hw, Hcl. reflexivity.
    + reflexivity.
    + simpl. lia.
    + reflexivity.
    + reflexivity.
  - destruct (body_ends s tx pc Hc Hw)
      as (n & s1 & Hn & Hrun & Hw1 & Hcl1 & Hp1 & _ & Hc1).
    exists (works n ++ [Exit]). eexists. split; [|split; [|split; [|split]]].
    + rewrite run_events_app, Hrun. simpl. unfold fire.
      rewrite Hc1, Hw1, Hcl1, Hcl. reflexivity.
    + reflexivity.
    + rewrite length_app. unfold works. rewrite repeat_length. simpl. lia.
    + reflexivity.
    + exact Hp1.
  - exists [], s. split; [reflexivity|]. split; [exact Hw|].
    split; [simpl; lia|]. split; [exact Hc | reflexivity].
Qed.

End ChannelFacts.

(** * The claims *)

(** C1 (conservation).  For [transactionProcessor] the total
    [CustomerBalance + BankBalance], as line 165 computes it, is the
    same after each transaction, committed or rejected, and so after any
    sequence.  For [withdrawMutex] and [deposit], in whatever order the
    goroutines run: when [wg.Wait()] returns, [balance] is the first
    balance plus the deposits reported successful minus the withdrawals
    reported successful, in the arithmetic of [int]; and [wg.Wait()]
    can return. *)
Theorem C1_conservation :
  (forall (ledger : Ledger) (tx : Transaction),
      Serial.total (fst (Serial.process ledger tx)) = Serial.total ledger) /\
  (forall (ledger : Ledger) (txs : list Transaction),
      Serial.total (Serial.final ledger txs) = Serial.total ledger) /\
  (forall (b0 : Z) (ts : list Pool.Thread) (s : Pool.State),
      in_range b0 ->
      Pool.spawned ts ->
      Pool.steps (Pool.start b0 ts) s ->
      Pool.wg (fst s) = 0 ->
      Pool.balance (fst s) =
      wrap (b0 + Pool.committed_deposits (Pool.out (fst s))
               - Pool.committed_withdrawals (Pool.out (fst s)))) /\
  (forall (b0 : Z) (ts : list Pool.Thread),
      in_range b0 ->
      Pool.spawned ts ->
      exists s, Pool.steps (Pool.start b0 ts) s /\ Pool.wg (fst s) = 0).
Proof.
  split; [|split; [|split]].
  - exact SerialFacts.process_total.
  - intros ledger txs. apply SerialFacts.final_total.
  - intros b0 ts s Hr Hsp Hsteps Hwg.
    apply (PoolFacts.final_balance b0 ts s Hr Hsp Hsteps Hwg).
  - exact PoolFacts.can_finish.
Qed.

Lemma C1_conservation_witness :
  Pool.balance (fst Pool.after_phone_first) = wrap (1000 + 0 - 700).
Proof.
  apply (proj1 (proj2 (proj2 C1_conservation)) 1000 (snd Pool.testMutex)
               Pool.after_phone_first).
  - apply in_range_bounds. lia.
  - repeat constructor.
  - apply (PoolFacts.run_steps Pool.phone_first). reflexivity.
  - reflexivity.
Defined.

(** C2 (non-negativity), as the program has it: the customer's balance
    ([CustomerBalance], [balance]) is never negative in a state reached
    from a non-negative balance with positive amounts, provided the
    first balance and all the deposits together do not exceed the
    largest [int]; a withdrawal is committed only if the balance covers
    the amount, and [withdrawMutex] writes [balance] while its
    comparison still holds. *)
Theorem C2_nonnegativity :
  (forall (ledger : Ledger) (txs : list Transaction) (n : nat),
      0 <= CustomerBalance ledger ->
      Forall (fun tx => 0 < Amount tx) txs ->
      CustomerBalance ledger + Serial.deposited txs <= int_max ->
      0 <= CustomerBalance (Serial.final ledger (firstn n txs))) /\
  (forall (ledger : Ledger) (tx : Transaction),
      Type_ tx = "withdrawal" ->
      Serial.commits (snd (Serial.process ledger tx)) = 1%nat ->
      Amount tx <= CustomerBalance ledger) /\
  (forall (b0 : Z) (ts : list Pool.Thread) (s : Pool.State),
      Pool.spawned ts ->
      Forall (fun t => 0 < Pool.amount_of t) ts ->
      0 <= b0 ->
      b0 + Pool.sumZ Pool.deposit_amount ts <= int_max ->
      Pool.steps (Pool.start b0 ts) s ->
      0 <= Pool.balance (fst s)) /\
  (forall (b0 : Z) (ts : list Pool.Thread) (s : Pool.State)
          (amount tmp : Z) (source : string),
      in_range b0 ->
      Pool.spawned ts ->
      Pool.steps (Pool.start b0 ts) s ->
      In (Pool.WithdrawMutex amount source (Pool.MStore tmp)) (snd s) ->
      tmp = Pool.balance (fst s) /\ amount <= Pool.balance (fst s)).
Proof.
  split; [|split; [|split]].
  - intros ledger txs n Hc Hpos Hmax.
    pose proof (SerialFacts.deposited_firstn n txs Hpos) as Hd.
    apply SerialFacts.final_customer_bounds.
    + exact Hc.
    + apply SerialFacts.Forall_firstn, Hpos.
    + lia.
  - exact SerialFacts.committed_withdrawal_covered.
  - intros b0 ts s. apply PoolFacts.balance_nonneg.
  - exact PoolFacts.commit_covered.
Qed.

Lemma C2_nonnegativity_witness :
  0 <= CustomerBalance (Serial.final Serial.initial_ledger (firstn 4 Serial.submissions)) /\
  Amount Serial.tx_phone <= CustomerBalance Serial.initial_ledger /\
  0 <= Pool.balance (fst Pool.after_phone_first) /\
  (1000 = Pool.balance (fst Pool.atm_at_store) /\
   500 <= Pool.balance (fst Pool.atm_at_store)).
Proof.
  destruct C2_nonnegativity as (H1 & H2 & H3 & H4). split; [|split; [|split]].
  - apply H1.
    + simpl. lia.
    + repeat constructor.
    + vm_compute. discriminate.
  - apply H2; reflexivity.
  - apply (H3 1000 (snd Pool.testMutex)).
    + repeat constructor.
    + repeat constructor.
    + lia.
    + vm_compute. discriminate.
    + apply (PoolFacts.run_steps Pool.phone_first). reflexivity.
  - apply (H4 1000 (snd Pool.testMutex) Pool.atm_at_store 500 1000
              "atm transaction").
    + apply in_range_bounds. lia.
    + repeat constructor.
    + apply (PoolFacts.run_steps [1; 1; 1; 1; 1; 1; 1]%nat). reflexivity.
    + right. left. reflexivity.
Defined.

(** C2, the claim without the bound on the deposits: a customer who
    holds the largest [int] and deposits 1 has a negative balance, in
    the ledger and in [balance]. *)
Lemma C2_overflow_counterexample :
  0 <= CustomerBalance Serial.full_ledger /\
  0 < Amount Serial.one_more /\
  CustomerBalance (Serial.final Serial.full_ledger [Serial.one_more]) = int_min /\
  0 <= Pool.balance Pool.full_account /\
  option_map Pool.balance
    (Pool.call Pool.full_account (Pool.Deposit 1 "refund" Pool.DAnnounce))
  = Some int_min /\
  int_min < 0.
Proof. repeat split; try reflexivity; discriminate. Qed.

(** C3 (at most one winner).  [testMutex] starts [withdrawMutex] of 700
    and of 500 on a balance of 1000.  In every interleaving the balance
    is never negative, and when [wg.Wait()] returns exactly one of the
    two withdrawals has succeeded, the other has failed, and the balance
    is 300 or 500.  Both outcomes occur, and every execution can be
    continued until [wg.Wait()] returns. *)
Theorem C3_one_winner :
  (forall s : Pool.State,
      Pool.steps Pool.testMutex s ->
      0 <= Pool.balance (fst s) /\
      (Pool.wg (fst s) = 0 ->
       (Pool.balance (fst s) = 300 \/ Pool.balance (fst s) = 500) /\
       Pool.successes (Pool.out (fst s)) = 1%nat /\
       Pool.failures (Pool.out (fst s)) = 1%nat)) /\
  (exists s, Pool.steps Pool.testMutex s /\
             Pool.wg (fst s) = 0 /\ Pool.balance (fst s) = 300) /\
  (exists s, Pool.steps Pool.testMutex s /\
             Pool.wg (fst s) = 0 /\ Pool.balance (fst s) = 500) /\
  (forall s : Pool.State,
      Pool.steps Pool.testMutex s ->
      exists s', Pool.steps s s' /\ Pool.wg (fst s') = 0).
Proof.
  split; [|split; [|split]].
  - exact PoolFacts.testMutex_contention.
  - exists Pool.after_phone_first. split; [|split; reflexivity].
    apply (PoolFacts.run_steps Pool.phone_first). reflexivity.
  - exists Pool.after_atm_first. split; [|split; reflexivity].
    apply (PoolFacts.run_steps Pool.atm_first). reflexivity.
  - intros s Hsteps.
    apply (PoolFacts.completes 1000 (Pool.total_rank (snd s))); [lia|].
    apply (PoolFacts.inv_steps 1000 Pool.testMutex); [|exact Hsteps].
    apply PoolFacts.inv_start; [apply in_range_bounds; lia | repeat constructor].
Qed.

Lemma C3_one_winner_witness :
  0 <= Pool.balance (fst Pool.after_atm_first) /\
  (Pool.wg (fst Pool.after_atm_first) = 0 ->
   (Pool.balance (fst Pool.after_atm_first) = 300 \/
    Pool.balance (fst Pool.after_atm_first) = 500) /\
   Pool.successes (Pool.out (fst Pool.after_atm_first)) = 1%nat /\
   Pool.failures (Pool.out (fst Pool.after_atm_first)) = 1%nat).
Proof.
  apply (proj1 C3_one_winner Pool.after_atm_first).
  apply (PoolFacts.run_steps Pool.atm_first). reflexivity.
Defined.

(** C4 (serialization), as the program has it.  The four transactions
    of [testChannelBased] are not all committed in the order of the
    source: the withdrawals of 500 and 400 are rejected and the ledger
    ends as 1800 and 4200.  Whatever the order in which they reach the
    worker, the total of the ledger is 6000 when the last of them has
    been processed, and the ledger ends as 900 and 5100 exactly when all
    four are committed.  In every state the program can reach the total
    is 6000 less what is in flight between a debit and a credit (lines
    78-79 and 86-87): it is 5300 while the phone transfer is between
    them. *)
Theorem C4_serialization :
  (forall txs : list Transaction,
      Permutation txs Serial.submissions ->
      Serial.total (Serial.final Serial.initial_ledger txs) = 6000 /\
      (Serial.commits
         (snd (Serial.transactionProcessor Serial.initial_ledger txs)) = 4%nat <->
       Serial.final Serial.initial_ledger txs =
       {| CustomerBalance := 900; BankBalance := 5100 |})) /\
  (forall s : Channel.State,
      Channel.reachable Channel.testChannelBased s ->
      Serial.total (Channel.ledger s) = 6000 - Channel.in_flight s /\
      (Serial.commits (Channel.out s) = 4%nat ->
       Channel.ledger s = {| CustomerBalance := 900; BankBalance := 5100 |})) /\
  (Channel.run ([Channel.Send 0%nat] ++ Channel.works 5) Channel.testChannelBased =
   Some Channel.phone_debited /\
   Serial.total (Channel.ledger Channel.phone_debited) = 5300) /\
  Channel.run Channel.source_order Channel.testChannelBased =
  Some Channel.after_source_order /\
  Serial.transactionProcessor Serial.initial_ledger Serial.submissions =
  ({| CustomerBalance := 1800; BankBalance := 4200 |},
   [ProcessingWithdrawal "Phone Transfer" 700 "CUST1001";
    WithdrawalComplete 300 5700;
    ProcessingWithdrawal "ATM Withdrawal" 500 "CUST1001";
    WithdrawalFailed "CUST1001";
    ProcessingWithdrawal "Online Purchase" 400 "CUST1001";
    WithdrawalFailed "CUST1001";
    ProcessingDeposit "Salary Deposit" 1500 "CUST1001";
    DepositComplete 1800 4200]).
Proof.
  split; [|split; [|split; [|split]]].
  - intros txs Hp. split.
    + apply (SerialFacts.submissions_any_order txs Hp).
    + apply (SerialFacts.all_commit_iff txs Hp).
  - intros s Hreach. split.
    + apply (ChannelFacts.testChannelBased_total s Hreach).
    + apply (ChannelFacts.testChannelBased_ledger s Hreach).
  - split; reflexivity.
  - reflexivity.
  - reflexivity.
Qed.

Lemma C4_serialization_witness :
  Serial.final Serial.initial_ledger Serial.salary_first =
  {| CustomerBalance := 900; BankBalance := 5100 |} /\
  Serial.total (Channel.ledger Channel.phone_debited) =
  6000 - Channel.in_flight Channel.phone_debited /\
  Channel.ledger Channel.after_salary_first =
  {| CustomerBalance := 900; BankBalance := 5100 |}.
Proof.
  destruct C4_serialization as (H1 & H2 & _). split; [|split].
  - apply (H1 Serial.salary_first).
    + apply (Permutation_cons_append
               [Serial.tx_phone; Serial.tx_atm; Serial.tx_online] Serial.tx_salary).
    + reflexivity.
  - apply (H2 Channel.phone_debited).
    exists ([Channel.Send 0%nat] ++ Channel.works 5). reflexivity.
  - apply (H2 Channel.after_salary_first).
    + exists Channel.salary_first. reflexivity.
    + reflexivity.
Defined.

(** C4, as stated: in the order of submission the four transactions are
    not all committed.  The withdrawals of 500 and 400 find 300 in the
    customer's balance and are rejected, the deposit comes last, and
    the ledger ends as 1800 and 4200, not as 900 and 5100. *)
Lemma C4_submission_order_counterexample :
  Serial.commits
    (snd (Serial.transactionProcessor Serial.initial_ledger Serial.submissions)) =
  2%nat /\
  Serial.rejections
    (snd (Serial.transactionProcessor Serial.initial_ledger Serial.submissions)) =
  2%nat /\
  Serial.final Serial.initial_ledger Serial.submissions =
  {| CustomerBalance := 1800; BankBalance := 4200 |} /\
  Serial.final Serial.initial_ledger Serial.submissions <>
  {| CustomerBalance := 900; BankBalance := 5100 |}.
Proof. repeat split. discriminate. Qed.

(** C5 (insufficient funds).  A withdrawal of more than the customer
    has is reported as failed and changes nothing else:
    [transactionProcessor] prints its two lines and leaves the ledger as
    it is; a call of [withdrawMutex] prints its three lines, leaves
    [balance] as it is, releases the mutex, calls [wg.Done()] and
    returns; and among the other goroutines of a test, in whatever order
    they run, a [withdrawMutex] that finds less than its amount at line
    181 never reaches lines 182 to 185, [balance] is what it found up to
    its [mu.Unlock()], and the failure is printed. *)
Theorem C5_insufficient_funds :
  (forall (ledger : Ledger) (tx : Transaction),
      Type_ tx = "withdrawal" ->
      CustomerBalance ledger < Amount tx ->
      Serial.process ledger tx =
      (ledger, [ProcessingWithdrawal (Source tx) (Amount tx) (CustomerID tx);
                WithdrawalFailed (CustomerID tx)])) /\
  (forall (g : Pool.Global) (amount : Z) (source : string),
      Pool.mu g = false ->
      0 < Pool.wg g ->
      Pool.balance g < amount ->
      Pool.call g (Pool.WithdrawMutex amount source Pool.MAttempt) =
      Some {| Pool.balance := Pool.balance g;
              Pool.mu := false;
              Pool.wg := Pool.wg g - 1;
              Pool.out := Pool.out g ++
                          [MutexAttempting source amount;
                           MutexAcquired source;
                           MutexFailed source amount] |}) /\
  (forall (b0 : Z) (ts : list Pool.Thread) (before after : list nat)
          (s s' : Pool.State) (i : nat) (amount : Z) (source : string),
      in_range b0 ->
      Pool.spawned ts ->
      Pool.run before (Pool.start b0 ts) = Some s ->
      nth_error (snd s) i = Some (Pool.WithdrawMutex amount source Pool.MCheck) ->
      Pool.balance (fst s) < amount ->
      Pool.run after s = Some s' ->
      exists pc,
        nth_error (snd s') i = Some (Pool.WithdrawMutex amount source pc) /\
        Pool.rejected (Pool.balance (fst s)) amount source (fst s') pc).
Proof.
  split; [|split].
  - exact SerialFacts.process_rejects.
  - exact PoolFacts.call_withdrawMutex_rejected.
  - exact PoolFacts.rejected_in_pool.
Qed.

Lemma C5_insufficient_funds_witness :
  Serial.process Serial.initial_ledger Serial.large_withdrawal =
  (Serial.initial_ledger,
   [ProcessingWithdrawal "ATM Withdrawal" 1200 "CUST1001";
    WithdrawalFailed "CUST1001"]) /\
  Pool.call Pool.thousand (Pool.WithdrawMutex 1200 "atm" Pool.MAttempt) =
  Some {| Pool.balance := 1000; Pool.mu := false; Pool.wg := 0;
          Pool.out := [MutexAttempting "atm" 1200; MutexAcquired "atm";
                       MutexFailed "atm" 1200] |} /\
  (exists pc,
      nth_error (snd Pool.after_atm_first) 0 =
      Some (Pool.WithdrawMutex 700 "phone transaction" pc) /\
      Pool.rejected 500 700 "phone transaction" (fst Pool.after_atm_first) pc).
Proof.
  destruct C5_insufficient_funds as (H1 & H2 & H3). split; [|split].
  - apply (H1 Serial.initial_ledger Serial.large_withdrawal).
    + reflexivity.
    + simpl. lia.
  - apply (H2 Pool.thousand 1200 "atm").
    + reflexivity.
    + simpl. lia.
    + simpl. lia.
  - apply (H3 1000 (snd Pool.testMutex) Pool.atm_then_phone_checks
              [0; 0; 0; 0]%nat Pool.phone_at_check Pool.after_atm_first 0%nat
              700 "phone transaction").
    + apply in_range_bounds. lia.
    + repeat constructor.
    + reflexivity.
    + reflexivity.
    + simpl. lia.
    + reflexivity.
Defined.

(** C6 (deposits).  [transactionProcessor] applies a transaction of
    type "deposit" without looking at the balances: the amount is added
    to [CustomerBalance] and subtracted from [BankBalance], and the
    deposit is reported complete. *)
Theorem C6_deposit_always_succeeds (ledger : Ledger) (tx : Transaction) :
  Type_ tx = "deposit" ->
  Serial.process ledger tx =
  ({| CustomerBalance := add (CustomerBalance ledger) (Amount tx);
      BankBalance     := sub (BankBalance ledger) (Amount tx) |},
   [ProcessingDeposit (Source tx) (Amount tx) (CustomerID tx);
    DepositComplete (add (CustomerBalance ledger) (Amount tx))
                    (sub (BankBalance ledger) (Amount tx))]).
Proof. apply SerialFacts.process_deposit. Qed.

Lemma C6_deposit_always_succeeds_witness :
  Serial.process Serial.initial_ledger Serial.large_deposit =
  ({| CustomerBalance := 7000; BankBalance := -1000 |},
   [ProcessingDeposit "Salary Deposit" 6000 "CUST1001";
    DepositComplete 7000 (-1000)]).
Proof.
  apply (C6_deposit_always_succeeds Serial.initial_ledger Serial.large_deposit).
  reflexivity.
Defined.

(** C7 (isolation), as the program has it.  Only [testChannelBased] has
    a ledger of its own: in every state it is the ledger of
    [transactionProcessor] on the transactions delivered on its channel,
    at the point of the loop body the worker has reached.
    [withdrawRace], [withdrawMutex] and [deposit] work on the one
    package level variable [balance]; the scenarios are kept apart by
    the assignment [balance = 1000] at the start of each, and only as
    far as the goroutines of the earlier scenarios have returned:
    whatever an earlier scenario left in [balance], the two withdrawals
    of [testMutex] end with 300 or 500 when the mutex is free and every
    earlier goroutine has returned at the start.  The program does not
    wait for its [withdrawRace] goroutines (lines 48-51 and 250-252):
    with one of them still in the sleep of line 33, [testMutex] can end
    with -200. *)
Theorem C7_balance_reset :
  (forall (prev : Pool.Global) (leftover : list Pool.Thread) (s : Pool.State),
      Pool.mu prev = false ->
      Forall (fun t => Pool.returned t = true) leftover ->
      Pool.steps (Pool.testMutex_entered prev leftover) s ->
      Pool.wg (fst s) = 0 ->
      Pool.balance (fst s) = 300 \/ Pool.balance (fst s) = 500) /\
  (Pool.run Pool.straggler_between
            (Pool.testMutex_entered Pool.thousand Pool.straggler) =
   Some Pool.after_straggler /\
   Pool.wg (fst Pool.after_straggler) = 0 /\
   Pool.balance (fst Pool.after_straggler) = -200) /\
  (forall s : Channel.State,
      Channel.reachable Channel.testChannelBased s ->
      match Channel.worker s with
      | Channel.Processing tx pc =>
          exists done,
            Channel.delivered s = done ++ [tx] /\
            Channel.ledger s =
            Channel.ledger_at (Serial.final Serial.initial_ledger done) tx pc
      | _ =>
          Channel.ledger s =
          Serial.final Serial.initial_ledger (Channel.delivered s)
      end).
Proof.
  split; [|split].
  - exact PoolFacts.testMutex_entered_any.
  - repeat split.
  - intros s [es Hrun].
    pose proof (ChannelFacts.serial_run Serial.initial_ledger es _ _
                  ChannelFacts.testChannelBased_serial Hrun) as H.
    unfold Channel.serial in H.
    destruct (Channel.worker s) as [|tx pc|].
    + unfold Serial.final. rewrite H. reflexivity.
    + destruct H as (done & Hd & _ & Hl & _). exists done. split; assumption.
    + unfold Serial.final. rewrite H. reflexivity.
Qed.

Lemma C7_balance_reset_witness :
  Pool.balance Pool.overdrawn = -200 /\
  (Pool.balance (fst Pool.after_entered_phone_first) = 300 \/
   Pool.balance (fst Pool.after_entered_phone_first) = 500).
Proof.
  split; [reflexivity|].
  apply (proj1 C7_balance_reset Pool.overdrawn (snd Pool.after_both_pass)).
  - reflexivity.
  - repeat constructor.
  - apply (PoolFacts.run_steps Pool.phone_first). reflexivity.
  - reflexivity.
Defined.

(** C7, as stated: [withdrawRace] has no ledger of its own.  Its write
    to [balance] is what [withdrawMutex] reads: next to
    [withdrawRace(700)] the call [withdrawMutex(500)] on a balance of
    1000 fails, alone it succeeds. *)
Lemma C7_shared_balance_counterexample :
  Pool.balance (fst Pool.mixed) = Pool.balance Pool.thousand /\
  Pool.run Pool.race_then_mutex Pool.mixed = Some Pool.after_race_then_mutex /\
  In (MutexFailed "atm" 500) (Pool.out (fst Pool.after_race_then_mutex)) /\
  Pool.call Pool.thousand (Pool.WithdrawMutex 500 "atm" Pool.MAttempt) =
  Some Pool.after_mutex_alone /\
  In (MutexSuccessful "atm" 500 500) (Pool.out Pool.after_mutex_alone).
Proof.
  repeat split; try reflexivity; simpl; auto 10.
Qed.

(** C8 (submission), as the program has it.  [txChan] has no buffer: the
    send of a producer completes exactly when the worker is at its
    receive and the channel is open; the transaction goes to the worker
    at that moment; while the worker is in the loop body a producer at
    its send stays there, whatever statement the worker executes; the
    worker is back at its receive after at most seven statements, with
    the transaction in work completed.  The worker processes the
    transactions in the order in which their sends completed: in every
    state the ledger and the output are those of [transactionProcessor]
    on the transactions delivered, or, with the last one in work, those
    of the transactions before it and of the statements of the body
    already executed on it. *)
Theorem C8_send_is_rendezvous :
  (forall (i : nat) (tx : Transaction) (s : Channel.State),
      Channel.crashed s = false ->
      nth_error (Channel.producers s) i = Some (Channel.Sending tx) ->
      ((exists s', Channel.fire (Channel.Send i) s = Some s') <->
       (Channel.worker s = Channel.Receiving /\ Channel.closed s = false))) /\
  (forall (i : nat) (s s' : Channel.State),
      Channel.fire (Channel.Send i) s = Some s' ->
      exists tx,
        nth_error (Channel.producers s) i = Some (Channel.Sending tx) /\
        Channel.worker s' = Channel.Processing tx Channel.BAnnounce /\
        Channel.delivered s' = Channel.delivered s ++ [tx]) /\
  (forall (i : nat) (tx tx' : Transaction) (pc : Channel.BodyPC)
          (e : Channel.Event) (s s' : Channel.State),
      Channel.worker s = Channel.Processing tx' pc ->
      nth_error (Channel.producers s) i = Some (Channel.Sending tx) ->
      Channel.fire e s = Some s' ->
      nth_error (Channel.producers s') i = Some (Channel.Sending tx)) /\
  (forall (s : Channel.State) (tx : Transaction) (pc : Channel.BodyPC),
      Channel.reachable Channel.testChannelBased s ->
      Channel.crashed s = false ->
      Channel.worker s = Channel.Processing tx pc ->
      exists n s',
        (n <= 7)%nat /\
        Channel.run (Channel.works n) s = Some s' /\
        Channel.worker s' = Channel.Receiving /\
        Serial.transactionProcessor Serial.initial_ledger (Channel.delivered s) =
        (Channel.ledger s', Channel.out s') /\
        Channel.producers s' = Channel.producers s) /\
  (forall s : Channel.State,
      Channel.reachable Channel.testChannelBased s ->
      exists done rest,
        Channel.delivered s = done ++ rest /\
        ((rest = [] /\
          (Channel.worker s = Channel.Receiving \/
           Channel.worker s = Channel.Exited) /\
          Serial.transactionProcessor Serial.initial_ledger done =
          (Channel.ledger s, Channel.out s)) \/
         (exists tx pc,
             rest = [tx] /\
             Channel.worker s = Channel.Processing tx pc /\
             Channel.in_body (Serial.final Serial.initial_ledger done) tx pc
             = true /\
             Channel.ledger s =
             Channel.ledger_at (Serial.final Serial.initial_ledger done) tx pc /\
             Channel.out s =
             snd (Serial.transactionProcessor Serial.initial_ledger done) ++
             Channel.printed_at tx pc))).
Proof.
  split; [|split; [|split; [|split]]].
  - intros i tx s Hc Hp. split.
    + intros [s' H].
      destruct (ChannelFacts.send_inversion i s s' H) as (tx' & _ & Hw & Hcl & _).
      split; assumption.
    + intros [Hw Hcl]. apply (ChannelFacts.send_enabled i tx); assumption.
  - intros i s s' H.
    destruct (ChannelFacts.send_inversion i s s' H)
      as (tx & Hp & _ & _ & Hw & Hd & _).
    exists tx. repeat split; assumption.
  - exact ChannelFacts.send_blocked.
  - intros s tx pc [es Hrun] Hc Hw.
    apply (ChannelFacts.work_completes Serial.initial_ledger s tx pc);
      [|exact Hc|exact Hw].
    apply (ChannelFacts.serial_run _ es Channel.testChannelBased);
      [apply ChannelFacts.testChannelBased_serial | exact Hrun].
  - intros s [es Hrun].
    apply ChannelFacts.processed_in_order.
    apply (ChannelFacts.serial_run _ es Channel.testChannelBased);
      [apply ChannelFacts.testChannelBased_serial | exact Hrun].
Qed.

Lemma C8_send_is_rendezvous_witness :
  ((exists s', Channel.fire (Channel.Send 0) Channel.testChannelBased = Some s') <->
   (Channel.worker Channel.testChannelBased = Channel.Receiving /\
    Channel.closed Channel.testChannelBased = false)) /\
  nth_error (Channel.producers Channel.phone_announced) 1 =
  Some (Channel.Sending Serial.tx_atm) /\
  (exists n s',
      (n <= 7)%nat /\
      Channel.run (Channel.works n) Channel.phone_debited = Some s' /\
      Channel.worker s' = Channel.Receiving /\
      Serial.transactionProcessor Serial.initial_ledger
        (Channel.delivered Channel.phone_debited) =
      (Channel.ledger s', Channel.out s') /\
      Channel.producers s' = Channel.producers Channel.phone_debited).
Proof.
  destruct C8_send_is_rendezvous as (H1 & _ & H3 & H4 & _). split; [|split].
  - apply (H1 0%nat Serial.tx_phone Channel.testChannelBased); reflexivity.
  - apply (H3 1%nat Serial.tx_atm Serial.tx_phone Channel.BAnnounce Channel.Work
              Channel.phone_in_work Channel.phone_announced).
    + reflexivity.
    + reflexivity.
    + reflexivity.
  - apply (H4 Channel.phone_debited Serial.tx_phone Channel.BCredit).
    + exists ([Channel.Send 0%nat] ++ Channel.works 5). reflexivity.
    + reflexivity.
    + reflexivity.
Defined.

(** C8, as stated: a send can block.  After the phone transfer has been
    handed over the worker is in the loop body, and the producer of the
    ATM withdrawal, which is at its send, cannot complete it: not when
    the worker is about to announce the transfer, and not when the
    transfer has been announced and the worker sleeps at line 73. *)
Lemma C8_send_blocks_counterexample :
  Channel.run [Channel.Send 0%nat] Channel.testChannelBased =
  Some Channel.phone_in_work /\
  nth_error (Channel.producers Channel.phone_in_work) 1 =
  Some (Channel.Sending Serial.tx_atm) /\
  Channel.fire (Channel.Send 1) Channel.phone_in_work = None /\
  Channel.run [Channel.Send 0%nat; Channel.Work] Channel.testChannelBased =
  Some Channel.phone_announced /\
  Channel.fire (Channel.Send 1) Channel.phone_announced = None.
Proof. repeat split. Qed.

(** C10 (the bank's balance).  A deposit subtracts its amount from
    [BankBalance] whatever the balance is; deposits of more than the
    bank has leave [BankBalance] negative, as the deposit of 6000 on the
    ledger of 1000 and 5000 does, while the customer's balance stays
    non-negative. *)
Theorem C10_bank_balance_unguarded :
  (forall (ledger : Ledger) (tx : Transaction),
      Type_ tx = "deposit" ->
      BankBalance (fst (Serial.process ledger tx)) =
      sub (BankBalance ledger) (Amount tx)) /\
  (forall (ledger : Ledger) (txs : list Transaction),
      Forall (fun tx => Serial.is_deposit tx = true) txs ->
      in_range (CustomerBalance ledger) ->
      in_range (BankBalance ledger) ->
      in_range (BankBalance ledger - Serial.deposited txs) ->
      BankBalance ledger < Serial.deposited txs ->
      BankBalance (Serial.final ledger txs) < 0) /\
  (0 <= CustomerBalance Serial.initial_ledger /\
   0 <= BankBalance Serial.initial_ledger /\
   0 < Amount Serial.large_deposit /\
   Serial.final Serial.initial_ledger [Serial.large_deposit] =
   {| CustomerBalance := 7000; BankBalance := -1000 |}).
Proof.
  split; [|split].
  - intros ledger tx Hty. rewrite SerialFacts.process_deposit by assumption.
    reflexivity.
  - exact SerialFacts.deposits_overdraw_bank.
  - repeat split; try reflexivity; simpl; lia.
Qed.

Lemma C10_bank_balance_unguarded_witness :
  BankBalance (fst (Serial.process Serial.initial_ledger Serial.large_deposit)) =
  sub 5000 6000 /\
  BankBalance (Serial.final Serial.initial_ledger [Serial.large_deposit]) < 0.
Proof.
  destruct C10_bank_balance_unguarded as (H1 & H2 & _). split.
  - apply (H1 Serial.initial_ledger Serial.large_deposit). reflexivity.
  - apply H2.
    + repeat constructor.
    + apply in_range_bounds. simpl. lia.
    + apply in_range_bounds. simpl. lia.
    + apply in_range_bounds. simpl. lia.
    + simpl. lia.
Defined.

(** * Further properties of the program *)

(** ** [transactionProcessor] *)

(** X2.  A transaction whose type is neither "withdrawal" nor "deposit"
    (the comparison is by the exact string) is announced as a withdrawal
    and then ignored: the ledger stays as it is and no result is
    printed.  Leaving such transactions out of a sequence changes
    neither the final ledger nor the numbers of commits and
    rejections. *)
Theorem X2_unknown_type_ignored :
  (forall (ledger : Ledger) (tx : Transaction),
      Serial.known tx = false ->
      Serial.process ledger tx =
      (ledger, [ProcessingWithdrawal (Source tx) (Amount tx) (CustomerID tx)])) /\
  (forall (ledger : Ledger) (txs : list Transaction),
      Serial.final ledger (filter Serial.known txs) = Serial.final ledger txs /\
      Serial.commits
        (snd (Serial.transactionProcessor ledger (filter Serial.known txs))) =
      Serial.commits (snd (Serial.transactionProcessor ledger txs)) /\
      Serial.rejections
        (snd (Serial.transactionProcessor ledger (filter Serial.known txs))) =
      Serial.rejections (snd (Serial.transactionProcessor ledger txs))).
Proof.
  split.
  - exact SerialFacts.process_unknown.
  - intros ledger txs. split.
    + apply SerialFacts.final_known.
    + apply SerialFacts.commits_known.
Qed.

Lemma X2_unknown_type_ignored_witness :
  Serial.process Serial.initial_ledger Serial.capital_deposit =
  (Serial.initial_ledger,
   [ProcessingWithdrawal "Salary Deposit" 1500 "CUST1001"]).
Proof.
  apply (proj1 X2_unknown_type_ignored Serial.initial_ledger Serial.capital_deposit).
  reflexivity.
Defined.

(** X3.  For every sequence the output has one announcing line per
    transaction and one result line (complete or failed) per transaction
    of a known type, and nothing else. *)
Theorem X3_output_lines (ledger : Ledger) (txs : list Transaction) :
  Serial.announces (snd (Serial.transactionProcessor ledger txs)) =
  List.length txs /\
  (Serial.commits (snd (Serial.transactionProcessor ledger txs)) +
   Serial.rejections (snd (Serial.transactionProcessor ledger txs)))%nat =
  List.length (filter Serial.known txs) /\
  List.length (snd (Serial.transactionProcessor ledger txs)) =
  (List.length txs + List.length (filter Serial.known txs))%nat.
Proof. apply SerialFacts.output_lines. Qed.

(** X4.  Amounts are not checked.  A withdrawal of a negative amount on a
    non-negative balance always passes the comparison of line 77 and is
    reported complete, with the amount subtracted from the customer's
    balance in the arithmetic of [int].  When the balance less the
    amount does not exceed the largest [int] it raises the customer's
    balance by the amount, as the deposit of the opposite amount does;
    beyond that the subtraction wraps around: the withdrawal of the
    smallest [int] on a balance of 0 is reported complete and leaves the
    smallest [int] as the customer's balance. *)
Theorem X4_negative_withdrawal_credits :
  (forall (ledger : Ledger) (tx : Transaction),
      Type_ tx = "withdrawal" ->
      Amount tx < 0 ->
      0 <= CustomerBalance ledger ->
      Serial.commits (snd (Serial.process ledger tx)) = 1%nat /\
      fst (Serial.process ledger tx) =
      {| CustomerBalance := sub (CustomerBalance ledger) (Amount tx);
         BankBalance := add (BankBalance ledger) (Amount tx) |}) /\
  (forall (ledger : Ledger) (tx : Transaction),
      Type_ tx = "withdrawal" ->
      Amount tx < 0 ->
      0 <= CustomerBalance ledger ->
      CustomerBalance ledger - Amount tx <= int_max ->
      CustomerBalance (fst (Serial.process ledger tx)) =
      CustomerBalance ledger - Amount tx /\
      CustomerBalance ledger < CustomerBalance (fst (Serial.process ledger tx)) /\
      fst (Serial.process ledger tx) =
      fst (Serial.process ledger (Serial.as_deposit (- Amount tx) tx))) /\
  (Serial.commits (snd (Serial.process Serial.penniless Serial.min_withdrawal)) =
   1%nat /\
   CustomerBalance (fst (Serial.process Serial.penniless Serial.min_withdrawal)) =
   int_min).
Proof.
  split; [|split].
  - exact SerialFacts.negative_withdrawal_commits.
  - intros ledger tx Hty Ha Hc Hmax.
    apply (SerialFacts.negative_withdrawal_credits ledger tx Hty Ha Hc Hmax).
  - split; reflexivity.
Qed.

Lemma X4_negative_withdrawal_credits_witness :
  CustomerBalance
    (fst (Serial.process Serial.initial_ledger Serial.negative_withdrawal)) =
  1000 - -250.
Proof.
  apply (proj1 (proj2 X4_negative_withdrawal_credits) Serial.initial_ledger
               Serial.negative_withdrawal).
  - reflexivity.
  - simpl. lia.
  - simpl. lia.
  - vm_compute. discriminate.
Defined.

(** X5.  A deposit has no comparison at all: a deposit of a negative
    amount larger than the balance is reported complete and leaves the
    customer's balance negative. *)
Theorem X5_negative_deposit_overdraws (ledger : Ledger) (tx : Transaction) :
  Type_ tx = "deposit" ->
  int_min <= CustomerBalance ledger + Amount tx ->
  CustomerBalance ledger + Amount tx < 0 ->
  Serial.commits (snd (Serial.process ledger tx)) = 1%nat /\
  CustomerBalance (fst (Serial.process ledger tx)) =
  CustomerBalance ledger + Amount tx /\
  CustomerBalance (fst (Serial.process ledger tx)) < 0.
Proof. apply SerialFacts.negative_deposit_overdraws. Qed.

Lemma X5_negative_deposit_overdraws_witness :
  CustomerBalance
    (fst (Serial.process Serial.initial_ledger Serial.negative_deposit)) < 0.
Proof.
  apply (X5_negative_deposit_overdraws Serial.initial_ledger
                                       Serial.negative_deposit).
  - reflexivity.
  - vm_compute. discriminate.
  - simpl. lia.
Defined.

(** X6.  When every transaction of a sequence is committed, and every
    transaction of a reordering of it too, both end with the same
    ledger: the order matters only through the rejections. *)
Theorem X6_committed_any_order (ledger : Ledger) (xs ys : list Transaction) :
  in_range (CustomerBalance ledger) ->
  in_range (BankBalance ledger) ->
  Permutation xs ys ->
  Serial.commits (snd (Serial.transactionProcessor ledger xs)) = List.length xs ->
  Serial.commits (snd (Serial.transactionProcessor ledger ys)) = List.length ys ->
  Serial.final ledger xs = Serial.final ledger ys.
Proof. apply SerialFacts.committed_any_order. Qed.

Lemma X6_committed_any_order_witness :
  Serial.final Serial.initial_ledger Serial.salary_first =
  Serial.final Serial.initial_ledger Serial.salary_then_atm.
Proof.
  apply X6_committed_any_order.
  - apply in_range_bounds. simpl. lia.
  - apply in_range_bounds. simpl. lia.
  - apply perm_skip, perm_swap.
  - reflexivity.
  - reflexivity.
Defined.

(** X7.  The four transactions of [testChannelBased]: whatever the order
    in which they reach the worker, the ledger ends as one of 900/5100,
    1300/4700, 1400/4600, 1600/4400 and 1800/4200, and each of these is
    the result of some order. *)
Theorem X7_final_ledgers :
  (forall txs : list Transaction,
      Permutation txs Serial.submissions ->
      In (Serial.final Serial.initial_ledger txs) Serial.final_ledgers) /\
  (forall ledger : Ledger,
      In ledger Serial.final_ledgers ->
      exists txs, Permutation txs Serial.submissions /\
                  Serial.final Serial.initial_ledger txs = ledger).
Proof. exact SerialFacts.submissions_final_ledgers. Qed.

Lemma X7_final_ledgers_witness :
  In (Serial.final Serial.initial_ledger Serial.salary_first)
     Serial.final_ledgers.
Proof.
  apply (proj1 X7_final_ledgers).
  apply (Permutation_cons_append
           [Serial.tx_phone; Serial.tx_atm; Serial.tx_online] Serial.tx_salary).
Defined.

(** ** The channel of [testChannelBased] *)

(** X8.  No transaction is lost and none is delivered twice: in every
    state the transactions delivered together with those the producers
    still hold are the transactions of the first state, and once every
    producer has completed its send the transactions delivered are
    exactly those. *)
Theorem X8_delivered_once (s0 s : Channel.State) :
  Channel.reachable s0 s ->
  Permutation (Channel.delivered s ++ Channel.waiting s)
              (Channel.delivered s0 ++ Channel.waiting s0) /\
  (Channel.all_sent s = true ->
   Permutation (Channel.delivered s)
               (Channel.delivered s0 ++ Channel.waiting s0)).
Proof. apply ChannelFacts.delivered_once. Qed.

Lemma X8_delivered_once_witness :
  Permutation (Channel.delivered Channel.after_salary_first) Serial.submissions.
Proof.
  apply (X8_delivered_once Channel.testChannelBased Channel.after_salary_first).
  - exists Channel.salary_first. reflexivity.
  - reflexivity.
Defined.

(** X9.  The worker of [testChannelBased] leaves its loop only after
    [close(txChan)]; it has then processed every transaction delivered,
    in the order of delivery, and no send can complete any more; nothing
    that happens later changes the ledger or the output. *)
Theorem X9_exit_means_drained :
  (forall s : Channel.State,
      Channel.reachable Channel.testChannelBased s ->
      Channel.worker s = Channel.Exited ->
      Channel.closed s = true /\
      Serial.transactionProcessor Serial.initial_ledger (Channel.delivered s) =
      (Channel.ledger s, Channel.out s) /\
      (forall i, Channel.fire (Channel.Send i) s = None)) /\
  (forall (e : Channel.Event) (s s' : Channel.State),
      Channel.worker s = Channel.Exited ->
      Channel.fire e s = Some s' ->
      Channel.worker s' = Channel.Exited /\
      Channel.ledger s' = Channel.ledger s /\
      Channel.out s' = Channel.out s /\
      Channel.delivered s' = Channel.delivered s).
Proof.
  split.
  - exact ChannelFacts.exit_means_drained.
  - exact ChannelFacts.exited_frozen.
Qed.

Lemma X9_exit_means_drained_witness :
  Channel.closed Channel.after_source_order = true /\
  Serial.transactionProcessor Serial.initial_ledger
    (Channel.delivered Channel.after_source_order) =
  (Channel.ledger Channel.after_source_order,
   Channel.out Channel.after_source_order) /\
  (forall i, Channel.fire (Channel.Send i) Channel.after_source_order = None).
Proof.
  apply (proj1 X9_exit_means_drained Channel.after_source_order).
  - exists Channel.source_order. reflexivity.
  - reflexivity.
Defined.

(** X10.  When [close(txChan)] is executed only after every producer has
    completed its send (what the sleep of line 156 waits for), no send
    meets the closed channel: the program is never stopped, and from the
    state after the close the worker ends its loop after the statements
    left of the transaction in work, at most seven, and the exit.
    Closed earlier, the channel stops the program at the next send. *)
Theorem X10_timely_close :
  (forall (es : list Channel.Event) (s : Channel.State),
      Channel.run es Channel.testChannelBased = Some s ->
      Channel.timely es Channel.testChannelBased = true ->
      Channel.crashed s = false /\
      (Channel.closed s = true -> Channel.all_sent s = true)) /\
  (forall s : Channel.State,
      Channel.crashed s = false ->
      Channel.closed s = true ->
      exists es s',
        Channel.run es s = Some s' /\
        Channel.worker s' = Channel.Exited /\
        (List.length es <= 8)%nat /\
        Channel.crashed s' = false /\
        Channel.producers s' = Channel.producers s) /\
  Channel.run Channel.early_close Channel.testChannelBased =
  Some Channel.crashed_early.
Proof.
  split; [|split].
  - intros es s Hrun Ht.
    apply (ChannelFacts.timely_run es Channel.testChannelBased s);
      [split; [reflexivity | discriminate] | exact Ht | exact Hrun].
  - exact ChannelFacts.drains.
  - reflexivity.
Qed.

Lemma X10_timely_close_witness :
  Channel.crashed Channel.after_source_order = false /\
  (Channel.closed Channel.after_source_order = true ->
   Channel.all_sent Channel.after_source_order = true).
Proof.
  apply (proj1 X10_timely_close Channel.source_order).
  - reflexivity.
  - reflexivity.
Defined.

(** ** [withdrawRace], [withdrawMutex] and [deposit] *)

(** X11.  Mutual exclusion.  In every state of a test that starts
    [withdrawMutex] and [deposit] goroutines, in whatever order they
    run, no two goroutines are between [mu.Lock()] and [mu.Unlock()] at
    once, and the mutex is locked exactly when one is. *)
Theorem X11_mutual_exclusion
        (b0 : Z) (ts : list Pool.Thread) (s : Pool.State) :
  in_range b0 ->
  Pool.spawned ts ->
  Pool.steps (Pool.start b0 ts) s ->
  (forall (i j : nat) (ti tj : Pool.Thread),
      i <> j ->
      nth_error (snd s) i = Some ti ->
      nth_error (snd s) j = Some tj ->
      Pool.holds ti = true -> Pool.holds tj = false) /\
  (Pool.mu (fst s) = true <->
   exists t, In t (snd s) /\ Pool.holds t = true).
Proof.
  intros Hr Hsp Hsteps.
  pose proof (PoolFacts.reachable_inv b0 ts s Hr Hsp Hsteps) as Hinv.
  split.
  - intros i j ti tj. destruct s as [g ts'].
    apply (PoolFacts.mutual_exclusion b0 g ts' i j ti tj Hinv).
  - apply (PoolFacts.locked_iff_held b0 s Hinv).
Qed.

Lemma X11_mutual_exclusion_witness :
  Pool.mu (fst Pool.phone_at_check) = true <->
  exists t, In t (snd Pool.phone_at_check) /\ Pool.holds t = true.
Proof.
  apply (X11_mutual_exclusion 1000 (snd Pool.testMutex) Pool.phone_at_check).
  - apply GoIntFacts.in_range_bounds. lia.
  - repeat constructor.
  - apply (PoolFacts.run_steps Pool.atm_then_phone_checks). reflexivity.
Defined.

(** X12.  No deadlock and no fault of the runtime.  In every state of
    such a test a goroutine that has not returned can execute its next
    statement, unless it is at [mu.Lock()] while another holds the
    mutex: no [mu.Unlock()] finds the mutex unlocked and no [wg.Done()]
    finds the counter at zero.  And while the counter of the WaitGroup
    is not zero some goroutine can execute its next statement. *)
Theorem X12_no_deadlock (b0 : Z) (ts : list Pool.Thread) (s : Pool.State) :
  in_range b0 ->
  Pool.spawned ts ->
  Pool.steps (Pool.start b0 ts) s ->
  (forall t : Pool.Thread,
      In t (snd s) ->
      Pool.returned t = false ->
      (exists g' t', Pool.tstep (fst s) t = Some (g', t')) \/
      (Pool.at_lock t = true /\ Pool.mu (fst s) = true)) /\
  (Pool.wg (fst s) <> 0 -> exists s', Pool.step s s').
Proof.
  intros Hr Hsp Hsteps.
  pose proof (PoolFacts.reachable_inv b0 ts s Hr Hsp Hsteps) as Hinv.
  split.
  - intros t. apply (PoolFacts.no_fault b0 s t Hinv).
  - apply (PoolFacts.progress b0 s Hinv).
Qed.

Lemma X12_no_deadlock_witness : exists s', Pool.step Pool.phone_at_check s'.
Proof.
  apply (X12_no_deadlock 1000 (snd Pool.testMutex) Pool.phone_at_check).
  - apply GoIntFacts.in_range_bounds. lia.
  - repeat constructor.
  - apply (PoolFacts.run_steps Pool.atm_then_phone_checks). reflexivity.
  - discriminate.
Defined.

(** X13.  The join.  In every state of such a test the counter of the
    WaitGroup is not negative; it is zero exactly when every goroutine
    has returned, and the mutex is then free. *)
Theorem X13_join (b0 : Z) (ts : list Pool.Thread) (s : Pool.State) :
  in_range b0 ->
  Pool.spawned ts ->
  Pool.steps (Pool.start b0 ts) s ->
  (Pool.wg (fst s) = 0 <->
   Forall (fun t => Pool.returned t = true) (snd s)) /\
  (Pool.wg (fst s) = 0 -> Pool.mu (fst s) = false) /\
  0 <= Pool.wg (fst s).
Proof.
  intros Hr Hsp Hsteps.
  apply (PoolFacts.join b0 s), (PoolFacts.reachable_inv b0 ts s Hr Hsp Hsteps).
Qed.

Lemma X13_join_witness :
  (Pool.wg (fst Pool.after_phone_first) = 0 <->
   Forall (fun t => Pool.returned t = true) (snd Pool.after_phone_first)) /\
  (Pool.wg (fst Pool.after_phone_first) = 0 ->
   Pool.mu (fst Pool.after_phone_first) = false) /\
  0 <= Pool.wg (fst Pool.after_phone_first).
Proof.
  apply (X13_join 1000 (snd Pool.testMutex) Pool.after_phone_first).
  - apply GoIntFacts.in_range_bounds. lia.
  - repeat constructor.
  - apply (PoolFacts.run_steps Pool.phone_first). reflexivity.
Defined.

(** X14.  Every execution ends.  A schedule of [n] goroutines has at
    most [11 * n] steps: a [withdrawMutex] executes at most 11
    statements, a [deposit] 9 and a [withdrawRace] 6. *)
Theorem X14_execution_length
        (g : Pool.Global) (ts : list Pool.Thread)
        (schedule : list nat) (s : Pool.State) :
  Pool.run schedule (g, ts) = Some s ->
  (List.length schedule <= Pool.total_rank ts)%nat /\
  (Pool.total_rank ts <= 11 * List.length ts)%nat.
Proof.
  intros Hrun. split.
  - pose proof (PoolFacts.run_rank schedule (g, ts) s Hrun) as H.
    cbn [snd] in H. lia.
  - apply PoolFacts.total_rank_bound.
Qed.

Lemma X14_execution_length_witness :
  (List.length Pool.phone_first <= Pool.total_rank (snd Pool.testMutex))%nat /\
  (Pool.total_rank (snd Pool.testMutex) <= 11 * List.length (snd Pool.testMutex))%nat.
Proof.
  apply (X14_execution_length (fst Pool.testMutex) (snd Pool.testMutex)
                              Pool.phone_first Pool.after_phone_first).
  reflexivity.
Defined.

(** X15.  Deposits always go through.  At the end of a test of positive
    amounts, started on a non-negative balance that has room for all the
    deposits: every deposit has been reported successful, the
    withdrawals reported successful are at most all of them, and the
    balance is the first balance plus all the deposits minus the
    withdrawals reported successful, exactly. *)
Theorem X15_deposits_always_commit
        (b0 : Z) (ts : list Pool.Thread) (s : Pool.State) :
  Pool.spawned ts ->
  Forall (fun t => 0 < Pool.amount_of t) ts ->
  0 <= b0 ->
  b0 + Pool.sumZ Pool.deposit_amount ts <= int_max ->
  Pool.steps (Pool.start b0 ts) s ->
  Pool.wg (fst s) = 0 ->
  Pool.committed_deposits (Pool.out (fst s)) =
  Pool.sumZ Pool.deposit_amount ts /\
  0 <= Pool.committed_withdrawals (Pool.out (fst s))
    <= Pool.sumZ Pool.withdrawal_amount ts /\
  Pool.balance (fst s) =
  b0 + Pool.sumZ Pool.deposit_amount ts
     - Pool.committed_withdrawals (Pool.out (fst s)).
Proof. apply PoolFacts.final_balance_bounds. Qed.

Lemma X15_deposits_always_commit_witness :
  Pool.committed_deposits (Pool.out (fst Pool.after_deposits_first)) = 1200 /\
  0 <= Pool.committed_withdrawals (Pool.out (fst Pool.after_deposits_first))
    <= 400 /\
  Pool.balance (fst Pool.after_deposits_first) =
  300 + 1200 - Pool.committed_withdrawals (Pool.out (fst Pool.after_deposits_first)).
Proof.
  apply (X15_deposits_always_commit 300 Pool.bonus_pool Pool.after_deposits_first).
  - repeat constructor.
  - repeat constructor.
  - lia.
  - vm_compute. discriminate.
  - apply (PoolFacts.run_steps Pool.deposits_first). reflexivity.
  - reflexivity.
Defined.

(** X16.  [withdrawMutex] called with the mutex free, the counter
    positive and no more than the balance: it returns, with the amount
    taken from [balance], the mutex free again, the counter one less and
    its four lines printed. *)
Theorem X16_call_withdrawMutex_commits
        (g : Pool.Global) (amount : Z) (source : string) :
  Pool.mu g = false ->
  0 < Pool.wg g ->
  amount <= Pool.balance g ->
  Pool.call g (Pool.WithdrawMutex amount source Pool.MAttempt) =
  Some {| Pool.balance := sub (Pool.balance g) amount;
          Pool.mu := false;
          Pool.wg := Pool.wg g - 1;
          Pool.out := Pool.out g ++
                      [MutexAttempting source amount;
                       MutexAcquired source;
                       MutexWithdrawing source amount;
                       MutexSuccessful source amount
                                       (sub (Pool.balance g) amount)] |}.
Proof. apply PoolFacts.call_withdrawMutex_committed. Qed.

Lemma X16_call_withdrawMutex_commits_witness :
  Pool.call Pool.thousand (Pool.WithdrawMutex 500 "atm" Pool.MAttempt) =
  Some Pool.after_mutex_alone.
Proof.
  apply (X16_call_withdrawMutex_commits Pool.thousand 500 "atm").
  - reflexivity.
  - simpl. lia.
  - simpl. lia.
Defined.

(** X17.  [deposit] called with the mutex free and the counter positive:
    it returns, with the amount added to [balance] without any
    comparison, the mutex free again, the counter one less and its three
    lines printed. *)
Theorem X17_call_deposit (g : Pool.Global) (amount : Z) (source : string) :
  Pool.mu g = false ->
  0 < Pool.wg g ->
  Pool.call g (Pool.Deposit amount source Pool.DAnnounce) =
  Some {| Pool.balance := add (Pool.balance g) amount;
          Pool.mu := false;
          Pool.wg := Pool.wg g - 1;
          Pool.out := Pool.out g ++
                      [DepositDepositing source amount;
                       DepositAcquired source;
                       DepositSuccessful source amount
                                         (add (Pool.balance g) amount)] |}.
Proof. apply PoolFacts.call_deposit. Qed.

Lemma X17_call_deposit_witness :
  Pool.call Pool.thousand (Pool.Deposit 200 "refund" Pool.DAnnounce) =
  Some {| Pool.balance := 1200; Pool.mu := false; Pool.wg := 0;
          Pool.out := [DepositDepositing "refund" 200;
                       DepositAcquired "refund";
                       DepositSuccessful "refund" 200 1200] |}.
Proof.
  apply (X17_call_deposit Pool.thousand 200 "refund").
  - reflexivity.
  - simpl. lia.
Defined.

(** X18.  [withdrawRace] with nothing running beside it is correct: it
    takes the amount from [balance] and reports success when the balance
    covers it, and otherwise reports the failure and leaves [balance] as
    it is; it touches neither the mutex nor a WaitGroup. *)
Theorem X18_call_withdrawRace (g : Pool.Global) (amount : Z) (source : string) :
  Pool.call g (Pool.WithdrawRace amount source Pool.RaceCheck) =
  Some (if Pool.balance g >=? amount
        then {| Pool.balance := sub (Pool.balance g) amount;
                Pool.mu := Pool.mu g;
                Pool.wg := Pool.wg g;
                Pool.out := Pool.out g ++
                            [RaceWithdrawing source amount;
                             RaceSuccessful source amount
                                            (sub (Pool.balance g) amount)] |}
        else {| Pool.balance := Pool.balance g;
                Pool.mu := Pool.mu g;
                Pool.wg := Pool.wg g;
                Pool.out := Pool.out g ++ [RaceFailed source amount] |}).
Proof. apply PoolFacts.call_withdrawRace. Qed.

(** X19.  Two [withdrawRace] of 700 and 500 started on a balance of
    1000 with nothing else running, as lines 45-49 of
    [testRaceCondition] and lines 249-251 of [testComparison] do, with
    any labels.  Whenever [balance] is read afterwards (lines 53, 56
    and 253 read it after a sleep, without waiting for the goroutines)
    it is 1000, 300, 500 or -200; once both goroutines have returned it
    is 300, 500 or -200.  That both evaluate line 31 before either
    writes does not decide the outcome: in one such execution the
    writes of line 34 follow one another and -200 is left; in another
    both read [balance] before either writes, one subtraction is lost
    and 500 is left, with both withdrawals reported successful. *)
Theorem X19_race_outcomes :
  (forall (source1 source2 : string) (earlier : list Msg) (s : Pool.State),
      Pool.steps (Pool.pair_race source1 source2 earlier) s ->
      In (Pool.balance (fst s)) [1000; 300; 500; -200]) /\
  (forall (source1 source2 : string) (earlier : list Msg) (s : Pool.State),
      Pool.steps (Pool.pair_race source1 source2 earlier) s ->
      forallb Pool.returned (snd s) = true ->
      Pool.balance (fst s) = 300 \/ Pool.balance (fst s) = 500 \/
      Pool.balance (fst s) = -200) /\
  (Pool.run Pool.both_pass Pool.testRaceCondition = Some Pool.after_both_pass /\
   Pool.balance (fst Pool.after_both_pass) = -200) /\
  (Pool.run Pool.lost_update Pool.testRaceCondition =
   Some Pool.after_lost_update /\
   Pool.balance (fst Pool.after_lost_update) = 500 /\
   Pool.out (fst Pool.after_lost_update) =
   [RaceWithdrawing "phone transaction" 700;
    RaceWithdrawing "atm transaction" 500;
    RaceSuccessful "phone transaction" 700 500;
    RaceSuccessful "atm transaction" 500 500]).
Proof.
  split; [|split; [|split]].
  - exact PoolFacts.pair_race_balances.
  - exact PoolFacts.pair_race_outcomes.
  - split; reflexivity.
  - repeat split.
Qed.

Lemma X19_race_outcomes_witness :
  Pool.balance (fst Pool.after_lost_update) = 300 \/
  Pool.balance (fst Pool.after_lost_update) = 500 \/
  Pool.balance (fst Pool.after_lost_update) = -200.
Proof.
  apply (proj1 (proj2 X19_race_outcomes)
               "phone transaction" "atm transaction" []).
  - apply (PoolFacts.run_steps Pool.lost_update). reflexivity.
  - reflexivity.
Defined.




